(** * FOAM: construction of theoretical pulsation patterns

    A shallow embedding of [foam/build_optimised_pattern.py]: the two
    sequence-selection strategies ([puls_series_from_given_puls] and
    [chisq_longest_sequence]), the assembly of a pattern over the split-off
    parts of an interrupted observed pattern
    ([rescale_rotation_and_select_theoretical_pattern]) and the per-row driver
    ([theoretical_pattern_from_dfrow]).

    Numbers.  Frequencies, periods, errors and chi-square values are numpy
    float64 in the source.  In the first part they are exact rationals [Q],
    compared with [Qeq_bool] / [Qle_bool] where the source uses [==], [<=]
    and [min]: rounding, infinities and NaN are outside that part, which
    carries the statements about shapes, indices, radial orders and
    exceptions, and the statements that go through a division carry a
    hypothesis on the divisor (an observed error).  The statements about
    which of two computed numbers the source takes for the smaller are made
    in the part on computed numbers, over an arithmetic whose operations are
    left open and whose comparisons are those of IEEE 754; binary64 is one
    such arithmetic.  Radial orders are integers [Z].  Array indices are
    [nat]; an index that Python computes as a possibly negative integer is a
    [Z].

    Exceptions.  Python exceptions are the constructors of [exn]; a function
    that can raise returns a [result]. *)

From Stdlib Require Import Floats.
From Stdlib Require Import String.
From Stdlib Require Import List ZArith QArith Qabs Bool Lia Arith.
From Stdlib Require DecimalString DecimalNat.
Import ListNotations.

Set Implicit Arguments.
Set Warnings "-register-all".
Set Warnings "-inexact-float".
Local Open Scope Q_scope.

(** ** Exceptions *)

Inductive exn : Type :=
| IndexError   (* sequence index out of range, [ [0][0] ] of an empty [np.where] *)
| ValueError   (* [min()]/[max()] of an empty sequence, shapes that do not broadcast *)
| TypeError    (* operation applied to a value of the wrong Python type *)
| AttributeError (* attribute access on [None] *)
| SystemExit.  (* [sys.exit(...)] *)

Inductive result (A : Type) : Type :=
| Ok (a : A)
| Raise (e : exn).

Arguments Ok {A} a.
Arguments Raise {A} e.

Definition bind {A B : Type} (c : result A) (k : A -> result B) : result B :=
  match c with
  | Ok a => k a
  | Raise e => Raise e
  end.

Notation "x <- c ;; k" := (bind c (fun x => k))
  (at level 61, c at next level, right associativity).
Notation "' pat <- c ;; k" := (bind c (fun x => match x with pat => k end))
  (at level 61, pat pattern, c at next level, right associativity).

Definition of_option {A : Type} (e : exn) (o : option A) : result A :=
  match o with
  | Some a => Ok a
  | None => Raise e
  end.

Fixpoint mapM {A B : Type} (f : A -> result B) (l : list A) : result (list B) :=
  match l with
  | [] => Ok []
  | a :: l' => b <- f a ;; bs <- mapM f l' ;; Ok (b :: bs)
  end.

(** ** The numpy and builtin operations the source uses *)

Module Np.

(** The value written [-1] in the source: no theoretical counterpart. *)
Definition sentinel : Q := -1 # 1.
Definition sentinel_order : Z := (-1)%Z.

(** [arr[i]] for a non-negative [i]. *)
Definition getitem {A : Type} (l : list A) (i : nat) : result A :=
  of_option IndexError (nth_error l i).

(** [np.where(cond)[0]]: the indices at which [cond] holds, increasing. *)
Fixpoint where_from {A : Type} (p : A -> bool) (l : list A) (i : nat) : list nat :=
  match l with
  | [] => []
  | a :: l' => if p a then i :: where_from p l' (S i) else where_from p l' (S i)
  end.

Definition where_ {A : Type} (p : A -> bool) (l : list A) : list nat :=
  where_from p l 0.

(** [np.where(cond)[0][0]]. *)
Definition where_first {A : Type} (p : A -> bool) (l : list A) : result nat :=
  getitem (where_ p l) 0.

(** [arr[idx]] for an integer index array [idx]. *)
Definition take {A : Type} (l : list A) (idx : list nat) : result (list A) :=
  mapM (getitem l) idx.

(** [min(xs)]: the first of the smallest elements. *)
Fixpoint min_from (m : Q) (l : list Q) : Q :=
  match l with
  | [] => m
  | x :: l' => min_from (if Qle_bool m x then m else x) l'
  end.

Definition min (l : list Q) : result Q :=
  match l with
  | [] => Raise ValueError
  | x :: l' => Ok (min_from x l')
  end.

Fixpoint max_from (m : Q) (l : list Q) : Q :=
  match l with
  | [] => m
  | x :: l' => max_from (if Qle_bool x m then m else x) l'
  end.

Definition max (l : list Q) : result Q :=
  match l with
  | [] => Raise ValueError
  | x :: l' => Ok (max_from x l')
  end.

Fixpoint max_nat_from (m : nat) (l : list nat) : nat :=
  match l with
  | [] => m
  | x :: l' => max_nat_from (Nat.max m x) l'
  end.

Definition max_nat (l : list nat) : result nat :=
  match l with
  | [] => Raise ValueError
  | x :: l' => Ok (max_nat_from x l')
  end.

(** [arr[a:b]] for non-negative [a] and [b]. *)
Definition slice {A : Type} (a b : nat) (l : list A) : list A :=
  skipn a (firstn b l).

(** [np.sum]. *)
Definition sum (l : list Q) : Q := fold_left Qplus l 0.

(** [np.delete(arr, np.where(cond))]: a NEW array without the entries at
    which [cond] holds; [arr] itself is left as it is. *)
Definition delete_where (p : Q -> bool) (arr : list Q) : list Q :=
  filter (fun x => negb (p x)) arr.

(** [np.split(arr, indices)]: [arr[:i0], arr[i0:i1], ..., arr[ik:]]. *)
Fixpoint split_from {A : Type} (l : list A) (start : nat) (indices : list nat)
  : list (list A) :=
  match indices with
  | [] => [skipn start l]
  | i :: rest => slice start i l :: split_from l i rest
  end.

Definition split {A : Type} (l : list A) (indices : list nat) : list (list A) :=
  split_from l 0 indices.

(** An elementwise binary operation on one-dimensional arrays, with
    numpy's broadcasting of a length-one operand; shapes that do not
    broadcast raise [ValueError]. *)
Definition broadcast2 (f : Q -> Q -> Q) (a b : list Q) : result (list Q) :=
  match a, b with
  | [x], _ => Ok (map (fun y => f x y) b)
  | _, [y] => Ok (map (fun x => f x y) a)
  | _, _ =>
      if Nat.eqb (length a) (length b)
      then Ok (map (fun xy => f (fst xy) (snd xy)) (combine a b))
      else Raise ValueError
  end.

Definition sub : list Q -> list Q -> result (list Q) := broadcast2 Qminus.
Definition add : list Q -> list Q -> result (list Q) := broadcast2 Qplus.
Definition div : list Q -> list Q -> result (list Q) := broadcast2 Qdiv.

End Np.

(** ** Strategy A: [puls_series_from_given_puls] *)

(** The distances are exact here; which theoretical value the source takes
    for the closest on the computed distances is stated with
    [Fp.puls_series_from_given_puls], the same function over an
    arithmetic. *)
Definition puls_series_from_given_puls (TheoIn Obs : list Q) (Obs_to_build_from : Q)
  : result (list Q) :=
  nth_obs <- Np.where_first (fun x => Qeq_bool x Obs_to_build_from) Obs ;;
  let diff := map (fun t => Qabs (t - Obs_to_build_from)) TheoIn in
  m <- Np.min diff ;;
  index <- Np.where_first (fun d => Qeq_bool d m) diff ;;
  let stop := (index + (length Obs - nth_obs))%nat in
  let front :=
    if (index <? nth_obs)%nat
    then repeat Np.sentinel (nth_obs - index) ++ Np.slice 0 stop TheoIn
    else Np.slice (index - nth_obs) stop TheoIn in
  let back :=
    if (length TheoIn <? stop)%nat
    then repeat Np.sentinel (stop - length TheoIn)
    else [] in
  Ok (front ++ back).

(** ** Spacing series *)

Section Model.

(** [np.sqrt]: square roots are not rational, the function is a parameter
    of the model. *)
Variable sqrt : Q -> Q.

(** Modelled from the spec: [ffg.generate_spacing_series] (the module
    [functions_for_gyre] is not among the sources).  For N periods, the N-1
    consecutive differences [period[i+1] - period[i]] and, when errors are
    given, the propagated errors [sqrt(err[i]^2 + err[i+1]^2)]. *)
Fixpoint spacings (periods : list Q) : list Q :=
  match periods with
  | p0 :: rest =>
      match rest with
      | p1 :: _ => (p1 - p0) :: spacings rest
      | [] => []
      end
  | [] => []
  end.

Fixpoint spacing_errors (errors : list Q) : list Q :=
  match errors with
  | e0 :: rest =>
      match rest with
      | e1 :: _ => sqrt (e0 ^ 2 + e1 ^ 2) :: spacing_errors rest
      | [] => []
      end
  | [] => []
  end.

Definition generate_spacing_series (periods : list Q) (errors : option (list Q))
  : list Q * option (list Q) :=
  (spacings periods, option_map spacing_errors errors).

(** ** Strategy B: [chisq_longest_sequence] *)

(** A row [[period, best_match, int(best_order), chisq]] of [pairs_orders]. *)
Record pair_order : Type := mk_pair {
  po_period : Q;
  po_match : Q;
  po_order : Z;
  po_chisq : Q
}.

Definition chisq_of (period err tperiod : Q) : Q :=
  ((period - tperiod) / err) ^ 2.

(** The body of the loop over the observed periods: the best match of one
    observed period.  The loop only runs when [tperiods] is at least as
    long as [operiods], so [tperiods] is not empty when
    [operiods_errors[ii]] is read.  The chi-squares are exact here; which
    index the source takes on the computed ones is stated with
    [Fp.best_match], the same body over an arithmetic. *)
Definition best_match (tperiods : list Q) (orders : list Z) (period err : Q)
  : result pair_order :=
  let chisqs := map (chisq_of period err) tperiods in
  m <- Np.min chisqs ;;
  let min_ind := Np.where_ (fun c => Qeq_bool c m) chisqs in
  ts <- Np.take tperiods min_ind ;;
  best_match <- Np.getitem ts 0 ;;
  os <- Np.take orders min_ind ;;
  best_order <- Np.getitem os 0 ;;
  cs <- Np.take chisqs min_ind ;;
  c <- Np.getitem cs 0 ;;
  Ok (mk_pair period best_match best_order c).

Fixpoint pairs_orders_from (tperiods : list Q) (orders : list Z)
  (operiods_errors : list Q) (ii : nat) (operiods : list Q)
  : result (list pair_order) :=
  match operiods with
  | [] => Ok []
  | period :: rest =>
      err <- Np.getitem operiods_errors ii ;;
      row <- best_match tperiods orders period err ;;
      rows <- pairs_orders_from tperiods orders operiods_errors (S ii) rest ;;
      Ok (row :: rows)
  end.

Definition pairs_orders_of (tperiods : list Q) (orders : list Z)
  (operiods operiods_errors : list Q) : result (list pair_order) :=
  pairs_orders_from tperiods orders operiods_errors 0 operiods.

Definition increase_or_decrease_of (orders : list Z) : result Z :=
  o1 <- Np.getitem orders 1 ;;
  o0 <- Np.getitem orders 0 ;;
  Ok (if (o1 =? o0 - 1)%Z then (-1)%Z else 1%Z).

(** The state of the scan: [current] and [sequences]. *)
Definition scan_state : Type := (list pair_order * list (list pair_order))%type.

(** One iteration of the scan over [enumerate(pairs_orders[:-1])]. *)
Definition scan_step (increase_or_decrease : Z) (pairs_orders : list pair_order)
  (lp : nat) (st : scan_state) (ii : nat) (sett : pair_order) : result scan_state :=
  let '(current, sequences) := st in
  next <- Np.getitem pairs_orders (ii + 1) ;;
  let '(current, sequences) :=
    if (Z.abs (po_order sett) =? Z.abs (po_order next) + increase_or_decrease)%Z
    then (current ++ [sett], sequences)
    else ([], sequences ++ [current ++ [sett]]) in
  if (ii =? lp - 1)%nat
  then Ok ([], sequences ++ [current ++ [sett]])
  else Ok (current, sequences).

Fixpoint scan_loop (increase_or_decrease : Z) (pairs_orders : list pair_order)
  (lp : nat) (todo : list pair_order) (ii : nat) (st : scan_state)
  : result scan_state :=
  match todo with
  | [] => Ok st
  | sett :: todo' =>
      st' <- scan_step increase_or_decrease pairs_orders lp st ii sett ;;
      scan_loop increase_or_decrease pairs_orders lp todo' (S ii) st'
  end.

Definition sequences_of (increase_or_decrease : Z) (pairs_orders : list pair_order)
  : result (list (list pair_order)) :=
  let head := removelast pairs_orders in
  let lp := length head in
  st <- scan_loop increase_or_decrease pairs_orders lp head 0 ([], []) ;;
  Ok (snd st).

(** [np.sum(seq[:,-1])/len(seq)], exact; which run the source takes on
    the computed means is stated with [Fp.select_lseq]. *)
Definition mean_chisq (s : list pair_order) : Q :=
  Np.sum (map po_chisq s) / inject_Z (Z.of_nat (length s)).

Definition select_lseq (sequences : list (list pair_order)) : result (list pair_order) :=
  let len_list := map (@length pair_order) sequences in
  m <- Np.max_nat len_list ;;
  let longest := Np.where_ (fun n => (n =? m)%nat) len_list in
  if (length longest =? 1)%nat
  then
    l0 <- Np.getitem longest 0 ;;
    Np.getitem sequences l0
  else
    scores <- mapM (fun ii => s <- Np.getitem sequences ii ;; Ok (mean_chisq s)) longest ;;
    ms <- Np.min scores ;;
    min_score <- Np.where_first (fun s => Qeq_bool s ms) scores ;;
    l <- Np.getitem longest min_score ;;
    Np.getitem sequences l.

(** The body of the alignment loop, for observed index [i]. *)
Definition aligned_at (tperiods : list Q) (orders : list Z) (thr_ind_start : Z)
  (i : nat) : result (Q * Z) :=
  let thr_ind_current := (thr_ind_start + Z.of_nat i)%Z in
  if (thr_ind_current <? 0)%Z then Ok (Np.sentinel, Np.sentinel_order)
  else if (thr_ind_current >=? Z.of_nat (length tperiods))%Z
  then Ok (Np.sentinel, Np.sentinel_order)
  else
    tper <- Np.getitem tperiods (Z.to_nat thr_ind_current) ;;
    ordr <- Np.getitem orders (Z.to_nat thr_ind_current) ;;
    Ok (tper, ordr).

Definition thr_ind_start_of (tperiods operiods : list Q) (lseq : list pair_order)
  : result Z :=
  first <- Np.getitem lseq 0 ;;
  obs_ordering_ind <- Np.where_first (fun x => Qeq_bool x (po_period first)) operiods ;;
  thr_ordering_ind <- Np.where_first (fun x => Qeq_bool x (po_match first)) tperiods ;;
  Ok (Z.of_nat thr_ordering_ind - Z.of_nat obs_ordering_ind)%Z.

Definition series_chi2_of (operiods operiods_errors final_theoretical_periods : list Q)
  : result Q :=
  let '(obs_series, obs_series_errors) :=
    generate_spacing_series operiods (Some operiods_errors) in
  let '(thr_series, _) := generate_spacing_series final_theoretical_periods None in
  obs_series_errors <- of_option TypeError obs_series_errors ;;
  d <- Np.sub obs_series thr_series ;;
  r <- Np.div d obs_series_errors ;;
  Ok (Np.sum (map (fun x => x ^ 2) r) / inject_Z (Z.of_nat (length obs_series))).

Definition penalty_chi2 : Q := inject_Z (10 ^ 16).

Definition chisq_longest_sequence (tperiods : list Q) (orders : list Z)
  (operiods operiods_errors : list Q) : result (Q * list Q * list Z) :=
  if (length tperiods <? length operiods)%nat
  then Ok (penalty_chi2,
           repeat Np.sentinel (length operiods),
           repeat Np.sentinel_order (length operiods))
  else
    pairs_orders <- pairs_orders_of tperiods orders operiods operiods_errors ;;
    increase_or_decrease <- increase_or_decrease_of orders ;;
    sequences <- sequences_of increase_or_decrease pairs_orders ;;
    lseq <- select_lseq sequences ;;
    thr_ind_start <- thr_ind_start_of tperiods operiods lseq ;;
    aligned <- mapM (aligned_at tperiods orders thr_ind_start)
                    (seq 0 (length operiods)) ;;
    let final_theoretical_periods := map fst aligned in
    let corresponding_orders := map snd aligned in
    series_chi2 <- series_chi2_of operiods operiods_errors final_theoretical_periods ;;
    Ok (series_chi2, final_theoretical_periods, corresponding_orders).

(** ** Python values

    [rescale_rotation_and_select_theoretical_pattern] receives its arguments
    by position, and Python binds them whatever their type: an argument of
    the wrong type raises only where it is used.  The arguments the function
    receives that way are values of [pyval]; a value that is not of the
    documented type raises [TypeError] where the function first uses it as
    that type. *)

Inductive pyval : Type :=
| PyNone
| PyBool (b : bool)
| PyInt (z : Z)
| PyFloat (x : Q)
| PyStr (s : string)
| PyArray (a : list Q)         (* one-dimensional numpy array of floats *)
| PyIntArray (a : list Z)      (* one-dimensional numpy array of integers *)
| PyList (l : list pyval).

Fixpoint chars (s : string) : list pyval :=
  match s with
  | EmptyString => []
  | String c s' => PyStr (String c EmptyString) :: chars s'
  end.

(** [iter(v)]: [None], booleans and numbers are not iterable. *)
Definition py_iter (v : pyval) : result (list pyval) :=
  match v with
  | PyNone | PyBool _ | PyInt _ | PyFloat _ => Raise TypeError
  | PyStr s => Ok (chars s)
  | PyArray a => Ok (map PyFloat a)
  | PyIntArray a => Ok (map PyInt a)
  | PyList l => Ok l
  end.

Fixpoint zip3 {A B C : Type} (la : list A) (lb : list B) (lc : list C)
  : list (A * B * C) :=
  match la, lb, lc with
  | a :: la', b :: lb', c :: lc' => (a, b, c) :: zip3 la' lb' lc'
  | _, _, _ => []
  end.

(** [zip(a, b, c)]: every argument is turned into an iterator first. *)
Definition py_zip3 (a b c : pyval) : result (list (pyval * pyval * pyval)) :=
  la <- py_iter a ;;
  lb <- py_iter b ;;
  lc <- py_iter c ;;
  Ok (zip3 la lb lc).

Definition py_eq_str (v : pyval) (s : string) : bool :=
  match v with
  | PyStr s' => String.eqb s' s
  | _ => false
  end.

Definition as_array (v : pyval) : result (list Q) :=
  match v with
  | PyArray a => Ok a
  | PyIntArray a => Ok (map inject_Z a)
  | _ => Raise TypeError
  end.

Definition as_orders (v : pyval) : result (list Z) :=
  match v with
  | PyIntArray a => Ok a
  | _ => Raise TypeError
  end.

(** The value to build the series from; [np.where(Obs == None)] is empty. *)
Definition as_anchor (v : pyval) : result Q :=
  match v with
  | PyFloat x => Ok x
  | PyInt z => Ok (inject_Z z)
  | PyNone => Raise IndexError
  | _ => Raise TypeError
  end.

(** ** [rescale_rotation_and_select_theoretical_pattern] *)

(** [asymptotic_object.scale_pattern(freqs, rotation_in, rotation_out)],
    an object of the module [gmode_rotation_scaling]. *)
Definition asymptotic : Type := list Q -> Q -> Q -> list Q.

Definition reciprocal (a : list Q) : list Q := map Qinv a.

(** [lst[-2]]. *)
Definition getitem_m2 (l : list Q) : result Q :=
  match rev l with
  | _ :: x :: _ => Ok x
  | _ => Raise IndexError
  end.

(** The pulsations already chosen are looked at, and [np.delete] builds a
    new array without them; the result of [np.delete] is not bound to a
    name, so [freqs] and [periods] stay as they are. *)
Definition drop_chosen_freqs (orders : pyval) (freqs output_pulsations : list Q)
  : result unit :=
  if (0 <? length output_pulsations)%nat
  then
    ords <- as_orders orders ;;
    o1 <- Np.getitem ords 1 ;;
    o0 <- Np.getitem ords 0 ;;
    if (o1 =? o0 - 1)%Z
    then
      low <- getitem_m2 output_pulsations ;;
      let _ := Np.delete_where (fun f => Qle_bool low f) freqs in
      Ok tt
    else
      high <- Np.max output_pulsations ;;
      let _ := Np.delete_where (fun f => Qle_bool f high) freqs in
      Ok tt
  else Ok tt.

Definition drop_chosen_periods (orders : pyval) (periods output_pulsations : list Q)
  : result unit :=
  if (0 <? length output_pulsations)%nat
  then
    ords <- as_orders orders ;;
    o1 <- Np.getitem ords 1 ;;
    o0 <- Np.getitem ords 0 ;;
    if (o1 =? o0 - 1)%Z
    then
      high <- Np.max output_pulsations ;;
      let _ := Np.delete_where (fun p => Qle_bool p high) periods in
      Ok tt
    else
      low <- getitem_m2 output_pulsations ;;
      let _ := Np.delete_where (fun p => Qle_bool low p) periods in
      Ok tt
  else Ok tt.

(** One iteration of the loop over the split-off parts: the new value of
    [output_pulsations]. *)
Definition select_part (which_observable method_build_series orders : pyval)
  (freqs periods : list Q) (output_pulsations : list Q)
  (Obs_part ObsErr_part highest_amp_puls_part : pyval) : result (list Q) :=
  let output_pulsations :=
    if (0 <? length output_pulsations)%nat
    then output_pulsations ++ [0]
    else output_pulsations in
  '(Theo_value, Obs_arr, ObsPeriod, ObsErr_P, highest_obs_freq) <-
    (if py_eq_str which_observable "frequency"
     then
       _ <- drop_chosen_freqs orders freqs output_pulsations ;;
       let Theo_value := freqs in
       Obs_arr <- as_array Obs_part ;;
       let ObsPeriod := reciprocal Obs_arr in
       ObsErr_arr <- as_array ObsErr_part ;;
       ObsErr_P <- Np.div ObsErr_arr (map (fun x => x ^ 2) Obs_arr) ;;
       highest_obs_freq <- Np.max Obs_arr ;;
       Ok (Theo_value, Obs_arr, ObsPeriod, ObsErr_P, highest_obs_freq)
     else if py_eq_str which_observable "period"
     then
       _ <- drop_chosen_periods orders periods output_pulsations ;;
       let Theo_value := periods in
       Obs_arr <- as_array Obs_part ;;
       let ObsPeriod := Obs_arr in
       ObsErr_P <- as_array ObsErr_part ;;
       highest_obs_freq <- Np.min Obs_arr ;;
       Ok (Theo_value, Obs_arr, ObsPeriod, ObsErr_P, highest_obs_freq)
     else Raise SystemExit) ;;
  selected_theoretical_pulsations <-
    (if py_eq_str method_build_series "highest_amplitude"
     then
       anchor <- as_anchor highest_amp_puls_part ;;
       puls_series_from_given_puls Theo_value Obs_arr anchor
     else if py_eq_str method_build_series "highest_frequency"
     then puls_series_from_given_puls Theo_value Obs_arr highest_obs_freq
     else if py_eq_str method_build_series "chisq_longest_sequence"
     then
       ords <- as_orders orders ;;
       '(series_chi2, final_theoretical_periods, corresponding_orders) <-
         chisq_longest_sequence periods ords ObsPeriod ObsErr_P ;;
       if py_eq_str which_observable "frequency"
       then Ok (reciprocal final_theoretical_periods)
       else Ok final_theoretical_periods
     else Raise SystemExit) ;;
  Ok (output_pulsations ++ selected_theoretical_pulsations).

Fixpoint select_parts (which_observable method_build_series orders : pyval)
  (freqs periods : list Q) (parts : list (pyval * pyval * pyval))
  (output_pulsations : list Q) : result (list Q) :=
  match parts with
  | [] => Ok output_pulsations
  | (Obs_part, ObsErr_part, highest_amp_puls_part) :: parts' =>
      output_pulsations' <-
        select_part which_observable method_build_series orders freqs periods
                    output_pulsations Obs_part ObsErr_part highest_amp_puls_part ;;
      select_parts which_observable method_build_series orders freqs periods
                   parts' output_pulsations'
  end.

Definition tiny_rotation : Q := 1 # (10 ^ 99).

(** The theoretical frequencies the pattern is selected from. *)
Definition scaled_freqs (params : option Q) (asymptotic_object : option asymptotic)
  (estimated_rotation : Q) (freqs_input : list Q) : result (list Q) :=
  match asymptotic_object with
  | Some scale_pattern =>
      rotation <- of_option AttributeError params ;;
      let estimated_rotation :=
        if Qeq_bool estimated_rotation 0 then tiny_rotation else estimated_rotation in
      Ok (scale_pattern freqs_input estimated_rotation rotation)
  | None => Ok freqs_input
  end.

(** The list [output_pulsations] when the loop over the parts has ended. *)
Definition assembled_pulsations (params : option Q)
  (asymptotic_object : option asymptotic) (estimated_rotation : Q)
  (freqs_input : list Q)
  (orders Obs ObsErr Obs_pattern_parts ObsErr_pattern_parts
     which_observable method_build_series highest_amp_puls : pyval)
  : result (list Q) :=
  freqs <- scaled_freqs params asymptotic_object estimated_rotation freqs_input ;;
  let periods := reciprocal freqs in
  parts <- py_zip3 Obs_pattern_parts ObsErr_pattern_parts highest_amp_puls ;;
  select_parts which_observable method_build_series orders freqs periods parts [].

Definition rescale_rotation_and_select_theoretical_pattern (params : option Q)
  (asymptotic_object : option asymptotic) (estimated_rotation : Q)
  (freqs_input : list Q)
  (orders Obs ObsErr Obs_pattern_parts ObsErr_pattern_parts
     which_observable method_build_series highest_amp_puls : pyval)
  : result (list Q) :=
  output_pulsations <-
    assembled_pulsations params asymptotic_object estimated_rotation freqs_input
      orders Obs ObsErr Obs_pattern_parts ObsErr_pattern_parts
      which_observable method_build_series highest_amp_puls ;;
  Obs_arr <- as_array Obs ;;
  Np.sub output_pulsations Obs_arr.

(** ** [theoretical_pattern_from_dfrow] *)

(** A row of the grid: the values of the parameter columns up to ['Xc']
    without ['rot'], and the columns ['n_pg<order>'] with their radial
    order, [None] where the frequency is NaN. *)
Record grid_row : Type := mk_row {
  row_parameters : list Q;
  row_modes : list (Z * option Q)
}.

Fixpoint computed_modes (modes : list (Z * option Q)) : list (Z * Q) :=
  match modes with
  | [] => []
  | (o, Some f) :: modes' => (o, f) :: computed_modes modes'
  | (_, None) :: modes' => computed_modes modes'
  end.

Definition nonzero (x : Q) : bool := negb (Qeq_bool x 0).

(** [[missing_puls[i] - i for i in range(len(missing_puls))]]. *)
Fixpoint adjust_missing (missing_puls : list nat) (i : nat) : list nat :=
  match missing_puls with
  | [] => []
  | m :: rest => (m - i)%nat :: adjust_missing rest (S i)
  end.

(** What [Minimizer(...).minimize()] of lmfit gives back. *)
Record minimizer_result : Type := mk_minimizer_result {
  mr_rotation : Q;
  mr_stderr : pyval;
  mr_residual : list Q
}.

(** lmfit's least-squares minimiser: the objective function of the
    rotation, and the initial value of the rotation. *)
Variable minimize : (Q -> result (list Q)) -> Q -> result minimizer_result.

Definition theoretical_pattern_from_dfrow (summary_grid_row : grid_row)
  (Obs ObsErr : list Q) (which_observable method_build_series : string)
  (highest_amp_puls : list Q) (asymptotic_object : option asymptotic)
  (estimated_rotation : Q) : result (list pyval) :=
  let modes := computed_modes (row_modes summary_grid_row) in
  let freqs := map snd modes in
  let orders := map fst modes in
  let missing_puls := Np.where_ (fun x => Qeq_bool x 0) Obs in
  let Obs := filter nonzero Obs in
  let ObsErr := filter nonzero ObsErr in
  let missing_puls := adjust_missing missing_puls 0 in
  let Obs_pattern_parts := Np.split Obs missing_puls in
  let ObsErr_pattern_parts := Np.split ObsErr missing_puls in
  highest_amp_puls <-
    (if negb (length Obs_pattern_parts =? length highest_amp_puls)%nat
     then
       if String.eqb method_build_series "highest_amplitude"
       then Raise SystemExit
       else Ok (PyList (repeat PyNone (length Obs_pattern_parts)))
     else Ok (PyList (map PyFloat highest_amp_puls))) ;;
  match asymptotic_object with
  | None =>
      residual <-
        rescale_rotation_and_select_theoretical_pattern
          None asymptotic_object estimated_rotation freqs
          (PyArray Obs) (PyArray ObsErr)
          (PyList (map PyArray Obs_pattern_parts))
          (PyList (map PyArray ObsErr_pattern_parts))
          (PyStr which_observable) (PyStr method_build_series)
          highest_amp_puls (PyBool false) ;;
      selected_pulsations <- Np.add Obs residual ;;
      Ok ([PyFloat estimated_rotation; PyInt 0]
            ++ map PyFloat (row_parameters summary_grid_row)
            ++ map PyFloat selected_pulsations)
  | Some _ =>
      result_minimizer <-
        minimize
          (fun rotation =>
             rescale_rotation_and_select_theoretical_pattern
               (Some rotation) asymptotic_object estimated_rotation freqs
               (PyIntArray orders) (PyArray Obs) (PyArray ObsErr)
               (PyList (map PyArray Obs_pattern_parts))
               (PyList (map PyArray ObsErr_pattern_parts))
               (PyStr which_observable) (PyStr method_build_series)
               highest_amp_puls)
          estimated_rotation ;;
      optimised_pulsations <- Np.add (mr_residual result_minimizer) Obs ;;
      Ok ([PyFloat (mr_rotation result_minimizer); mr_stderr result_minimizer]
            ++ map PyFloat (row_parameters summary_grid_row)
            ++ map PyFloat optimised_pulsations)
  end.

End Model.

(** A rational lower approximation of the square root, to run the model. *)
Definition approx_sqrt (q : Q) : Q :=
  (Z.sqrt (Qnum q * Zpos (Qden q) * 10 ^ 12) # (Qden q * 1000000)).

(** A minimiser that evaluates the objective function at the initial value
    of the rotation and stops there. *)
Definition one_evaluation (f : Q -> result (list Q)) (rotation : Q)
  : result minimizer_result :=
  residual <- f rotation ;;
  Ok (mk_minimizer_result rotation PyNone residual).

(** The scaling that leaves the pattern as it is. *)
Definition no_scaling : asymptotic := fun freqs _ _ => freqs.

(** ** The scan of the best matches, by recursion on the list

    [runs_of inc current l] is what the scan adds to [sequences] when it
    still has to visit all the elements of [l] but the last one, and
    [current] holds the run under construction. *)

Definition consecutive (increase_or_decrease : Z) (sett next : pair_order) : bool :=
  (Z.abs (po_order sett) =? Z.abs (po_order next) + increase_or_decrease)%Z.

Fixpoint runs_of (increase_or_decrease : Z) (current : list pair_order)
  (l : list pair_order) : list (list pair_order) :=
  match l with
  | [] => []
  | sett :: tl =>
      match tl with
      | [] => []
      | [next] =>
          if consecutive increase_or_decrease sett next
          then [current ++ [sett; sett]]
          else [current ++ [sett]; [sett]]
      | next :: _ :: _ =>
          if consecutive increase_or_decrease sett next
          then runs_of increase_or_decrease (current ++ [sett]) tl
          else (current ++ [sett]) :: runs_of increase_or_decrease [] tl
      end
  end.

(** ** Properties of inputs and outputs *)

(** Equal up to the equality of rationals, somewhere in the list. *)
Definition occurs (x : Q) (l : list Q) : Prop := exists y, In y l /\ y == x.

(** [i] is the lowest index of [l] whose element satisfies [p]. *)
Definition first_index {A : Type} (p : A -> Prop) (l : list A) (i : nat) : Prop :=
  (exists x, nth_error l i = Some x /\ p x) /\
  (forall j y, (j < i)%nat -> nth_error l j = Some y -> ~ p y).

(** Every radial order is followed by the order [step] further. *)
Definition consecutive_orders (step : Z) (orders : list Z) : Prop :=
  forall i a b, nth_error orders i = Some a -> nth_error orders (S i) = Some b ->
                (b - a = step)%Z.

Definition strictly_monotonic (orders : list Z) : Prop :=
  (forall i a b, nth_error orders i = Some a -> nth_error orders (S i) = Some b -> (a < b)%Z)
  \/ (forall i a b, nth_error orders i = Some a -> nth_error orders (S i) = Some b -> (b < a)%Z).

(** The step of the direction of the orders: [-1] when they decrease. *)
Definition direction_step (orders : list Z) : Z :=
  match orders with
  | o0 :: o1 :: _ => if (o1 <? o0)%Z then (-1)%Z else 1%Z
  | _ => 1%Z
  end.

(** Neighbouring radial orders of a result that are both no sentinel differ
    by [step]. *)
Definition neighbours_differ_by (step : Z) (corresponding_orders : list Z) : Prop :=
  forall i a b,
    nth_error corresponding_orders i = Some a ->
    nth_error corresponding_orders (S i) = Some b ->
    a <> Np.sentinel_order -> b <> Np.sentinel_order ->
    (b - a = step)%Z.

(** The input of [chisq_longest_sequence] the way the callers build it: as
    many orders as theoretical periods, as many errors as observed periods,
    positive errors, at least two observed periods and no fewer theoretical
    ones. *)
Record valid_input (tperiods : list Q) (orders : list Z)
  (operiods operiods_errors : list Q) : Prop := mk_valid {
  vi_orders : length orders = length tperiods;
  vi_errors : length operiods_errors = length operiods;
  vi_positive : Forall (fun e => 0 < e) operiods_errors;
  vi_two : (2 <= length operiods)%nat;
  vi_enough : (length operiods <= length tperiods)%nat
}.

(** The indices [np.split] is given do not decrease, from [start] on. *)
Fixpoint nondecreasing_from (start : nat) (indices : list nat) : Prop :=
  match indices with
  | [] => True
  | i :: rest => (start <= i)%nat /\ nondecreasing_from i rest
  end.

(** The runs end with a run that holds [x] and nothing else. *)
Definition extra_single_run (x : pair_order) (sequences : list (list pair_order))
  : Prop :=
  exists init, sequences = init ++ [[x]].

(** ** Concrete inputs *)

Module Example.

(** Three theoretical periods whose orders skip [-7] (the frequency of
    that order was NaN in the grid). *)
Definition skip_periods : list Q := [3; 2; 1].
Definition skip_orders : list Z := [-8; -6; -5]%Z.
Definition two_observed : list Q := [3; 2].
Definition two_errors : list Q := [1; 1].

(** The best matches of the observed periods 3 and 2 among the theoretical
    periods 3, 2, 1 of the orders -7, -6, -5. *)
Definition row0 : pair_order := mk_pair 3 3 (-7) 0.
Definition row1 : pair_order := mk_pair 2 2 (-6) 0.

(** Two runs of the same length, of mean chi-square 4 and 1. *)
Definition tie_high : pair_order := mk_pair 5 (48#10) (-9) 4.
Definition tie_low : pair_order := mk_pair 3 (31#10) (-7) 1.

(** The scenario of the specification: observed periods with a gap at
    position 2, eight theoretical periods at consecutive orders. *)
Definition e2e_periods : list Q :=
  [1; 95#100; 85#100; 82#100; 7#10; 62#100; 55#100; 48#100].
Definition e2e_orders : list Z := [-8; -7; -6; -5; -4; -3; -2; -1]%Z.
Definition e2e_freqs : list Q := map Qinv e2e_periods.
Definition e2e_row : grid_row :=
  mk_row [15#1000; 3] (combine e2e_orders (map (@Some Q) e2e_freqs)).
Definition e2e_obs : list Q := [9#10; 8#10; 0; 6#10; 5#10].
Definition e2e_err : list Q := [1#100; 1#100; 0; 1#100; 1#100].

(** The objective function the minimiser gets for that scenario. *)
Definition e2e_objective (sqrt : Q -> Q) (asymptotic_object : option asymptotic)
  (rotation : Q) : result (list Q) :=
  rescale_rotation_and_select_theoretical_pattern sqrt
    (Some rotation) asymptotic_object 1 e2e_freqs
    (PyIntArray e2e_orders)
    (PyArray [9#10; 8#10; 6#10; 5#10]) (PyArray [1#100; 1#100; 1#100; 1#100])
    (PyList [PyArray [9#10; 8#10]; PyArray [6#10; 5#10]])
    (PyList [PyArray [1#100; 1#100]; PyArray [1#100; 1#100]])
    (PyStr "period") (PyStr "chisq_longest_sequence")
    (PyList [PyNone; PyNone]).

Definition e2e_assembled (sqrt : Q -> Q) (asymptotic_object : option asymptotic)
  (rotation : Q) : result (list Q) :=
  assembled_pulsations sqrt
    (Some rotation) asymptotic_object 1 e2e_freqs
    (PyIntArray e2e_orders)
    (PyArray [9#10; 8#10; 6#10; 5#10]) (PyArray [1#100; 1#100; 1#100; 1#100])
    (PyList [PyArray [9#10; 8#10]; PyArray [6#10; 5#10]])
    (PyList [PyArray [1#100; 1#100]; PyArray [1#100; 1#100]])
    (PyStr "period") (PyStr "chisq_longest_sequence")
    (PyList [PyNone; PyNone]).

(** Theoretical periods 8, 7, ..., 1 and an observed pattern of two parts
    that both lie next to the theoretical period 6. *)
Definition int_periods : list Q := [8; 7; 6; 5; 4; 3; 2; 1].
Definition int_freqs : list Q := map Qinv int_periods.

Definition near_assembled (which_observable method_build_series : string)
  (part1 part2 : list Q) : result (list Q) :=
  assembled_pulsations approx_sqrt
    (Some 1) (Some no_scaling) 1 int_freqs
    (PyIntArray e2e_orders)
    (PyArray (part1 ++ part2)) (PyArray [1#100; 1#100; 1#100; 1#100])
    (PyList [PyArray part1; PyArray part2])
    (PyList [PyArray [1#100; 1#100]; PyArray [1#100; 1#100]])
    (PyStr which_observable) (PyStr method_build_series)
    (PyList [PyNone; PyNone]).

End Example.

(** ** The parts of an observed pattern, by recursion on the list

    [parts_of l current] are the parts [np.split] cuts out of what is left
    of the observed values, [current] being the values read since the last
    zero. *)

Fixpoint parts_of (l : list Q) (current : list Q) : list (list Q) :=
  match l with
  | [] => [current]
  | x :: l' =>
      if Qeq_bool x 0
      then current :: parts_of l' []
      else parts_of l' (current ++ [x])
  end.

(** The parts laid end to end, one zero between two parts. *)
Fixpoint join_parts (parts : list (list Q)) : list Q :=
  match parts with
  | [] => []
  | part :: rest =>
      match rest with
      | [] => part
      | _ :: _ => part ++ 0 :: join_parts rest
      end
  end.

(** [Obs_pattern_parts] and [ObsErr_pattern_parts] of
    [theoretical_pattern_from_dfrow]: [values] without its zeros, split where
    [Obs] has its zeros. *)
Definition pattern_parts (values Obs : list Q) : list (list Q) :=
  Np.split (filter nonzero values)
           (adjust_missing (Np.where_ (fun x => Qeq_bool x 0) Obs) 0).

(** ** The header of [construct_theoretical_freq_pattern] *)

(** [str(i)] for a natural number. *)
Definition str_of_nat (i : nat) : string :=
  DecimalString.NilEmpty.string_of_uint (Nat.to_uint i).

(** The header line written to the output file (lines 66-73).
    [parameter_columns] is the value of
    [list(Theo_dFrame.drop(columns=['rot']).loc[:,:'Xc'].columns)], [index]
    the labels of the rows of the observations, so that [length index] is
    [Obs_dFrame.shape[0]] (the label of a default integer index is never
    equal to ['f_missing']: any other string stands for it).  [f.strip()] is
    [f]: neither ['f_missing'] nor ['f'] followed by decimal digits starts
    or ends with white space. *)
Definition pattern_header (parameter_columns index : list string) : list string :=
  let missing := Np.where_ (fun label => String.eqb label "f_missing") index in
  ["rot"; "rot_err"]%string ++ parameter_columns
    ++ map (fun i =>
              if existsb (Nat.eqb (i - 1)) missing
              then "f_missing"%string
              else ("f" ++ str_of_nat i)%string)
           (seq 1 (length index)).

(** * Choices that rest on comparing computed numbers

    Which theoretical value is the closest, which match has the smallest
    chi-square and which run has the lowest mean is decided in the source by
    [<] and [==] on float64 values that a subtraction, a division, a square
    or a sum has rounded.  Two values that differ as rationals can round to
    the same float64, and the choice follows the rounded values.  For the
    statements about these choices the functions that make them are modelled
    here over an arithmetic [arith]: a type of numbers with the operations
    the source applies to them.  Nothing is assumed of the operations; of
    [<] and [==] what IEEE 754 gives for every float64, NaN and the
    infinities included ([ieee_comparisons]).  [binary64] is that arithmetic
    on the kernel's binary64 numbers and [exact] the one on the rationals;
    over [exact] the functions are the ones of the first part. *)

Module Fp.

Unset Implicit Arguments.

Record arith : Type := mk_arith {
  num :> Type;
  sub : num -> num -> num;        (* [x - y] *)
  div : num -> num -> num;        (* [x / y] *)
  square : num -> num;            (* [x ** 2] *)
  absolute : num -> num;          (* [abs(x)] *)
  sum : list num -> num;          (* [np.sum(xs)] *)
  of_len : nat -> num;            (* [len(xs)] where it divides a float64 *)
  minus_one : num;                (* [-1] *)
  ltb : num -> num -> bool;       (* [x < y] *)
  eqb : num -> num -> bool        (* [x == y] *)
}.

(** [x == x]: true of every float64 but NaN. *)
Definition is_number (A : arith) (x : A) : Prop := eqb A x x = true.

(** What IEEE 754 gives for [<] and [==]: [<] is a strict order, equal
    numbers compare alike with every number, and two numbers that are not
    NaN are equal or one is below the other. *)
Record ieee_comparisons (A : arith) : Prop := mk_ieee_comparisons {
  ltb_irrefl : forall x : A, ltb A x x = false;
  ltb_trans : forall x y z : A,
    ltb A x y = true -> ltb A y z = true -> ltb A x z = true;
  eqb_ltb_l : forall x y z : A, eqb A x y = true -> ltb A x z = ltb A y z;
  eqb_ltb_r : forall x y z : A, eqb A x y = true -> ltb A z x = ltb A z y;
  ltb_total : forall x y : A, is_number A x -> is_number A y ->
    ltb A x y = true \/ eqb A x y = true \/ ltb A y x = true
}.

Arguments ltb_irrefl {A} _ x.
Arguments ltb_trans {A} _ x y z _ _.
Arguments eqb_ltb_l {A} _ x y z _.
Arguments eqb_ltb_r {A} _ x y z _.
Arguments ltb_total {A} _ x y _ _.

Section Functions.

Variable A : arith.

(** The builtin [min(xs)]: the first element is kept until a later one is
    [<] the one kept. *)
Fixpoint min_from (m : A) (l : list A) : A :=
  match l with
  | [] => m
  | x :: l' => min_from (if ltb A x m then x else m) l'
  end.

Definition min (l : list A) : result A :=
  match l with
  | [] => Raise ValueError
  | x :: l' => Ok (min_from x l')
  end.

(** [puls_series_from_given_puls] (lines 320-336). *)
Definition puls_series_from_given_puls (TheoIn Obs : list A) (Obs_to_build_from : A)
  : result (list A) :=
  nth_obs <- Np.where_first (fun x => eqb A x Obs_to_build_from) Obs ;;
  let diff := map (fun t => absolute A (sub A t Obs_to_build_from)) TheoIn in
  m <- min diff ;;
  index <- Np.where_first (fun d => eqb A d m) diff ;;
  let stop := (index + (length Obs - nth_obs))%nat in
  let front :=
    if (index <? nth_obs)%nat
    then repeat (minus_one A) (nth_obs - index) ++ Np.slice 0 stop TheoIn
    else Np.slice (index - nth_obs) stop TheoIn in
  let back :=
    if (length TheoIn <? stop)%nat
    then repeat (minus_one A) (stop - length TheoIn)
    else [] in
  Ok (front ++ back).

(** A row [[period, best_match, int(best_order), chisq]] of [pairs_orders]. *)
Record pair_order : Type := mk_pair {
  po_period : A;
  po_match : A;
  po_order : Z;
  po_chisq : A
}.

(** [((period-tperiod)/operiods_errors[ii])**2]. *)
Definition chisq_of (period err tperiod : A) : A :=
  square A (div A (sub A period tperiod) err).

(** The body of the loop over the observed periods (lines 379-388). *)
Definition best_match (tperiods : list A) (orders : list Z) (period err : A)
  : result pair_order :=
  let chisqs := map (chisq_of period err) tperiods in
  m <- min chisqs ;;
  let min_ind := Np.where_ (fun c => eqb A c m) chisqs in
  ts <- Np.take tperiods min_ind ;;
  best_match <- Np.getitem ts 0 ;;
  os <- Np.take orders min_ind ;;
  best_order <- Np.getitem os 0 ;;
  cs <- Np.take chisqs min_ind ;;
  c <- Np.getitem cs 0 ;;
  Ok (mk_pair period best_match best_order c).

Fixpoint pairs_orders_from (tperiods : list A) (orders : list Z)
  (operiods_errors : list A) (ii : nat) (operiods : list A)
  : result (list pair_order) :=
  match operiods with
  | [] => Ok []
  | period :: rest =>
      err <- Np.getitem operiods_errors ii ;;
      row <- best_match tperiods orders period err ;;
      rows <- pairs_orders_from tperiods orders operiods_errors (S ii) rest ;;
      Ok (row :: rows)
  end.

Definition pairs_orders_of (tperiods : list A) (orders : list Z)
  (operiods operiods_errors : list A) : result (list pair_order) :=
  pairs_orders_from tperiods orders operiods_errors 0 operiods.

(** [np.sum(seq[:,-1])/len(seq)]. *)
Definition mean_chisq (s : list pair_order) : A :=
  div A (sum A (map po_chisq s)) (of_len A (length s)).

(** The selection of [lseq] among the runs (lines 425-436). *)
Definition select_lseq (sequences : list (list pair_order)) : result (list pair_order) :=
  let len_list := map (@length pair_order) sequences in
  m <- Np.max_nat len_list ;;
  let longest := Np.where_ (fun n => (n =? m)%nat) len_list in
  if (length longest =? 1)%nat
  then
    l0 <- Np.getitem longest 0 ;;
    Np.getitem sequences l0
  else
    scores <- mapM (fun ii => s <- Np.getitem sequences ii ;; Ok (mean_chisq s)) longest ;;
    ms <- min scores ;;
    min_score <- Np.where_first (fun s => eqb A s ms) scores ;;
    l <- Np.getitem longest min_score ;;
    Np.getitem sequences l.

End Functions.

Set Implicit Arguments.

End Fp.

Coercion Fp.num : Fp.arith >-> Sortclass.

(** ** The two arithmetics *)

(** The rationals, with exact operations. *)
Definition exact : Fp.arith :=
  Fp.mk_arith Q Qminus Qdiv (fun x => x ^ 2) Qabs Np.sum
              (fun n => inject_Z (Z.of_nat n)) Np.sentinel
              (fun x y => negb (Qle_bool y x)) Qeq_bool.

(** [float(n)] for a length [n]: exact below 2^53. *)
Definition float_of_len (n : nat) : float :=
  Nat.iter n (fun x => PrimFloat.add x 1%float) 0%float.

(** A row over the rationals as a row of the first part. *)
Definition to_pair (row : Fp.pair_order exact) : pair_order :=
  mk_pair (Fp.po_period exact row) (Fp.po_match exact row)
          (Fp.po_order exact row) (Fp.po_chisq exact row).

(** IEEE 754 binary64, the float64 of numpy: the kernel's primitive floats,
    with their correctly rounded subtraction and division.  The square is
    taken as the rounded product and the sum from the left; the statements
    below hold of every arithmetic, whatever its square and its sum. *)
Definition binary64 : Fp.arith :=
  Fp.mk_arith float PrimFloat.sub PrimFloat.div (fun x => PrimFloat.mul x x)
              PrimFloat.abs (fun xs => fold_left PrimFloat.add xs 0%float)
              float_of_len (PrimFloat.opp 1%float)
              PrimFloat.ltb PrimFloat.eqb.

(** The place of a binary64 value that is not NaN in the order of the
    values: the sign class, then exponent and mantissa. *)
Definition rank (f : spec_float) : option (Z * Z * Z) :=
  match f with
  | S754_zero _ => Some (0, 0, 0)%Z
  | S754_infinity s => Some (if s then (-2) else 2, 0, 0)%Z
  | S754_nan => None
  | S754_finite s m e =>
      Some (if s then (-1, - e, - Z.pos m) else (1, e, Z.pos m))%Z
  end.

Definition below (p q : Z * Z * Z) : Prop :=
  let '(a, b, c) := p in
  let '(a', b', c') := q in
  (a < a' \/ (a = a' /\ (b < b' \/ (b = b' /\ c < c'))))%Z.

(** ** Inputs on which rounding decides *)

Module Rounded.

(** [0.07] lies between [0.01] and [0.13], nearer to [0.13] as a rational;
    divided by [0.01] and squared, both differences give [36.0]. *)
Definition tperiods : list float := [0.01; 0.13]%float.
Definition orders : list Z := [-2; -1]%Z.
Definition operiods : list float := [0.07]%float.
Definition operiods_errors : list float := [0.01]%float.

(** Two runs of two rows whose chi-squares are [0.1, 0.4] and [0.2, 0.3]:
    both means are [0.25]. *)
Definition run (o : Z) (c1 c2 : float) : list (Fp.pair_order binary64) :=
  [Fp.mk_pair binary64 1%float 1%float o c1;
   Fp.mk_pair binary64 2%float 2%float (o + 1)%Z c2].
Definition sequences : list (list (Fp.pair_order binary64)) :=
  [run (-9) 0.1 0.4; run (-5) 0.2 0.3]%float.

(** [0.14] lies between [0.01] and [0.27]; both distances are [0.13]. *)
Definition TheoIn : list float := [0.01; 0.27]%float.
Definition Obs : list float := [0.5; 0.14; 0.3]%float.

End Rounded.

(** * Proofs *)

Unset Implicit Arguments.

(** ** The error monad *)

Lemma bind_Ok {A B : Type} (c : result A) (k : A -> result B) (b : B) :
  bind c k = Ok b -> exists a, c = Ok a /\ k a = Ok b.
Proof.
  destruct c as [a|e]; simpl; intros H; [exists a; auto | discriminate].
Qed.

Ltac inv_bind H :=
  let a := fresh "v" in
  let Ha := fresh "Hv" in
  apply bind_Ok in H; destruct H as (a & Ha & H).

Tactic Notation "bind_inv" hyp(H) "as" ident(a) ident(Ha) :=
  apply bind_Ok in H; destruct H as (a & Ha & H).

Lemma getitem_Ok {A : Type} (l : list A) (i : nat) (x : A) :
  Np.getitem l i = Ok x <-> nth_error l i = Some x.
Proof.
  unfold Np.getitem. destruct (nth_error l i); simpl; split; intros H;
    inversion H; reflexivity.
Qed.

Lemma getitem_lt {A : Type} (l : list A) (i : nat) :
  (i < length l)%nat -> exists x, Np.getitem l i = Ok x /\ nth_error l i = Some x.
Proof.
  intros H. destruct (nth_error l i) as [x|] eqn:E.
  - exists x. split; [apply getitem_Ok|]; auto.
  - apply nth_error_None in E. lia.
Qed.

Lemma mapM_Ok {A B : Type} (f : A -> result B) (l : list A) :
  (forall a, In a l -> exists b, f a = Ok b) ->
  exists bs, mapM f l = Ok bs /\ length bs = length l /\
             forall n a, nth_error l n = Some a ->
                         exists b, nth_error bs n = Some b /\ f a = Ok b.
Proof.
  induction l as [|a l IH]; intros H.
  - exists []. repeat split. intros [|n] a E; discriminate.
  - destruct (H a (or_introl eq_refl)) as (b & Hb).
    destruct IH as (bs & Hbs & Hlen & Hnth); [intros; apply H; right; auto|].
    exists (b :: bs). simpl. rewrite Hb, Hbs. simpl. repeat split; [lia|].
    intros [|n] a' E; simpl in *.
    + inversion E; subst. exists b; auto.
    + apply Hnth; auto.
Qed.

Lemma mapM_inv {A B : Type} (f : A -> result B) (l : list A) (bs : list B) :
  mapM f l = Ok bs ->
  length bs = length l /\
  forall n a, nth_error l n = Some a ->
              exists b, nth_error bs n = Some b /\ f a = Ok b.
Proof.
  revert bs. induction l as [|a l IH]; intros bs H; simpl in H.
  - inversion H; subst. split; auto. intros [|n] a E; discriminate.
  - inv_bind H. inv_bind H. inversion H; subst; clear H.
    destruct (IH _ Hv0) as (Hlen & Hnth). split; [simpl; lia|].
    intros [|n] a' E; simpl in *.
    + inversion E; subst. eauto.
    + auto.
Qed.

(** ** [np.where] *)

Lemma where_from_head {A : Type} (p : A -> bool) (l : list A) (i j : nat)
  (rest : list nat) :
  Np.where_from p l i = j :: rest ->
  (i <= j)%nat /\
  (exists x, nth_error l (j - i) = Some x /\ p x = true) /\
  (forall k y, (k < j - i)%nat -> nth_error l k = Some y -> p y = false).
Proof.
  revert i. induction l as [|a l IH]; intros i H; simpl in H; [discriminate|].
  destruct (p a) eqn:Pa.
  - inversion H; subst. rewrite Nat.sub_diag. repeat split; auto.
    + exists a; auto.
    + intros k y Hk; lia.
  - apply IH in H. destruct H as (Hle & (x & Hx & Px) & Hbefore).
    repeat split; [lia | |].
    + exists x. replace (j - i)%nat with (S (j - S i)) by lia. auto.
    + intros [|k] y Hk E; simpl in E.
      * inversion E; subst; auto.
      * apply (Hbefore k); auto. lia.
Qed.

Lemma where_from_In {A : Type} (p : A -> bool) (l : list A) (i j : nat) :
  In j (Np.where_from p l i) <->
  (i <= j)%nat /\ exists x, nth_error l (j - i) = Some x /\ p x = true.
Proof.
  revert i. induction l as [|a l IH]; intros i; simpl.
  - split; [tauto|]. intros (_ & x & E & _). destruct (j - i)%nat; discriminate.
  - assert (Hrec : In j (Np.where_from p l (S i)) <->
                   (S i <= j)%nat /\ exists x, nth_error l (j - S i) = Some x /\ p x = true)
      by apply IH.
    split.
    + intros H.
      assert (Hcases : (j = i /\ p a = true) \/ In j (Np.where_from p l (S i))).
      { destruct (p a); simpl in H; [destruct H; auto|]; auto. }
      destruct Hcases as [(-> & Pa) | Hin].
      * split; auto. rewrite Nat.sub_diag. exists a; auto.
      * apply Hrec in Hin. destruct Hin as (Hle & x & E & Px).
        split; [lia|]. exists x. replace (j - i)%nat with (S (j - S i)) by lia. auto.
    + intros (Hle & x & E & Px).
      destruct (Nat.eq_dec j i) as [->|Hne].
      * rewrite Nat.sub_diag in E. simpl in E. inversion E; subst.
        rewrite Px. left; auto.
      * assert (Hin : In j (Np.where_from p l (S i))).
        { apply Hrec. split; [lia|]. exists x.
          replace (j - i)%nat with (S (j - S i)) in E by lia. auto. }
        destruct (p a); simpl; auto.
Qed.

Lemma where_first_Ok {A : Type} (p : A -> bool) (l : list A) (i : nat) :
  Np.where_first p l = Ok i <-> first_index (fun x => p x = true) l i.
Proof.
  unfold Np.where_first, Np.where_, first_index. rewrite getitem_Ok. split.
  - intros H. destruct (Np.where_from p l 0) as [|j rest] eqn:E; [discriminate|].
    simpl in H. inversion H; subst.
    apply where_from_head in E. rewrite Nat.sub_0_r in E.
    destruct E as (_ & Hx & Hb). split; auto.
    intros j y Hj Ey Py. rewrite (Hb j y Hj Ey) in Py. discriminate.
  - intros ((x & Ex & Px) & Hb).
    destruct (Np.where_from p l 0) as [|j rest] eqn:E.
    + assert (Hin : In i (Np.where_from p l 0)).
      { apply where_from_In. split; [lia|]. rewrite Nat.sub_0_r. eauto. }
      rewrite E in Hin. destruct Hin.
    + simpl. f_equal. apply where_from_head in E. rewrite Nat.sub_0_r in E.
      destruct E as (_ & (y & Ey & Py) & Hb').
      destruct (Nat.lt_trichotomy j i) as [Hlt | [Heq | Hgt]]; auto.
      * exfalso. apply (Hb j y Hlt Ey Py).
      * rewrite (Hb' i x Hgt Ex) in Px. discriminate.
Qed.

Lemma where_first_exists {A : Type} (p : A -> bool) (l : list A) (x : A) :
  In x l -> p x = true -> exists i, Np.where_first p l = Ok i.
Proof.
  intros Hin Px. unfold Np.where_first, Np.where_.
  destruct (Np.where_from p l 0) as [|j rest] eqn:E.
  - apply In_nth_error in Hin. destruct Hin as (n & En).
    assert (Hn : In n (Np.where_from p l 0)).
    { apply where_from_In. split; [lia|]. rewrite Nat.sub_0_r. eauto. }
    rewrite E in Hn. destruct Hn.
  - exists j. reflexivity.
Qed.

(** ** [min] and [max] *)

Lemma min_from_spec (l : list Q) (m : Q) :
  (Np.min_from m l = m \/ In (Np.min_from m l) l) /\
  Np.min_from m l <= m /\
  (forall x, In x l -> Np.min_from m l <= x).
Proof.
  revert m. induction l as [|x l IH]; intros m; simpl.
  - repeat split; auto using Qle_refl. intros x [].
  - destruct (IH (if Qle_bool m x then m else x)) as (Hin & Hle & Hall).
    destruct (Qle_bool m x) eqn:E.
    + apply Qle_bool_iff in E. repeat split; auto.
      * destruct Hin; auto.
      * intros y [<- | Hy]; auto. eapply Qle_trans; eauto.
    + assert (Hlt : x < m).
      { apply Qnot_le_lt. intros H. apply Qle_bool_iff in H. congruence. }
      repeat split.
      * destruct Hin as [-> | Hin]; auto.
      * eapply Qle_trans; [apply Hle | apply Qlt_le_weak; auto].
      * intros y [<- | Hy]; auto.
Qed.

Lemma min_Ok (l : list Q) :
  l <> [] ->
  exists m, Np.min l = Ok m /\ In m l /\ forall x, In x l -> m <= x.
Proof.
  destruct l as [|x l]; intros H; [congruence|].
  exists (Np.min_from x l). simpl.
  destruct (min_from_spec l x) as (Hin & Hle & Hall).
  repeat split.
  - destruct Hin as [-> | Hin]; auto.
  - intros y [<- | Hy]; auto.
Qed.

Lemma max_nat_from_spec (l : list nat) (m : nat) :
  (Np.max_nat_from m l = m \/ In (Np.max_nat_from m l) l) /\
  (m <= Np.max_nat_from m l)%nat /\
  (forall x, In x l -> (x <= Np.max_nat_from m l)%nat).
Proof.
  revert m. induction l as [|x l IH]; intros m; simpl.
  - repeat split; auto. intros x [].
  - destruct (IH (Nat.max m x)) as (Hin & Hle & Hall).
    repeat split.
    + destruct Hin as [E | Hin]; auto. rewrite E.
      destruct (Nat.max_spec m x) as [(_ & ->) | (_ & ->)]; auto.
    + lia.
    + intros y [<- | Hy]; auto. lia.
Qed.

Lemma max_nat_Ok (l : list nat) :
  l <> [] ->
  exists m, Np.max_nat l = Ok m /\ In m l /\ forall x, In x l -> (x <= m)%nat.
Proof.
  destruct l as [|x l]; intros H; [congruence|].
  exists (Np.max_nat_from x l). simpl.
  destruct (max_nat_from_spec l x) as (Hin & Hle & Hall).
  repeat split.
  - destruct Hin as [-> | Hin]; auto.
  - intros y [<- | Hy]; auto.
Qed.

Lemma first_index_ext {A : Type} (p q : A -> Prop) (l : list A) (i : nat) :
  (forall x, p x <-> q x) -> first_index p l i -> first_index q l i.
Proof.
  intros H ((x & Ex & Px) & Hb). split.
  - exists x. split; auto. apply H; auto.
  - intros j y Hj Ey Qy. apply (Hb j y Hj Ey). apply H; auto.
Qed.

Lemma Qabs_zero (x : Q) : Qabs x == 0 -> x == 0.
Proof.
  intros H. destruct (Qlt_le_dec x 0) as [Hneg | Hpos].
  - rewrite Qabs_neg in H by (apply Qlt_le_weak; auto).
    rewrite <- (Qopp_involutive x), H. reflexivity.
  - rewrite Qabs_pos in H; auto.
Qed.

Lemma Qabs_diff_zero (t a : Q) : Qabs (t - a) == 0 <-> t == a.
Proof.
  split; intros H.
  - apply Qabs_zero in H. rewrite <- (Qplus_0_l a), <- H. ring.
  - rewrite H. setoid_replace (a - a) with 0 by ring. reflexivity.
Qed.

(** ** Strategy A *)

Lemma slice_nth {A : Type} (l : list A) (a b i : nat) :
  (a + i < b)%nat -> nth_error (Np.slice a b l) i = nth_error l (a + i).
Proof.
  intros H. unfold Np.slice. rewrite nth_error_skipn, nth_error_firstn.
  destruct (Nat.ltb_spec (a + i) b); auto. lia.
Qed.

(** C9.  When the value to build from occurs in the observed part and is
    equal to one of the theoretical values, [puls_series_from_given_puls]
    returns a series that holds, at the index [nth_obs] of that value in the
    observed part, the theoretical value of the lowest index [index] that is
    equal to it: the residual there is zero. *)
Theorem anchor_round_trip (TheoIn Obs : list Q) (Obs_to_build_from : Q) :
  occurs Obs_to_build_from Obs ->
  occurs Obs_to_build_from TheoIn ->
  exists Theo_sequence nth_obs index t,
    puls_series_from_given_puls TheoIn Obs Obs_to_build_from = Ok Theo_sequence /\
    first_index (fun x => x == Obs_to_build_from) Obs nth_obs /\
    first_index (fun x => x == Obs_to_build_from) TheoIn index /\
    nth_error TheoIn index = Some t /\
    nth_error Theo_sequence nth_obs = Some t /\
    t - Obs_to_build_from == 0.
Proof.
  intros (y & Hy & Ey) (t0 & Ht0 & Et0).
  unfold puls_series_from_given_puls.
  set (a := Obs_to_build_from) in *.
  destruct (where_first_exists (fun x => Qeq_bool x a) Obs y Hy) as (nth_obs & Hobs).
  { apply Qeq_bool_iff; auto. }
  rewrite Hobs. cbn [bind]. cbv zeta.
  set (diff := map (fun t => Qabs (t - a)) TheoIn).
  destruct (min_Ok diff) as (m & Hm & Hmin & Hmall).
  { unfold diff. destruct TheoIn; [destruct Ht0 | discriminate]. }
  rewrite Hm. cbn [bind].
  assert (Hm0 : m == 0).
  { apply Qle_antisym.
    - assert (Hd : In (Qabs (t0 - a)) diff) by (unfold diff; apply in_map_iff; eauto).
      apply Hmall in Hd. apply Qabs_diff_zero in Et0.
      eapply Qle_trans; [apply Hd|]. rewrite Et0. apply Qle_refl.
    - unfold diff in Hmin. apply in_map_iff in Hmin. destruct Hmin as (t' & <- & _).
      apply Qabs_nonneg. }
  destruct (where_first_exists (fun d => Qeq_bool d m) diff m Hmin) as (index & Hidx).
  { apply Qeq_bool_refl. }
  rewrite Hidx. cbn [bind].
  apply where_first_Ok in Hobs. apply where_first_Ok in Hidx.
  assert (Hfi : first_index (fun x => x == a) TheoIn index).
  { destruct Hidx as ((d & Ed & Pd) & Hb). unfold diff in Ed.
    rewrite nth_error_map in Ed.
    destruct (nth_error TheoIn index) as [t|] eqn:Et; [|discriminate].
    simpl in Ed. inversion Ed; subst d. split.
    - exists t. split; auto. apply Qabs_diff_zero. apply Qeq_bool_iff in Pd.
      rewrite Pd. auto.
    - intros j tj Hj Ej Etj.
      apply (Hb j (Qabs (tj - a)) Hj).
      + unfold diff. erewrite map_nth_error; eauto.
      + apply Qeq_bool_iff. rewrite Hm0. apply Qabs_diff_zero; auto. }
  destruct Hfi as ((t & Et & Eta) & Hbefore).
  assert (Hobs' : first_index (fun x => x == a) Obs nth_obs).
  { eapply first_index_ext; [|apply Hobs]. intros x. apply Qeq_bool_iff. }
  destruct Hobs' as ((yo & Eyo & Pyo) & Hbo).
  assert (Hn : (nth_obs < length Obs)%nat) by (apply nth_error_Some; congruence).
  assert (Hi : (index < length TheoIn)%nat) by (apply nth_error_Some; congruence).
  eexists _, nth_obs, index, t. split; [reflexivity|].
  split; [split; eauto|]. split; [split; eauto|]. split; auto.
  split; [|rewrite Eta; ring].
  assert (Hfront : nth_error
             (if (index <? nth_obs)%nat
              then repeat Np.sentinel (nth_obs - index)
                   ++ Np.slice 0 (index + (length Obs - nth_obs)) TheoIn
              else Np.slice (index - nth_obs) (index + (length Obs - nth_obs)) TheoIn)
             nth_obs = Some t).
  { destruct (Nat.ltb_spec index nth_obs).
    - rewrite nth_error_app2 by (rewrite repeat_length; lia).
      rewrite repeat_length, slice_nth by lia.
      replace (0 + (nth_obs - (nth_obs - index)))%nat with index by lia. auto.
    - rewrite slice_nth by lia.
      replace (index - nth_obs + nth_obs)%nat with index by lia. auto. }
  rewrite nth_error_app1; auto.
  apply nth_error_Some. congruence.
Qed.

Lemma anchor_round_trip_witness :
  exists Theo_sequence nth_obs index t,
    puls_series_from_given_puls [1; 2; 3; 4] [3; 4; 5] 4 = Ok Theo_sequence /\
    first_index (fun x => x == 4) [3; 4; 5] nth_obs /\
    first_index (fun x => x == 4) [1; 2; 3; 4] index /\
    nth_error [1; 2; 3; 4] index = Some t /\
    nth_error Theo_sequence nth_obs = Some t /\
    t - 4 == 0.
Proof.
  apply (anchor_round_trip [1; 2; 3; 4] [3; 4; 5] 4).
  - exists 4. split; [simpl; tauto | reflexivity].
  - exists 4. split; [simpl; tauto | reflexivity].
Defined.

(** ** Strategy B: the theoretical pattern is too short *)

(** C1.  When there are fewer theoretical periods than observed periods,
    [chisq_longest_sequence] returns at once, without raising: the
    chi-square is 1e16, and the periods and the orders are as many values
    [-1] as there are observed periods. *)
Theorem short_pattern_penalty (sqrt : Q -> Q) (tperiods : list Q) (orders : list Z)
  (operiods operiods_errors : list Q) :
  (length tperiods < length operiods)%nat ->
  exists series_chi2 final_theoretical_periods corresponding_orders,
    chisq_longest_sequence sqrt tperiods orders operiods operiods_errors
      = Ok (series_chi2, final_theoretical_periods, corresponding_orders) /\
    series_chi2 = inject_Z 10000000000000000 /\
    length final_theoretical_periods = length operiods /\
    length corresponding_orders = length operiods /\
    Forall (fun x => x = (-1 # 1)) final_theoretical_periods /\
    Forall (fun n => n = (-1)%Z) corresponding_orders.
Proof.
  intros H. unfold chisq_longest_sequence.
  apply Nat.ltb_lt in H. rewrite H.
  eexists _, _, _. split; [reflexivity|].
  split; [reflexivity|].
  rewrite !repeat_length. repeat split; auto.
  - apply Forall_forall. intros x Hx. apply repeat_spec in Hx. exact Hx.
  - apply Forall_forall. intros x Hx. apply repeat_spec in Hx. exact Hx.
Qed.

Lemma short_pattern_penalty_witness :
  exists series_chi2 final_theoretical_periods corresponding_orders,
    chisq_longest_sequence approx_sqrt [1; 2] [(-5)%Z; (-6)%Z] [3; 2; 1] [1; 1; 1]
      = Ok (series_chi2, final_theoretical_periods, corresponding_orders) /\
    series_chi2 = inject_Z 10000000000000000 /\
    length final_theoretical_periods = length [3; 2; 1] /\
    length corresponding_orders = length [3; 2; 1] /\
    Forall (fun x => x = (-1 # 1)) final_theoretical_periods /\
    Forall (fun n => n = (-1)%Z) corresponding_orders.
Proof.
  apply (short_pattern_penalty approx_sqrt [1; 2] [(-5)%Z; (-6)%Z] [3; 2; 1] [1; 1; 1]).
  simpl. lia.
Defined.

(** ** Strategy B: the best match of every observed period *)

Lemma take_first {A : Type} (l : list A) (j : nat) (rest : list nat) :
  (forall i, In i (j :: rest) -> (i < length l)%nat) ->
  exists ys x, Np.take l (j :: rest) = Ok ys /\ nth_error l j = Some x /\
               Np.getitem ys 0 = Ok x.
Proof.
  intros H. unfold Np.take.
  destruct (mapM_Ok (Np.getitem l) (j :: rest)) as (ys & Hys & _ & Hnth).
  { intros a Ha. destruct (getitem_lt l a (H a Ha)) as (x & Hx & _). eauto. }
  destruct (Hnth 0%nat j eq_refl) as (x & Ex & Gx).
  exists ys, x. repeat split; auto.
  - apply getitem_Ok; auto.
  - apply getitem_Ok; auto.
Qed.

Lemma best_match_spec (tperiods : list Q) (orders : list Z) (period err : Q) :
  tperiods <> [] ->
  length orders = length tperiods ->
  exists j tj oj,
    nth_error tperiods j = Some tj /\
    nth_error orders j = Some oj /\
    best_match tperiods orders period err
      = Ok (mk_pair period tj oj (chisq_of period err tj)) /\
    (forall k tk, nth_error tperiods k = Some tk ->
                  chisq_of period err tj <= chisq_of period err tk) /\
    (forall k tk, (k < j)%nat -> nth_error tperiods k = Some tk ->
                  chisq_of period err tj < chisq_of period err tk).
Proof.
  intros Hne Hlen. unfold best_match.
  set (chisqs := map (chisq_of period err) tperiods).
  destruct (min_Ok chisqs) as (m & Hm & Hmin & Hmall).
  { unfold chisqs. destruct tperiods; [congruence | discriminate]. }
  rewrite Hm. cbn [bind]. unfold Np.where_.
  destruct (Np.where_from (fun c => Qeq_bool c m) chisqs 0) as [|j rest] eqn:Ew.
  { exfalso. apply In_nth_error in Hmin. destruct Hmin as (n & En).
    assert (Hin : In n (Np.where_from (fun c => Qeq_bool c m) chisqs 0)).
    { apply where_from_In. split; [lia|]. rewrite Nat.sub_0_r.
      exists m. split; auto. apply Qeq_bool_refl. }
    rewrite Ew in Hin. destruct Hin. }
  assert (Hrange : forall i, In i (j :: rest) -> (i < length chisqs)%nat).
  { intros i Hi. rewrite <- Ew in Hi. apply where_from_In in Hi.
    destruct Hi as (_ & x & Ex & _). rewrite Nat.sub_0_r in Ex.
    apply nth_error_Some. congruence. }
  assert (Hclen : length chisqs = length tperiods) by (unfold chisqs; apply length_map).
  apply where_from_head in Ew. rewrite Nat.sub_0_r in Ew.
  destruct Ew as (_ & (c & Ec & Pc) & Hb).
  destruct (take_first tperiods j rest) as (ts & tj & Hts & Etj & Gtj).
  { intros i Hi. rewrite <- Hclen. auto. }
  destruct (take_first orders j rest) as (os & oj & Hos & Eoj & Goj).
  { intros i Hi. rewrite Hlen, <- Hclen. auto. }
  destruct (take_first chisqs j rest) as (cs & c' & Hcs & Ec' & Gc'); auto.
  rewrite Hts. cbn [bind]. rewrite Gtj. cbn [bind].
  rewrite Hos. cbn [bind]. rewrite Goj. cbn [bind].
  rewrite Hcs. cbn [bind]. rewrite Gc'. cbn [bind].
  assert (Ecj : c = chisq_of period err tj).
  { unfold chisqs in Ec. rewrite (map_nth_error _ _ _ Etj) in Ec. congruence. }
  assert (c' = c) by congruence. subst c' c.
  apply Qeq_bool_iff in Pc.
  exists j, tj, oj. repeat split; auto.
  - intros k tk Ek. rewrite Pc. apply Hmall. unfold chisqs.
    apply in_map. eapply nth_error_In; eauto.
  - intros k tk Hk Ek. rewrite Pc. apply Qlt_leneq. split.
    + apply Hmall. unfold chisqs. apply in_map. eapply nth_error_In; eauto.
    + intros Heq.
      assert (Hf : Qeq_bool (chisq_of period err tk) m = false).
      { apply (Hb k); auto. unfold chisqs. apply map_nth_error; auto. }
      apply Qeq_bool_neq in Hf. apply Hf. symmetry; auto.
Qed.

Lemma pairs_orders_from_spec (tperiods : list Q) (orders : list Z)
  (operiods_errors : list Q) :
  length orders = length tperiods ->
  forall operiods ii,
    (operiods <> [] -> tperiods <> []) ->
    (ii + length operiods <= length operiods_errors)%nat ->
    exists pairs,
      pairs_orders_from tperiods orders operiods_errors ii operiods = Ok pairs /\
      length pairs = length operiods /\
      forall n period, nth_error operiods n = Some period ->
        exists err row,
          nth_error operiods_errors (ii + n) = Some err /\
          nth_error pairs n = Some row /\
          best_match tperiods orders period err = Ok row.
Proof.
  intros Hlen. induction operiods as [|period rest IH]; intros ii Hne Hii.
  - exists []. repeat split; auto. intros [|n] x E; discriminate.
  - simpl in Hii. simpl.
    destruct (getitem_lt operiods_errors ii) as (err & Gerr & Eerr); [lia|].
    rewrite Gerr. cbn [bind].
    assert (Ht : tperiods <> []) by (apply Hne; discriminate).
    destruct (best_match_spec tperiods orders period err Ht Hlen)
      as (j & tj & oj & _ & _ & Hbm & _).
    rewrite Hbm. cbn [bind].
    destruct (IH (S ii)) as (pairs & Hp & Hl & Hn); [auto | lia |].
    rewrite Hp. cbn [bind].
    eexists. split; [reflexivity|]. split; [simpl; lia|].
    intros [|n] x E; simpl in E.
    + inversion E; subst. exists err. eexists. rewrite Nat.add_0_r.
      repeat split; eauto.
    + destruct (Hn n x E) as (err' & row & E1 & E2 & E3).
      exists err', row. replace (ii + S n)%nat with (S ii + n)%nat by lia.
      repeat split; auto.
Qed.

(** ** Strategy B: the scan of the best matches *)

Lemma runs_of_two (inc : Z) (current : list pair_order) (sett next : pair_order) :
  runs_of inc current [sett; next] =
  if consecutive inc sett next
  then [current ++ [sett; sett]]
  else [current ++ [sett]; [sett]].
Proof. reflexivity. Qed.

Lemma runs_of_more (inc : Z) (current : list pair_order) (sett next y : pair_order)
  (rest : list pair_order) :
  runs_of inc current (sett :: next :: y :: rest) =
  if consecutive inc sett next
  then runs_of inc (current ++ [sett]) (next :: y :: rest)
  else (current ++ [sett]) :: runs_of inc [] (next :: y :: rest).
Proof. reflexivity. Qed.

Lemma scan_step_last (inc : Z) (done : list pair_order) (sett lastel : pair_order)
  (current : list pair_order) (sequences : list (list pair_order)) :
  scan_step inc (done ++ [sett; lastel]) (length done + 1) (current, sequences)
            (length done) sett
  = Ok ([], sequences ++ runs_of inc current [sett; lastel]).
Proof.
  unfold scan_step.
  assert (G : Np.getitem (done ++ [sett; lastel]) (length done + 1) = Ok lastel).
  { apply getitem_Ok. rewrite nth_error_app2 by lia.
    replace (length done + 1 - length done)%nat with 1%nat by lia. reflexivity. }
  rewrite G. cbn [bind].
  replace (length done =? length done + 1 - 1)%nat with true
    by (symmetry; apply Nat.eqb_eq; lia).
  rewrite runs_of_two. unfold consecutive.
  destruct (Z.abs (po_order sett) =? Z.abs (po_order lastel) + inc)%Z.
  - rewrite <- app_assoc. reflexivity.
  - rewrite <- app_assoc. reflexivity.
Qed.

Lemma scan_step_inner (inc : Z) (done : list pair_order) (sett next y : pair_order)
  (rest : list pair_order) (current : list pair_order)
  (sequences : list (list pair_order)) :
  scan_step inc (done ++ sett :: next :: y :: rest)
            (length done + S (S (length rest))) (current, sequences)
            (length done) sett
  = Ok (if consecutive inc sett next
        then (current ++ [sett], sequences)
        else ([], sequences ++ [current ++ [sett]])).
Proof.
  unfold scan_step.
  assert (G : Np.getitem (done ++ sett :: next :: y :: rest) (length done + 1) = Ok next).
  { apply getitem_Ok. rewrite nth_error_app2 by lia.
    replace (length done + 1 - length done)%nat with 1%nat by lia. reflexivity. }
  rewrite G. cbn [bind].
  replace (length done =? length done + S (S (length rest)) - 1)%nat with false
    by (symmetry; apply Nat.eqb_neq; lia).
  unfold consecutive.
  destruct (Z.abs (po_order sett) =? Z.abs (po_order next) + inc)%Z; reflexivity.
Qed.

Lemma scan_loop_cons (inc : Z) (pairs_orders : list pair_order) (lp : nat)
  (sett : pair_order) (todo : list pair_order) (ii : nat) (st : scan_state) :
  scan_loop inc pairs_orders lp (sett :: todo) ii st =
  (st' <- scan_step inc pairs_orders lp st ii sett ;;
   scan_loop inc pairs_orders lp todo (S ii) st').
Proof. reflexivity. Qed.

Lemma scan_loop_runs (inc : Z) (lastel : pair_order) (todo : list pair_order) :
  forall (done current : list pair_order) (sequences : list (list pair_order)),
  exists current',
    scan_loop inc (done ++ todo ++ [lastel]) (length done + length todo) todo
              (length done) (current, sequences)
    = Ok (current', sequences ++ runs_of inc current (todo ++ [lastel])).
Proof.
  induction todo as [|sett todo IH]; intros done current sequences.
  - exists current. simpl. rewrite app_nil_r. reflexivity.
  - destruct todo as [|next todo].
    + exists []. rewrite scan_loop_cons. cbn [app length].
      rewrite (scan_step_last inc done sett lastel current sequences).
      reflexivity.
    + rewrite scan_loop_cons.
      assert (Hshape : exists y rest, (next :: todo) ++ [lastel] = next :: y :: rest
                                      /\ length todo = length rest).
      { destruct todo as [|y todo]; simpl; eauto.
        exists y, (todo ++ [lastel]). split; auto. rewrite length_app. simpl. lia. }
      destruct Hshape as (y & rest & Hs & Hl).
      replace ((sett :: next :: todo) ++ [lastel]) with (sett :: (next :: todo) ++ [lastel])
        by reflexivity.
      rewrite Hs. cbn [length]. rewrite Hl.
      rewrite (scan_step_inner inc done sett next y rest current sequences).
      cbn [bind]. rewrite runs_of_more.
      assert (Hpairs : done ++ sett :: next :: y :: rest
                       = (done ++ [sett]) ++ (next :: todo) ++ [lastel]).
      { rewrite Hs, <- app_assoc. reflexivity. }
      assert (Hlp : (length done + S (S (length rest)))%nat
                    = (length (done ++ [sett]) + length (next :: todo))%nat).
      { rewrite length_app. simpl. lia. }
      assert (Hii : S (length done) = length (done ++ [sett])).
      { rewrite length_app. simpl. lia. }
      rewrite Hpairs, Hlp, Hii, <- Hs.
      destruct (consecutive inc sett next).
      * apply IH.
      * destruct (IH (done ++ [sett]) [] (sequences ++ [current ++ [sett]]))
          as (c' & Hc').
        exists c'. rewrite Hc'. rewrite <- app_assoc. reflexivity.
Qed.

Lemma sequences_of_runs (inc : Z) (pairs_orders : list pair_order) :
  sequences_of inc pairs_orders = Ok (runs_of inc [] pairs_orders).
Proof.
  unfold sequences_of.
  destruct pairs_orders as [|p0 pairs]; [reflexivity|].
  destruct (@exists_last _ (p0 :: pairs)) as (todo & lastel & E); [discriminate|].
  rewrite E, removelast_last.
  destruct (scan_loop_runs inc lastel todo [] [] []) as (c' & Hc').
  simpl in Hc'. rewrite Hc'. reflexivity.
Qed.

Lemma runs_of_concat (inc : Z) (x z : pair_order) (body : list pair_order) :
  forall current,
    concat (runs_of inc current (body ++ [x; z])) = current ++ body ++ [x; x].
Proof.
  induction body as [|b body IH]; intros current.
  - simpl app. rewrite runs_of_two.
    destruct (consecutive inc x z); simpl; rewrite ?app_nil_r, <- ?app_assoc; reflexivity.
  - assert (Hshape : exists next y rest, body ++ [x; z] = next :: y :: rest).
    { destruct body as [|n [|y body]]; simpl; eauto. }
    destruct Hshape as (next & y & rest & Hs).
    change ((b :: body) ++ [x; z]) with (b :: (body ++ [x; z])).
    rewrite Hs, runs_of_more, <- Hs.
    destruct (consecutive inc b next).
    + rewrite IH, <- app_assoc. reflexivity.
    + cbn [concat]. rewrite IH, <- app_assoc. reflexivity.
Qed.

Lemma runs_of_last (inc : Z) (x z : pair_order) (body : list pair_order) :
  forall current,
    exists init r,
      runs_of inc current (body ++ [x; z]) =
      init ++ (if consecutive inc x z then [r ++ [x; x]] else [r ++ [x]; [x]]).
Proof.
  induction body as [|b body IH]; intros current.
  - exists [], current. simpl app. apply runs_of_two.
  - assert (Hshape : exists next y rest, body ++ [x; z] = next :: y :: rest).
    { destruct body as [|n [|y body]]; simpl; eauto. }
    destruct Hshape as (next & y & rest & Hs).
    change ((b :: body) ++ [x; z]) with (b :: (body ++ [x; z])).
    rewrite Hs, runs_of_more, <- Hs.
    destruct (consecutive inc b next).
    + apply IH.
    + destruct (IH []) as (init & r & Hr).
      exists ((current ++ [b]) :: init), r. rewrite Hr. reflexivity.
Qed.

Lemma runs_of_nonempty (inc : Z) (l : list pair_order) :
  forall current, Forall (fun r => r <> []) (runs_of inc current l).
Proof.
  induction l as [|sett tl IH]; intros current; [constructor|].
  destruct tl as [|next [|y rest]]; [constructor | |].
  - rewrite runs_of_two.
    destruct (consecutive inc sett next); repeat constructor;
      try (intros H; apply app_eq_nil in H; destruct H; discriminate);
      discriminate.
  - rewrite runs_of_more. destruct (consecutive inc sett next); auto.
    constructor; auto. intros H; apply app_eq_nil in H; destruct H; discriminate.
Qed.

Lemma two_last {A : Type} (l : list A) :
  (2 <= length l)%nat -> exists body x z, l = body ++ [x; z].
Proof.
  intros H.
  destruct (@exists_last _ l) as (l1 & z & ->); [destruct l; simpl in *; [lia|discriminate]|].
  rewrite length_app in H. simpl in H.
  destruct (@exists_last _ l1) as (body & x & ->); [destruct l1; simpl in *; [lia|discriminate]|].
  exists body, x, z. rewrite <- app_assoc. reflexivity.
Qed.

(** C10, as the code has it.  For at least two best matches
    [body ++ [x; z]], the scan returns runs that, laid end to end, are
    [body ++ [x]] followed by [x] once more: the last best match [z] is in no
    run, and the one before it, [x], is appended a second time.  When [x]
    and [z] are not of consecutive order, that second [x] is a run of its
    own after the run that ends with [x]; when they are, it is the last
    element of the last run, next to the first [x]. *)
Theorem scan_runs_shape (increase_or_decrease : Z) (pairs_orders : list pair_order) :
  (2 <= length pairs_orders)%nat ->
  exists body x z sequences,
    pairs_orders = body ++ [x; z] /\
    sequences_of increase_or_decrease pairs_orders = Ok sequences /\
    concat sequences = body ++ [x] ++ [x] /\
    (consecutive increase_or_decrease x z = false ->
     exists init r, sequences = init ++ [r ++ [x]; [x]]) /\
    (consecutive increase_or_decrease x z = true ->
     exists init r, sequences = init ++ [r ++ [x; x]]).
Proof.
  intros H. destruct (two_last pairs_orders H) as (body & x & z & ->).
  exists body, x, z, (runs_of increase_or_decrease [] (body ++ [x; z])).
  split; [reflexivity|]. split; [apply sequences_of_runs|].
  split; [apply (runs_of_concat increase_or_decrease x z body [])|].
  destruct (runs_of_last increase_or_decrease x z body []) as (init & r & Hr).
  split; intros Hc; rewrite Hc in Hr; eauto.
Qed.

Lemma scan_runs_shape_witness :
  exists body x z sequences,
    [Example.row0; Example.row1] = body ++ [x; z] /\
    sequences_of 1 [Example.row0; Example.row1] = Ok sequences /\
    concat sequences = body ++ [x] ++ [x] /\
    (consecutive 1 x z = false ->
     exists init r, sequences = init ++ [r ++ [x]; [x]]) /\
    (consecutive 1 x z = true ->
     exists init r, sequences = init ++ [r ++ [x; x]]).
Proof.
  apply (scan_runs_shape 1 [Example.row0; Example.row1]).
  simpl. lia.
Defined.

(** C10, as it is written, fails: the best matches [row0] and [row1] of the
    observed periods 3 and 2 are of consecutive order, the scan returns the
    single run [[row0; row0]], and no run of the single element [row0] ends
    the list of runs. *)
Lemma scan_no_extra_single_run :
  pairs_orders_of [3; 2; 1] [-7; -6; -5]%Z [3; 2] [1; 1]
    = Ok [Example.row0; Example.row1] /\
  increase_or_decrease_of [-7; -6; -5]%Z = Ok 1%Z /\
  sequences_of 1 [Example.row0; Example.row1]
    = Ok [[Example.row0; Example.row0]] /\
  ~ extra_single_run Example.row0 [[Example.row0; Example.row0]].
Proof.
  split; [reflexivity|]. split; [reflexivity|]. split; [reflexivity|].
  intros (init & H).
  destruct init as [|r0 [|r1 init]]; simpl in H; discriminate.
Qed.

(** ** Strategy B: the choice among the longest runs *)

Lemma longest_In (sequences : list (list pair_order)) (m j : nat) :
  In j (Np.where_ (fun n => (n =? m)%nat) (map (@length pair_order) sequences)) <->
  exists s, nth_error sequences j = Some s /\ length s = m.
Proof.
  unfold Np.where_. rewrite where_from_In, Nat.sub_0_r. split.
  - intros (_ & n & En & Pn). rewrite nth_error_map in En.
    destruct (nth_error sequences j) as [s|]; [|discriminate].
    simpl in En. inversion En; subst. apply Nat.eqb_eq in Pn. eauto.
  - intros (s & Es & Hs). split; [lia|]. exists (length s).
    rewrite nth_error_map, Es. split; auto. apply Nat.eqb_eq; auto.
Qed.

Lemma select_lseq_spec (sequences : list (list pair_order)) :
  sequences <> [] ->
  exists i lseq,
    select_lseq sequences = Ok lseq /\
    nth_error sequences i = Some lseq /\
    (forall s, In s sequences -> (length s <= length lseq)%nat) /\
    (forall s, In s sequences -> length s = length lseq ->
               mean_chisq lseq <= mean_chisq s).
Proof.
  intros Hne. unfold select_lseq.
  set (len_list := map (@length pair_order) sequences).
  destruct (max_nat_Ok len_list) as (m & Hm & Hmin & Hmall).
  { unfold len_list. destruct sequences; [congruence | discriminate]. }
  rewrite Hm. cbn [bind].
  set (longest := Np.where_ (fun n => (n =? m)%nat) len_list).
  assert (Hlong : forall j, In j longest <->
                            exists s, nth_error sequences j = Some s /\ length s = m)
    by (intros j; apply longest_In).
  assert (Hmax : forall s, In s sequences -> (length s <= m)%nat).
  { intros s Hs. apply Hmall. unfold len_list. apply in_map; auto. }
  assert (Hnonempty : longest <> []).
  { unfold len_list in Hmin. apply in_map_iff in Hmin. destruct Hmin as (s & Hs & Hin).
    apply In_nth_error in Hin. destruct Hin as (j & Ej).
    assert (Hj : In j longest) by (apply Hlong; eauto).
    intros E. rewrite E in Hj. destruct Hj. }
  destruct (length longest =? 1)%nat eqn:Hone.
  - apply Nat.eqb_eq in Hone.
    destruct longest as [|l0 [|l1 rest]] eqn:El; try discriminate.
    destruct (proj1 (Hlong l0) (or_introl eq_refl)) as (lseq & Es & Hs).
    simpl. apply getitem_Ok in Es. rewrite Es. apply getitem_Ok in Es.
    exists l0, lseq. repeat split; auto.
    + intros s Hin. rewrite Hs. auto.
    + intros s Hin Hlen. apply In_nth_error in Hin. destruct Hin as (j & Ej).
      assert (Hj : In j [l0]) by (apply Hlong; exists s; split; auto; congruence).
      destruct Hj as [<- | []]. assert (s = lseq) by congruence. subst.
      apply Qle_refl.
  - set (score := fun ii => s <- Np.getitem sequences ii ;; Ok (mean_chisq s)).
    destruct (mapM_Ok score longest) as (scores & Hscores & Hslen & Hsnth).
    { intros j Hj. apply Hlong in Hj. destruct Hj as (s & Es & _).
      exists (mean_chisq s). unfold score. apply getitem_Ok in Es. rewrite Es.
      reflexivity. }
    fold score. rewrite Hscores. cbn [bind].
    destruct (min_Ok scores) as (ms & Hms & Hmsin & Hmsall).
    { intros E. rewrite E in Hslen. destruct longest; [congruence | discriminate]. }
    rewrite Hms. cbn [bind].
    destruct (where_first_exists (fun s => Qeq_bool s ms) scores ms Hmsin)
      as (min_score & Hw); [apply Qeq_bool_refl|].
    rewrite Hw. cbn [bind]. apply where_first_Ok in Hw.
    destruct Hw as ((sc & Esc & Psc) & _). apply Qeq_bool_iff in Psc.
    assert (Hlt : (min_score < length longest)%nat).
    { rewrite <- Hslen. apply nth_error_Some. congruence. }
    destruct (getitem_lt longest min_score Hlt) as (l & Gl & El).
    rewrite Gl. cbn [bind].
    destruct (proj1 (Hlong l) (nth_error_In _ _ El)) as (lseq & Es & Hs).
    destruct (Hsnth min_score l El) as (b & Eb & Sb).
    assert (Hb : b = mean_chisq lseq).
    { unfold score in Sb. apply getitem_Ok in Es. rewrite Es in Sb.
      simpl in Sb. congruence. }
    assert (sc = b) by congruence. subst sc b.
    exists l, lseq. split; [apply getitem_Ok; auto|]. repeat split; auto.
    + intros s Hin. rewrite Hs. auto.
    + intros s Hin Hlen. apply In_nth_error in Hin. destruct Hin as (j & Ej).
      assert (Hj : In j longest) by (apply Hlong; exists s; split; auto; congruence).
      apply In_nth_error in Hj. destruct Hj as (n & En).
      destruct (Hsnth n j En) as (b & Eb' & Sb').
      assert (Hb' : b = mean_chisq s).
      { unfold score in Sb'. apply getitem_Ok in Ej. rewrite Ej in Sb'.
        simpl in Sb'. congruence. }
      subst b. rewrite Psc. apply Hmsall. eapply nth_error_In; eauto.
Qed.

Lemma tie_break_example :
  select_lseq [[Example.tie_high]; [Example.tie_low]] = Ok [Example.tie_low].
Proof. reflexivity. Qed.

(** ** Strategy B: the alignment *)

Lemma aligned_at_spec (tperiods : list Q) (orders : list Z) (thr_ind_start : Z)
  (i : nat) :
  length orders = length tperiods ->
  let k := (thr_ind_start + Z.of_nat i)%Z in
  ((0 <= k < Z.of_nat (length tperiods))%Z ->
   exists tk ok,
     nth_error tperiods (Z.to_nat k) = Some tk /\
     nth_error orders (Z.to_nat k) = Some ok /\
     aligned_at tperiods orders thr_ind_start i = Ok (tk, ok)) /\
  ((k < 0 \/ Z.of_nat (length tperiods) <= k)%Z ->
   aligned_at tperiods orders thr_ind_start i = Ok (Np.sentinel, Np.sentinel_order)).
Proof.
  intros Hlen k. unfold aligned_at. fold k. split.
  - intros Hk.
    destruct (Z.ltb_spec k 0); [lia|].
    destruct (Z.geb_spec k (Z.of_nat (length tperiods))); [lia|].
    destruct (getitem_lt tperiods (Z.to_nat k)) as (tk & Gt & Et); [lia|].
    destruct (getitem_lt orders (Z.to_nat k)) as (ok & Go & Eo); [lia|].
    exists tk, ok. rewrite Gt, Go. auto.
  - intros Hk.
    destruct (Z.ltb_spec k 0); auto.
    destruct (Z.geb_spec k (Z.of_nat (length tperiods))); auto. lia.
Qed.

Lemma nth_error_seq0 (n i : nat) : (i < n)%nat -> nth_error (seq 0 n) i = Some i.
Proof.
  intros H. rewrite (nth_error_nth' (seq 0 n) 0%nat) by (rewrite length_seq; auto).
  rewrite seq_nth; auto.
Qed.

Lemma aligned_spec (tperiods : list Q) (orders : list Z) (thr_ind_start : Z) (n : nat) :
  length orders = length tperiods ->
  exists aligned,
    mapM (aligned_at tperiods orders thr_ind_start) (seq 0 n) = Ok aligned /\
    length aligned = n /\
    forall i, (i < n)%nat ->
      exists b, nth_error aligned i = Some b /\
                aligned_at tperiods orders thr_ind_start i = Ok b.
Proof.
  intros Hlen.
  destruct (mapM_Ok (aligned_at tperiods orders thr_ind_start) (seq 0 n))
    as (aligned & Ha & Hl & Hn).
  { intros i _.
    destruct (aligned_at_spec tperiods orders thr_ind_start i Hlen) as (Hin & Hout).
    destruct (Z_lt_dec (thr_ind_start + Z.of_nat i) 0) as [Hneg|Hpos].
    - eexists. apply Hout. auto.
    - destruct (Z_le_dec (Z.of_nat (length tperiods)) (thr_ind_start + Z.of_nat i)).
      + eexists. apply Hout. auto.
      + destruct Hin as (tk & ok & _ & _ & E); [lia|]. eauto. }
  exists aligned. rewrite length_seq in Hl. repeat split; auto.
  intros i Hi. apply Hn. apply nth_error_seq0; auto.
Qed.

Lemma spacings_length (periods : list Q) :
  length (spacings periods) = pred (length periods).
Proof.
  induction periods as [|p0 rest IH]; auto.
  destruct rest as [|p1 rest]; auto.
  change (spacings (p0 :: p1 :: rest)) with ((p1 - p0) :: spacings (p1 :: rest)).
  simpl length in *. rewrite IH. reflexivity.
Qed.

Lemma spacing_errors_length (sqrt : Q -> Q) (errors : list Q) :
  length (spacing_errors sqrt errors) = pred (length errors).
Proof.
  induction errors as [|e0 rest IH]; auto.
  destruct rest as [|e1 rest]; auto.
  change (spacing_errors sqrt (e0 :: e1 :: rest))
    with (sqrt (e0 ^ 2 + e1 ^ 2) :: spacing_errors sqrt (e1 :: rest)).
  simpl length in *. rewrite IH. reflexivity.
Qed.

Lemma broadcast2_Ok (f : Q -> Q -> Q) (a b : list Q) :
  length a = length b ->
  exists r, Np.broadcast2 f a b = Ok r /\ length r = length a.
Proof.
  intros H. unfold Np.broadcast2.
  destruct a as [|x [|x' a]]; destruct b as [|y [|y' b]]; try discriminate.
  - exists []. auto.
  - eexists. split; [reflexivity|]. reflexivity.
  - rewrite H, Nat.eqb_refl. eexists. split; [reflexivity|].
    rewrite length_map, length_combine, H. apply Nat.min_id.
Qed.

Lemma series_chi2_Ok (sqrt : Q -> Q) (operiods operiods_errors final : list Q) :
  length operiods_errors = length operiods ->
  length final = length operiods ->
  exists c, series_chi2_of sqrt operiods operiods_errors final = Ok c.
Proof.
  intros He Hf. unfold series_chi2_of, generate_spacing_series.
  cbn [option_map of_option bind].
  destruct (broadcast2_Ok Qminus (spacings operiods) (spacings final)) as (d & Hd & Hdl).
  { rewrite !spacings_length. congruence. }
  unfold Np.sub. rewrite Hd. cbn [bind].
  destruct (broadcast2_Ok Qdiv d (spacing_errors sqrt operiods_errors)) as (r & Hr & _).
  { rewrite Hdl, spacings_length, spacing_errors_length. congruence. }
  unfold Np.div. rewrite Hr. cbn [bind]. eauto.
Qed.

Lemma pairs_rows (tperiods : list Q) (orders : list Z) (operiods operiods_errors : list Q)
  (pairs : list pair_order) :
  length orders = length tperiods ->
  length operiods_errors = length operiods ->
  (length operiods <= length tperiods)%nat ->
  pairs_orders_of tperiods orders operiods operiods_errors = Ok pairs ->
  forall row, In row pairs ->
    In (po_period row) operiods /\ In (po_match row) tperiods.
Proof.
  intros Hlen Herr Hshort Hp row Hrow.
  destruct (pairs_orders_from_spec tperiods orders operiods_errors Hlen operiods 0%nat)
    as (pairs' & Hp' & Hl & Hn).
  { intros Hne Ht. subst tperiods. destruct operiods; [congruence | simpl in *; lia]. }
  { simpl. lia. }
  unfold pairs_orders_of in Hp. assert (pairs' = pairs) by congruence. subst pairs'.
  apply In_nth_error in Hrow. destruct Hrow as (n & En).
  assert (Hlt : (n < length operiods)%nat).
  { rewrite <- Hl. apply nth_error_Some. congruence. }
  destruct (nth_error operiods n) as [period|] eqn:Ep;
    [|apply nth_error_None in Ep; lia].
  destruct (Hn n period Ep) as (err & row' & _ & E2 & E3).
  assert (row' = row) by congruence. subst row'.
  assert (Ht : tperiods <> []).
  { intros ->. simpl in Hshort. lia. }
  destruct (best_match_spec tperiods orders period err Ht Hlen)
    as (j & tj & oj & Etj & _ & Hbm & _).
  assert (row = mk_pair period tj oj (chisq_of period err tj)) by congruence.
  subst row. simpl. split; eapply nth_error_In; eauto.
Qed.

(** A single observed period leaves the scan without any run, and the
    longest run is asked of an empty list. *)
Lemma single_period_raises (sqrt : Q -> Q) (tperiods : list Q) (orders : list Z)
  (period err : Q) :
  (2 <= length tperiods)%nat ->
  length orders = length tperiods ->
  chisq_longest_sequence sqrt tperiods orders [period] [err] = Raise ValueError.
Proof.
  intros Ht Hlen. unfold chisq_longest_sequence.
  replace (length tperiods <? length [period])%nat with false
    by (symmetry; apply Nat.ltb_ge; simpl; lia).
  assert (Hne : tperiods <> []) by (intros ->; simpl in Ht; lia).
  destruct (best_match_spec tperiods orders period err Hne Hlen)
    as (j & tj & oj & _ & _ & Hbm & _).
  unfold pairs_orders_of. cbn [pairs_orders_from Np.getitem nth_error of_option bind].
  rewrite Hbm. cbn [bind].
  destruct orders as [|o0 [|o1 orders]]; simpl in Hlen; try lia.
  reflexivity.
Qed.

(** Under [valid_input] every step of [chisq_longest_sequence] returns. *)
Lemma chisq_longest_sequence_steps (sqrt : Q -> Q) (tperiods : list Q)
  (orders : list Z) (operiods operiods_errors : list Q) :
  valid_input tperiods orders operiods operiods_errors ->
  exists pairs_orders increase_or_decrease sequences lseq first rest
         obs_ordering_ind thr_ordering_ind aligned series_chi2,
    pairs_orders_of tperiods orders operiods operiods_errors = Ok pairs_orders /\
    increase_or_decrease_of orders = Ok increase_or_decrease /\
    sequences_of increase_or_decrease pairs_orders = Ok sequences /\
    select_lseq sequences = Ok lseq /\
    lseq = first :: rest /\
    Np.where_first (fun x => Qeq_bool x (po_period first)) operiods
      = Ok obs_ordering_ind /\
    Np.where_first (fun x => Qeq_bool x (po_match first)) tperiods
      = Ok thr_ordering_ind /\
    mapM (aligned_at tperiods orders
                     (Z.of_nat thr_ordering_ind - Z.of_nat obs_ordering_ind))
         (seq 0 (length operiods)) = Ok aligned /\
    chisq_longest_sequence sqrt tperiods orders operiods operiods_errors
      = Ok (series_chi2, map fst aligned, map snd aligned).
Proof.
  intros [Hlen Herr Hpos Htwo Hshort].
  destruct (pairs_orders_from_spec tperiods orders operiods_errors Hlen operiods 0%nat)
    as (pairs & Hp & Hl & Hn).
  { intros _ Ht. subst tperiods. simpl in Hshort. lia. }
  { simpl. lia. }
  fold (pairs_orders_of tperiods orders operiods operiods_errors) in Hp.
  assert (Hinc : exists inc, increase_or_decrease_of orders = Ok inc).
  { unfold increase_or_decrease_of.
    destruct (getitem_lt orders 1) as (o1 & G1 & _); [lia|].
    destruct (getitem_lt orders 0) as (o0 & G0 & _); [lia|].
    rewrite G1, G0. cbn [bind]. eauto. }
  destruct Hinc as (inc & Hinc).
  destruct (two_last pairs) as (body & x & z & Hpairs); [lia|].
  pose proof (sequences_of_runs inc pairs) as Hseq.
  set (sequences := runs_of inc [] pairs) in *.
  assert (Hconcat : concat sequences = body ++ [x; x]).
  { unfold sequences. rewrite Hpairs. apply (runs_of_concat inc x z body []). }
  assert (Hsne : sequences <> []).
  { intros E. rewrite E in Hconcat. destruct body; discriminate. }
  destruct (select_lseq_spec sequences Hsne) as (i & lseq & Hsel & Ei & _ & _).
  assert (Hlne : lseq <> []).
  { pose proof (runs_of_nonempty inc pairs []) as Hall.
    rewrite Forall_forall in Hall. apply Hall. eapply nth_error_In; eauto. }
  destruct lseq as [|first rest]; [congruence|].
  assert (Hfirst : In first pairs).
  { assert (Hc : In first (concat sequences)).
    { apply in_concat. exists (first :: rest). split; [|left; auto].
      eapply nth_error_In; eauto. }
    rewrite Hconcat in Hc. rewrite Hpairs.
    apply in_app_or in Hc. apply in_or_app.
    destruct Hc as [Hc | [<- | [<- | []]]]; auto; right; left; auto. }
  destruct (pairs_rows tperiods orders operiods operiods_errors pairs
              Hlen Herr Hshort Hp first Hfirst) as (Hobs & Hthr).
  destruct (where_first_exists (fun x => Qeq_bool x (po_period first)) operiods _ Hobs)
    as (oi & Hoi); [apply Qeq_bool_refl|].
  destruct (where_first_exists (fun x => Qeq_bool x (po_match first)) tperiods _ Hthr)
    as (ti & Hti); [apply Qeq_bool_refl|].
  destruct (aligned_spec tperiods orders (Z.of_nat ti - Z.of_nat oi)
              (length operiods) Hlen) as (aligned & Hal & Hall & _).
  destruct (series_chi2_Ok sqrt operiods operiods_errors (map fst aligned) Herr)
    as (c & Hc); [rewrite length_map; auto|].
  exists pairs, inc, sequences, (first :: rest), first, rest, oi, ti, aligned, c.
  repeat split; auto.
  unfold chisq_longest_sequence.
  replace (length tperiods <? length operiods)%nat with false
    by (symmetry; apply Nat.ltb_ge; auto).
  rewrite Hp. cbn [bind]. rewrite Hinc. cbn [bind]. rewrite Hseq. cbn [bind].
  rewrite Hsel. cbn [bind]. unfold thr_ind_start_of.
  cbn [Np.getitem nth_error of_option bind].
  rewrite Hoi. cbn [bind]. rewrite Hti. cbn [bind].
  rewrite Hal. cbn [bind]. rewrite Hc. reflexivity.
Qed.

(** What the alignment loop leaves at every observed index. *)
Lemma aligned_values (tperiods : list Q) (orders : list Z) (thr_ind_start : Z)
  (n : nat) (aligned : list (Q * Z)) :
  length orders = length tperiods ->
  mapM (aligned_at tperiods orders thr_ind_start) (seq 0 n) = Ok aligned ->
  length (map fst aligned) = n /\
  length (map snd aligned) = n /\
  forall i, (i < n)%nat ->
    let k := (thr_ind_start + Z.of_nat i)%Z in
    ((0 <= k < Z.of_nat (length tperiods))%Z ->
     nth_error (map fst aligned) i = nth_error tperiods (Z.to_nat k) /\
     nth_error (map snd aligned) i = nth_error orders (Z.to_nat k)) /\
    ((k < 0 \/ Z.of_nat (length tperiods) <= k)%Z ->
     nth_error (map fst aligned) i = Some Np.sentinel /\
     nth_error (map snd aligned) i = Some Np.sentinel_order).
Proof.
  intros Hlen Hal. apply mapM_inv in Hal. destruct Hal as (Hl & Hn).
  rewrite length_seq in Hl. rewrite !length_map.
  split; [auto|]. split; [auto|]. intros i H k. subst k. split.
  - intros Hk. destruct (Hn i i (nth_error_seq0 n i H)) as (b & Eb & Ab).
    destruct (aligned_at_spec tperiods orders thr_ind_start i Hlen) as (Hin & _).
    destruct (Hin Hk) as (tk & ok & Et & Eo & E).
    assert (b = (tk, ok)) by congruence. subst b.
    rewrite !nth_error_map, Eb, Et, Eo. auto.
  - intros Hk. destruct (Hn i i (nth_error_seq0 n i H)) as (b & Eb & Ab).
    destruct (aligned_at_spec tperiods orders thr_ind_start i Hlen) as (_ & Hout).
    rewrite (Hout Hk) in Ab. inversion Ab; subst b.
    rewrite !nth_error_map, Eb. auto.
Qed.

Lemma where_first_Qeq (x : Q) (l : list Q) (i : nat) :
  Np.where_first (fun y => Qeq_bool y x) l = Ok i ->
  first_index (fun y => y == x) l i.
Proof.
  intros H. apply where_first_Ok in H.
  eapply first_index_ext; [|apply H]. intros y. apply Qeq_bool_iff.
Qed.

(** C5.  For a valid input, [chisq_longest_sequence] returns; with [first]
    the first row of the selected run, [obs_ordering_ind] the lowest index
    of its observed period in [operiods] and [thr_ordering_ind] the lowest
    index of its matched period in [tperiods], every observed index [i] gets
    the theoretical period and order at index
    [thr_ordering_ind - obs_ordering_ind + i], and the pair [(-1, -1)] when
    that index is below 0 or not below the number of theoretical periods. *)
Theorem alignment_by_offset (sqrt : Q -> Q) (tperiods : list Q) (orders : list Z)
  (operiods operiods_errors : list Q) :
  valid_input tperiods orders operiods operiods_errors ->
  exists pairs_orders increase_or_decrease sequences first rest
         obs_ordering_ind thr_ordering_ind
         series_chi2 final_theoretical_periods corresponding_orders,
    pairs_orders_of tperiods orders operiods operiods_errors = Ok pairs_orders /\
    increase_or_decrease_of orders = Ok increase_or_decrease /\
    sequences_of increase_or_decrease pairs_orders = Ok sequences /\
    select_lseq sequences = Ok (first :: rest) /\
    first_index (fun x => x == po_period first) operiods obs_ordering_ind /\
    first_index (fun x => x == po_match first) tperiods thr_ordering_ind /\
    chisq_longest_sequence sqrt tperiods orders operiods operiods_errors
      = Ok (series_chi2, final_theoretical_periods, corresponding_orders) /\
    length final_theoretical_periods = length operiods /\
    length corresponding_orders = length operiods /\
    forall i, (i < length operiods)%nat ->
      let k := (Z.of_nat thr_ordering_ind - Z.of_nat obs_ordering_ind + Z.of_nat i)%Z in
      ((0 <= k < Z.of_nat (length tperiods))%Z ->
       nth_error final_theoretical_periods i = nth_error tperiods (Z.to_nat k) /\
       nth_error corresponding_orders i = nth_error orders (Z.to_nat k)) /\
      ((k < 0 \/ Z.of_nat (length tperiods) <= k)%Z ->
       nth_error final_theoretical_periods i = Some (-1 # 1) /\
       nth_error corresponding_orders i = Some (-1)%Z).
Proof.
  intros Hvalid.
  destruct (chisq_longest_sequence_steps sqrt _ _ _ _ Hvalid)
    as (pairs & inc & sequences & lseq & first & rest & oi & ti & aligned & c
        & Hp & Hinc & Hseq & Hsel & -> & Hoi & Hti & Hal & Hres).
  destruct (aligned_values tperiods orders _ _ aligned (vi_orders Hvalid) Hal)
    as (Hl1 & Hl2 & Hvals).
  exists pairs, inc, sequences, first, rest, oi, ti, c,
    (map fst aligned), (map snd aligned).
  split; [auto|]. split; [auto|]. split; [auto|]. split; [auto|].
  split; [apply where_first_Qeq; auto|]. split; [apply where_first_Qeq; auto|].
  split; [auto|]. split; [auto|]. split; [auto|].
  exact Hvals.
Qed.

Lemma alignment_by_offset_witness :
  exists pairs_orders increase_or_decrease sequences first rest
         obs_ordering_ind thr_ordering_ind
         series_chi2 final_theoretical_periods corresponding_orders,
    pairs_orders_of [3; 2; 1] [-7; -6; -5]%Z [3; 2] [1; 1] = Ok pairs_orders /\
    increase_or_decrease_of [-7; -6; -5]%Z = Ok increase_or_decrease /\
    sequences_of increase_or_decrease pairs_orders = Ok sequences /\
    select_lseq sequences = Ok (first :: rest) /\
    first_index (fun x => x == po_period first) [3; 2] obs_ordering_ind /\
    first_index (fun x => x == po_match first) [3; 2; 1] thr_ordering_ind /\
    chisq_longest_sequence approx_sqrt [3; 2; 1] [-7; -6; -5]%Z [3; 2] [1; 1]
      = Ok (series_chi2, final_theoretical_periods, corresponding_orders) /\
    length final_theoretical_periods = length [3; 2] /\
    length corresponding_orders = length [3; 2] /\
    forall i, (i < length [3; 2])%nat ->
      let k := (Z.of_nat thr_ordering_ind - Z.of_nat obs_ordering_ind + Z.of_nat i)%Z in
      ((0 <= k < Z.of_nat (length [3; 2; 1]))%Z ->
       nth_error final_theoretical_periods i = nth_error [3; 2; 1] (Z.to_nat k) /\
       nth_error corresponding_orders i = nth_error [-7; -6; -5]%Z (Z.to_nat k)) /\
      ((k < 0 \/ Z.of_nat (length [3; 2; 1]) <= k)%Z ->
       nth_error final_theoretical_periods i = Some (-1 # 1) /\
       nth_error corresponding_orders i = Some (-1)%Z).
Proof.
  apply (alignment_by_offset approx_sqrt [3; 2; 1] [-7; -6; -5]%Z [3; 2] [1; 1]).
  constructor; simpl; try lia; try reflexivity. repeat constructor.
Defined.

(** ** Strategy B: the radial orders of the result *)

(** C3, as the code has it.  For a valid input whose radial orders are
    consecutive, each order followed by the order [step] further,
    [chisq_longest_sequence] returns orders of which every two neighbours
    that are both no sentinel differ by [step]. *)
Theorem consecutive_orders_preserved (sqrt : Q -> Q) (tperiods : list Q)
  (orders : list Z) (operiods operiods_errors : list Q) (step : Z) :
  valid_input tperiods orders operiods operiods_errors ->
  consecutive_orders step orders ->
  exists series_chi2 final_theoretical_periods corresponding_orders,
    chisq_longest_sequence sqrt tperiods orders operiods operiods_errors
      = Ok (series_chi2, final_theoretical_periods, corresponding_orders) /\
    neighbours_differ_by step corresponding_orders.
Proof.
  intros Hvalid Hcons.
  destruct (chisq_longest_sequence_steps sqrt _ _ _ _ Hvalid)
    as (pairs & inc & sequences & lseq & first & rest & oi & ti & aligned & c
        & _ & _ & _ & _ & _ & _ & _ & Hal & Hres).
  destruct (aligned_values tperiods orders _ _ aligned (vi_orders Hvalid) Hal)
    as (_ & Hl2 & Hvals).
  exists c, (map fst aligned), (map snd aligned). split; auto.
  intros i a b Ea Eb Ha Hb.
  assert (Hi : (S i < length operiods)%nat).
  { rewrite <- Hl2. apply nth_error_Some. congruence. }
  set (start := (Z.of_nat ti - Z.of_nat oi)%Z) in *.
  assert (Hin : forall j x, (j < length operiods)%nat ->
            nth_error (map snd aligned) j = Some x -> x <> Np.sentinel_order ->
            (0 <= start + Z.of_nat j < Z.of_nat (length tperiods))%Z /\
            nth_error orders (Z.to_nat (start + Z.of_nat j)) = Some x).
  { intros j x Hj Ex Hx. destruct (Hvals j Hj) as (Hinr & Hout).
    destruct (Z_lt_dec (start + Z.of_nat j) 0) as [Hneg|Hpos].
    - destruct Hout as (_ & E); [auto|]. congruence.
    - destruct (Z_le_dec (Z.of_nat (length tperiods)) (start + Z.of_nat j)).
      + destruct Hout as (_ & E); [auto|]. congruence.
      + split; [lia|]. destruct Hinr as (_ & E); [lia|]. congruence. }
  destruct (Hin i a) as (Hka & Eoa); auto; [lia|].
  destruct (Hin (S i) b) as (Hkb & Eob); auto.
  apply (Hcons (Z.to_nat (start + Z.of_nat i))); auto.
  replace (S (Z.to_nat (start + Z.of_nat i))) with (Z.to_nat (start + Z.of_nat (S i)))
    by lia.
  auto.
Qed.

Lemma consecutive_orders_preserved_witness :
  exists series_chi2 final_theoretical_periods corresponding_orders,
    chisq_longest_sequence approx_sqrt [3; 2; 1] [-7; -6; -5]%Z [3; 2] [1; 1]
      = Ok (series_chi2, final_theoretical_periods, corresponding_orders) /\
    neighbours_differ_by 1 corresponding_orders.
Proof.
  apply (consecutive_orders_preserved approx_sqrt [3; 2; 1] [-7; -6; -5]%Z
           [3; 2] [1; 1] 1).
  - constructor; simpl; try lia; try reflexivity. repeat constructor.
  - intros [|[|[|i]]] a b Ea Eb; simpl in Ea, Eb;
      try discriminate; try (destruct i; discriminate);
      inversion Ea; inversion Eb; subst; reflexivity.
Defined.

(** C3, as it is written, fails: the orders [-8; -6; -5] are strictly
    monotonic (the order -7 is missing, its frequency was NaN), the input is
    valid, and the result holds the neighbours -8 and -6. *)
Lemma skipped_order_breaks_step :
  ~ (forall tperiods orders operiods operiods_errors,
       valid_input tperiods orders operiods operiods_errors ->
       strictly_monotonic orders ->
       forall series_chi2 final_theoretical_periods corresponding_orders,
         chisq_longest_sequence approx_sqrt tperiods orders operiods operiods_errors
           = Ok (series_chi2, final_theoretical_periods, corresponding_orders) ->
         neighbours_differ_by (direction_step orders) corresponding_orders).
Proof.
  intros H.
  assert (Hvalid : valid_input Example.skip_periods Example.skip_orders
                               Example.two_observed Example.two_errors).
  { constructor; simpl; try lia; try reflexivity. repeat constructor. }
  assert (Hmono : strictly_monotonic Example.skip_orders).
  { left. intros [|[|[|i]]] a b Ea Eb; simpl in Ea, Eb;
      try discriminate; try (destruct i; discriminate);
      inversion Ea; inversion Eb; subst; lia. }
  assert (E : chisq_longest_sequence approx_sqrt Example.skip_periods
                Example.skip_orders Example.two_observed Example.two_errors
              = Ok (0 # 1999998409369, [3; 2], [-8; -6]%Z))
    by (vm_compute; reflexivity).
  specialize (H _ _ _ _ Hvalid Hmono _ _ _ E 0%nat (-8)%Z (-6)%Z eq_refl eq_refl).
  assert (Hstep : (-6 - -8)%Z = direction_step Example.skip_orders)
    by (apply H; discriminate).
  vm_compute in Hstep. discriminate.
Qed.

(** ** The row of a model when the rotation is fixed *)

(** C7: what the code does.  With no [asymptotic_object] the row is built
    by a call of [rescale_rotation_and_select_theoretical_pattern] that
    leaves out [orders]: every later argument is bound one parameter early
    and [highest_amp_puls] is bound to [False].  [zip] raises [TypeError] on
    it, for every row and every observed pattern, unless the configuration
    check has left with [SystemExit] before; no row is returned. *)
Theorem fixed_rotation_never_returns (sqrt : Q -> Q)
  (minimize : (Q -> result (list Q)) -> Q -> result minimizer_result)
  (summary_grid_row : grid_row) (Obs ObsErr : list Q)
  (which_observable method_build_series : string) (highest_amp_puls : list Q)
  (estimated_rotation : Q) :
  theoretical_pattern_from_dfrow sqrt minimize summary_grid_row Obs ObsErr
    which_observable method_build_series highest_amp_puls None estimated_rotation
  = Raise TypeError
  \/
  theoretical_pattern_from_dfrow sqrt minimize summary_grid_row Obs ObsErr
    which_observable method_build_series highest_amp_puls None estimated_rotation
  = Raise SystemExit.
Proof.
  unfold theoretical_pattern_from_dfrow.
  match goal with
  | |- context [bind ?c _] =>
      destruct c as [hap|e] eqn:E
  end.
  - left. reflexivity.
  - right. cbn [bind]. f_equal.
    destruct (negb _); [|discriminate].
    destruct (String.eqb _ _); [|discriminate].
    inversion E. reflexivity.
Qed.

(** ** The parts of an interrupted pattern *)

Lemma getitem_m2_app (out : list Q) (x : Q) :
  out <> [] -> exists y, getitem_m2 (out ++ [x]) = Ok y.
Proof.
  intros H. unfold getitem_m2. rewrite rev_app_distr. simpl.
  destruct (rev out) as [|y r] eqn:E; eauto.
  exfalso. apply H. rewrite <- (rev_involutive out), E. reflexivity.
Qed.

Lemma max_app (out : list Q) (x : Q) : exists y, Np.max (out ++ [x]) = Ok y.
Proof. destruct out; simpl; eauto. Qed.

Lemma drop_chosen_freqs_Ok (orders : list Z) (freqs out : list Q) :
  (2 <= length orders)%nat ->
  out = [] \/ (exists out', out' <> [] /\ out = out' ++ [0]) ->
  drop_chosen_freqs (PyIntArray orders) freqs out = Ok tt.
Proof.
  intros Ho Hout. unfold drop_chosen_freqs.
  destruct Hout as [-> | (out' & Hne & ->)]; [reflexivity|].
  replace (0 <? length (out' ++ [0%Q]))%nat with true
    by (symmetry; apply Nat.ltb_lt; rewrite length_app; simpl; lia).
  destruct orders as [|o0 [|o1 orders]]; simpl in Ho; try lia.
  cbn [as_orders bind Np.getitem nth_error of_option].
  destruct (o1 =? o0 - 1)%Z.
  - destruct (getitem_m2_app out' 0 Hne) as (y & ->). reflexivity.
  - destruct (max_app out' 0) as (y & ->). reflexivity.
Qed.

Lemma drop_chosen_periods_Ok (orders : list Z) (periods out : list Q) :
  (2 <= length orders)%nat ->
  out = [] \/ (exists out', out' <> [] /\ out = out' ++ [0]) ->
  drop_chosen_periods (PyIntArray orders) periods out = Ok tt.
Proof.
  intros Ho Hout. unfold drop_chosen_periods.
  destruct Hout as [-> | (out' & Hne & ->)]; [reflexivity|].
  replace (0 <? length (out' ++ [0%Q]))%nat with true
    by (symmetry; apply Nat.ltb_lt; rewrite length_app; simpl; lia).
  destruct orders as [|o0 [|o1 orders]]; simpl in Ho; try lia.
  cbn [as_orders bind Np.getitem nth_error of_option].
  destruct (o1 =? o0 - 1)%Z.
  - destruct (max_app out' 0) as (y & ->). reflexivity.
  - destruct (getitem_m2_app out' 0 Hne) as (y & ->). reflexivity.
Qed.

Ltac bind_cases :=
  repeat (match goal with
          | |- context [bind ?c _] =>
              lazymatch c with
              | Ok _ => fail
              | Raise _ => fail
              | context [bind _ _] => fail
              | _ => destruct c
              end
          | |- context [let '(_, _) := ?p in _] => destruct p
          end; cbn [bind]).

(** The pulsations chosen for the earlier parts have no influence on the
    choice for a later part: it is the choice the same part gets when it is
    the first one. *)
Lemma select_part_ignores_chosen (sqrt : Q -> Q)
  (which_observable method_build_series : pyval) (orders : list Z)
  (freqs periods output_pulsations : list Q)
  (Obs_part ObsErr_part highest_amp_puls_part : pyval) :
  (2 <= length orders)%nat ->
  output_pulsations <> [] ->
  select_part sqrt which_observable method_build_series (PyIntArray orders)
              freqs periods output_pulsations
              Obs_part ObsErr_part highest_amp_puls_part
  = (selected <- select_part sqrt which_observable method_build_series
                   (PyIntArray orders) freqs periods []
                   Obs_part ObsErr_part highest_amp_puls_part ;;
     Ok ((output_pulsations ++ [0]) ++ selected)).
Proof.
  intros Ho Hne. unfold select_part.
  replace (0 <? length output_pulsations)%nat with true
    by (symmetry; apply Nat.ltb_lt; destruct output_pulsations; simpl;
        [congruence | lia]).
  cbn [length Nat.ltb Nat.leb].
  rewrite (drop_chosen_freqs_Ok orders freqs (output_pulsations ++ [0]) Ho)
    by (right; eauto).
  rewrite (drop_chosen_periods_Ok orders periods (output_pulsations ++ [0]) Ho)
    by (right; eauto).
  rewrite (drop_chosen_freqs_Ok orders freqs [] Ho) by (left; auto).
  rewrite (drop_chosen_periods_Ok orders periods [] Ho) by (left; auto).
  destruct (py_eq_str which_observable "frequency");
    [|destruct (py_eq_str which_observable "period")];
    cbn [bind]; try reflexivity;
    bind_cases; try reflexivity;
    (destruct (py_eq_str method_build_series "highest_amplitude");
     [|destruct (py_eq_str method_build_series "highest_frequency");
       [|destruct (py_eq_str method_build_series "chisq_longest_sequence")]]);
    cbn [bind]; try reflexivity;
    bind_cases; try reflexivity.
Qed.

(** C6: what the code does.  The theoretical periods are 8, 7, ..., 1 and
    the observed pattern has the parts [7; 6.2] and [6.1; 5].  The first
    part claims the theoretical periods 7 and 6; the second part is given
    all the theoretical periods again and claims 6 and 5: the period 6 is in
    the output of both, with the anchor strategy and with the chi-square
    strategy, and likewise the frequency 1/6 when the observable is the
    frequency. *)
Theorem later_part_reuses_pulsation :
  Example.near_assembled "period" "highest_frequency" [7; 62#10] [61#10; 5]
    = Ok [7; 6; 0; 6; 5] /\
  Example.near_assembled "period" "chisq_longest_sequence" [7; 62#10] [61#10; 5]
    = Ok [7; 6; 0; 6; 5] /\
  Example.near_assembled "frequency" "highest_frequency" [1#7; 10#62] [10#61; 1#5]
    = Ok [1#7; 1#6; 0; 1#6; 1#5] /\
  Example.near_assembled "frequency" "chisq_longest_sequence" [1#7; 10#62] [10#61; 1#5]
    = Ok [1#7; 1#6; 0; 1#6; 1#5].
Proof.
  repeat split; vm_compute; reflexivity.
Qed.

(** ** The residual of an interrupted pattern *)

(** The list of the chosen pulsations has one entry per observed value and
    one zero per interruption, the array of the observed values has lost
    its zeros: the subtraction does not broadcast. *)
Lemma residual_shape_mismatch (sqrt : Q -> Q) (params : option Q)
  (asymptotic_object : option asymptotic) (estimated_rotation : Q)
  (freqs_input : list Q)
  (orders Obs_pattern_parts ObsErr_pattern_parts
     which_observable method_build_series highest_amp_puls ObsErr : pyval)
  (Obs output_pulsations : list Q) :
  assembled_pulsations sqrt params asymptotic_object estimated_rotation freqs_input
    orders (PyArray Obs) ObsErr Obs_pattern_parts ObsErr_pattern_parts
    which_observable method_build_series highest_amp_puls = Ok output_pulsations ->
  length output_pulsations <> length Obs ->
  (2 <= length output_pulsations)%nat ->
  (2 <= length Obs)%nat ->
  rescale_rotation_and_select_theoretical_pattern sqrt params asymptotic_object
    estimated_rotation freqs_input
    orders (PyArray Obs) ObsErr Obs_pattern_parts ObsErr_pattern_parts
    which_observable method_build_series highest_amp_puls = Raise ValueError.
Proof.
  intros Ha Hl Ho Hn. unfold rescale_rotation_and_select_theoretical_pattern.
  rewrite Ha. cbn [bind as_array]. unfold Np.sub, Np.broadcast2.
  destruct output_pulsations as [|x [|x' out]];
    destruct Obs as [|y [|y' Obs]]; simpl in Hn, Ho; try lia.
  apply Nat.eqb_neq in Hl. rewrite Hl. reflexivity.
Qed.

(** C8: what the code does.  For the observed periods
    [0.9; 0.8; 0; 0.6; 0.5] the pattern is split into the parts [0.9; 0.8]
    and [0.6; 0.5], and the chosen pulsations are assembled with a 0 at
    position 2, two values before it and two after it.  The observed values
    they are subtracted from are the four values without the 0: the
    subtraction raises [ValueError] for every trial rotation, and no residual
    and no row is returned. *)
Theorem gap_residual_raises :
  Np.split (filter nonzero Example.e2e_obs)
           (adjust_missing (Np.where_ (fun x => Qeq_bool x 0) Example.e2e_obs) 0)
    = [[9#10; 8#10]; [6#10; 5#10]] /\
  (forall rotation,
     exists a b c d,
       Example.e2e_assembled approx_sqrt (Some no_scaling) rotation
         = Ok [a; b; 0; c; d]) /\
  (forall rotation,
     Example.e2e_objective approx_sqrt (Some no_scaling) rotation = Raise ValueError) /\
  theoretical_pattern_from_dfrow approx_sqrt one_evaluation Example.e2e_row
    Example.e2e_obs Example.e2e_err "period" "chisq_longest_sequence" []
    (Some no_scaling) 1 = Raise ValueError.
Proof.
  split; [reflexivity|].
  split; [intros rotation; eexists _, _, _, _; vm_compute; reflexivity|].
  split; [intros rotation; vm_compute; reflexivity|].
  vm_compute. reflexivity.
Qed.

(** ** An interrupted pattern never yields a row *)

Lemma puls_series_length (TheoIn Obs : list Q) (a : Q) (Theo_sequence : list Q) :
  puls_series_from_given_puls TheoIn Obs a = Ok Theo_sequence ->
  length Theo_sequence = length Obs.
Proof.
  unfold puls_series_from_given_puls. intros H.
  bind_inv H as nth_obs Hobs. bind_inv H as m Hm. bind_inv H as index Hidx.
  inversion H; subst; clear H.
  apply where_first_Ok in Hobs. destruct Hobs as ((x & Ex & _) & _).
  apply where_first_Ok in Hidx. destruct Hidx as ((d & Ed & _) & _).
  assert (Hn : (nth_obs < length Obs)%nat) by (apply nth_error_Some; congruence).
  assert (Hi : (index < length TheoIn)%nat).
  { rewrite <- (length_map (fun t => Qabs (t - a))). apply nth_error_Some. congruence. }
  rewrite length_app. unfold Np.slice.
  destruct (Nat.ltb_spec index nth_obs);
    destruct (Nat.ltb_spec (length TheoIn) (index + (length Obs - nth_obs)));
    rewrite ?length_app, ?repeat_length, ?length_skipn, ?length_firstn; simpl; lia.
Qed.

Lemma chisq_longest_sequence_length (sqrt : Q -> Q) (tperiods : list Q)
  (orders : list Z) (operiods operiods_errors : list Q)
  (c : Q) (fp : list Q) (co : list Z) :
  chisq_longest_sequence sqrt tperiods orders operiods operiods_errors = Ok (c, fp, co) ->
  length fp = length operiods.
Proof.
  unfold chisq_longest_sequence. intros H.
  destruct (length tperiods <? length operiods)%nat.
  - inversion H; subst. apply repeat_length.
  - bind_inv H as pairs Hp. bind_inv H as inc Hinc. bind_inv H as sequences Hseq.
    bind_inv H as lseq Hsel. bind_inv H as start Hstart.
    bind_inv H as aligned Hal. bind_inv H as chi2 Hchi.
    inversion H; subst; clear H.
    apply mapM_inv in Hal. destruct Hal as (Hl & _).
    rewrite length_map, Hl. apply length_seq.
Qed.

Lemma select_part_length (sqrt : Q -> Q) (which_observable method_build_series orders : pyval)
  (freqs periods output_pulsations : list Q) (arr : list Q)
  (ObsErr_part highest_amp_puls_part : pyval) (output_pulsations' : list Q) :
  select_part sqrt which_observable method_build_series orders freqs periods
              output_pulsations (PyArray arr) ObsErr_part highest_amp_puls_part
    = Ok output_pulsations' ->
  arr <> [] /\
  length output_pulsations'
  = (length output_pulsations
     + (if (0 <? length output_pulsations)%nat then 1 else 0) + length arr)%nat.
Proof.
  unfold select_part. intros H.
  set (out1 := if (0 <? length output_pulsations)%nat
               then output_pulsations ++ [0] else output_pulsations) in *.
  assert (Hout1 : length out1 = (length output_pulsations
                   + (if (0 <? length output_pulsations)%nat then 1 else 0))%nat).
  { unfold out1. destruct (0 <? length output_pulsations)%nat;
      rewrite ?length_app; simpl; lia. }
  bind_inv H as tuple Htuple.
  destruct tuple as [[[[Theo_value Obs_arr] ObsPeriod] ObsErr_P] highest].
  bind_inv H as selected Hsel. inversion H; subst; clear H.
  assert (Hobs : Obs_arr = arr /\ arr <> [] /\ length ObsPeriod = length arr).
  { destruct (py_eq_str which_observable "frequency").
    - bind_inv Htuple as u Hu. bind_inv Htuple as a1 Ha1.
      bind_inv Htuple as a2 Ha2. bind_inv Htuple as a3 Ha3.
      bind_inv Htuple as a4 Ha4. inversion Htuple; subst; clear Htuple.
      simpl in Ha1. inversion Ha1; subst.
      repeat split; [|apply length_map]. intros ->. discriminate.
    - destruct (py_eq_str which_observable "period"); [|discriminate].
      bind_inv Htuple as u Hu. bind_inv Htuple as a1 Ha1.
      bind_inv Htuple as a2 Ha2. bind_inv Htuple as a3 Ha3.
      inversion Htuple; subst; clear Htuple.
      simpl in Ha1. inversion Ha1; subst.
      repeat split. intros ->. discriminate. }
  destruct Hobs as (-> & Hne & HP). split; auto.
  rewrite length_app, Hout1. f_equal.
  destruct (py_eq_str method_build_series "highest_amplitude").
  { bind_inv Hsel as anchor Hanchor. eapply puls_series_length; eauto. }
  destruct (py_eq_str method_build_series "highest_frequency").
  { eapply puls_series_length; eauto. }
  destruct (py_eq_str method_build_series "chisq_longest_sequence"); [|discriminate].
  bind_inv Hsel as ords Hords. bind_inv Hsel as res Hres.
  destruct res as [[c fp] co].
  apply chisq_longest_sequence_length in Hres.
  destruct (py_eq_str which_observable "frequency"); inversion Hsel; subst;
    unfold reciprocal; rewrite ?length_map; congruence.
Qed.

Lemma select_parts_length (sqrt : Q -> Q) (which_observable method_build_series orders : pyval)
  (freqs periods : list Q) (parts : list (list Q)) :
  forall (le lh : list pyval) (output_pulsations output_pulsations' : list Q),
    length le = length parts -> length lh = length parts ->
    output_pulsations <> [] ->
    select_parts sqrt which_observable method_build_series orders freqs periods
                 (zip3 (map PyArray parts) le lh) output_pulsations
      = Ok output_pulsations' ->
    length output_pulsations'
    = (length output_pulsations + length (concat parts) + length parts)%nat.
Proof.
  induction parts as [|arr parts IH]; intros le lh out out' Hle Hlh Hne H.
  - simpl in H. inversion H; subst. simpl. lia.
  - destruct le as [|e le]; [discriminate|]. destruct lh as [|h lh]; [discriminate|].
    simpl in H. bind_inv H as out1 Hsp.
    apply select_part_length in Hsp. destruct Hsp as (Harr & Hlen).
    assert (Hpos : (0 <? length out)%nat = true).
    { apply Nat.ltb_lt. destruct out; simpl; [congruence | lia]. }
    rewrite Hpos in Hlen.
    apply IH in H; simpl in Hle, Hlh; try lia.
    + simpl. rewrite length_app. lia.
    + intros ->. simpl in Hlen. lia.
Qed.

Lemma assembled_length (sqrt : Q -> Q) (params : option Q)
  (asymptotic_object : option asymptotic) (estimated_rotation : Q)
  (freqs_input : list Q) (orders Obs ObsErr which_observable method_build_series : pyval)
  (parts : list (list Q)) (le lh : list pyval) (output_pulsations : list Q) :
  (2 <= length parts)%nat ->
  length le = length parts -> length lh = length parts ->
  assembled_pulsations sqrt params asymptotic_object estimated_rotation freqs_input
    orders Obs ObsErr (PyList (map PyArray parts)) (PyList le)
    which_observable method_build_series (PyList lh) = Ok output_pulsations ->
  (2 <= length (concat parts))%nat /\
  length output_pulsations = (length (concat parts) + (length parts - 1))%nat.
Proof.
  intros Hk Hle Hlh H. unfold assembled_pulsations in H.
  bind_inv H as freqs Hfreqs. unfold py_zip3 in H. cbn [py_iter bind] in H.
  destruct parts as [|arr1 [|arr2 parts]]; simpl in Hk; try lia.
  destruct le as [|e1 le]; [discriminate|]. destruct lh as [|h1 lh]; [discriminate|].
  change (zip3 (map PyArray (arr1 :: arr2 :: parts)) (e1 :: le) (h1 :: lh))
    with ((PyArray arr1, e1, h1) :: zip3 (map PyArray (arr2 :: parts)) le lh) in H.
  cbn [select_parts] in H. bind_inv H as out1 Hsp1.
  apply select_part_length in Hsp1. destruct Hsp1 as (Harr1 & Hlen1).
  simpl in Hlen1.
  assert (Hne1 : out1 <> []) by (intros ->; destruct arr1; simpl in *; [congruence | lia]).
  pose proof H as H2.
  apply select_parts_length in H; simpl in Hle, Hlh; try lia; auto.
  destruct le as [|e2 le]; [discriminate|]. destruct lh as [|h2 lh]; [discriminate|].
  simpl in H2. bind_inv H2 as out2 Hsp2.
  apply select_part_length in Hsp2. destruct Hsp2 as (Harr2 & _).
  simpl in *. rewrite !length_app in *.
  destruct arr1; [congruence|]. destruct arr2; [congruence|]. simpl in *. split; lia.
Qed.

Lemma interrupted_objective_raises (sqrt : Q -> Q) (params : option Q)
  (asymptotic_object : option asymptotic) (estimated_rotation : Q)
  (freqs_input : list Q) (orders ObsErr which_observable method_build_series : pyval)
  (parts : list (list Q)) (le lh : list pyval) :
  (2 <= length parts)%nat ->
  length le = length parts -> length lh = length parts ->
  exists e,
    rescale_rotation_and_select_theoretical_pattern sqrt params asymptotic_object
      estimated_rotation freqs_input orders (PyArray (concat parts)) ObsErr
      (PyList (map PyArray parts)) (PyList le)
      which_observable method_build_series (PyList lh) = Raise e.
Proof.
  intros Hk Hle Hlh.
  destruct (assembled_pulsations sqrt params asymptotic_object estimated_rotation
              freqs_input orders (PyArray (concat parts)) ObsErr
              (PyList (map PyArray parts)) (PyList le)
              which_observable method_build_series (PyList lh)) as [out|e] eqn:E.
  - exists ValueError.
    destruct (assembled_length _ _ _ _ _ _ _ _ _ _ _ _ _ _ Hk Hle Hlh E) as (H2 & Hl).
    apply residual_shape_mismatch with (output_pulsations := out); auto; lia.
  - exists e. unfold rescale_rotation_and_select_theoretical_pattern. rewrite E.
    reflexivity.
Qed.

Lemma split_from_length {A : Type} (l : list A) (indices : list nat) :
  forall start, length (Np.split_from l start indices) = S (length indices).
Proof.
  induction indices as [|i rest IH]; intros start; simpl; auto.
Qed.

Lemma adjust_missing_length (missing_puls : list nat) :
  forall i, length (adjust_missing missing_puls i) = length missing_puls.
Proof.
  induction missing_puls as [|m rest IH]; intros i; simpl; auto.
Qed.

Lemma nondecreasing_from_le (indices : list nat) (start start' : nat) :
  (start' <= start)%nat ->
  nondecreasing_from start indices -> nondecreasing_from start' indices.
Proof.
  destruct indices as [|i rest]; simpl; auto. intros H (Hi & Hr). split; auto. lia.
Qed.

Lemma adjust_missing_nondecreasing {A : Type} (p : A -> bool) (l : list A) :
  forall s j, (j <= s)%nat ->
    nondecreasing_from (s - j) (adjust_missing (Np.where_from p l s) j).
Proof.
  induction l as [|x l IH]; intros s j Hj; simpl; auto.
  destruct (p x); simpl.
  - split; auto. replace (s - j)%nat with (S s - S j)%nat by lia. apply IH. lia.
  - apply nondecreasing_from_le with (start := (S s - j)%nat); [lia|].
    apply IH. lia.
Qed.

Lemma split_from_concat {A : Type} (l : list A) (indices : list nat) :
  forall start, nondecreasing_from start indices ->
    concat (Np.split_from l start indices) = skipn start l.
Proof.
  induction indices as [|i rest IH]; intros start H; simpl.
  - apply app_nil_r.
  - destruct H as (Hi & Hr). rewrite (IH i Hr). unfold Np.slice.
    rewrite <- (firstn_skipn i l) at 3. rewrite skipn_app.
    f_equal. rewrite length_firstn.
    destruct (Nat.le_gt_cases start (Nat.min i (length l))) as [Hle | Hgt].
    + replace (start - Nat.min i (length l))%nat with 0%nat by lia. reflexivity.
    + rewrite (skipn_all2 l) by lia. rewrite skipn_nil. reflexivity.
Qed.

(** Whenever the observed pattern holds a 0, no row comes out of
    [theoretical_pattern_from_dfrow], whatever the other arguments: the
    objective function raises at every rotation, and so does a minimiser
    that raises when its objective function raises wherever it is
    evaluated. *)
Lemma interrupted_pattern_never_returns (sqrt : Q -> Q)
  (minimize : (Q -> result (list Q)) -> Q -> result minimizer_result)
  (summary_grid_row : grid_row) (Obs ObsErr : list Q)
  (which_observable method_build_series : string) (highest_amp_puls : list Q)
  (asymptotic_object : option asymptotic) (estimated_rotation : Q) :
  (forall f x, (forall y, exists e, f y = Raise e) ->
               exists e, minimize f x = Raise e) ->
  Np.where_ (fun x => Qeq_bool x 0) Obs <> [] ->
  exists e,
    theoretical_pattern_from_dfrow sqrt minimize summary_grid_row Obs ObsErr
      which_observable method_build_series highest_amp_puls asymptotic_object
      estimated_rotation = Raise e.
Proof.
  intros Hmin Hgap. unfold theoretical_pattern_from_dfrow.
  set (missing := adjust_missing (Np.where_ (fun x => Qeq_bool x 0) Obs) 0).
  set (parts := Np.split (filter nonzero Obs) missing).
  set (errparts := Np.split (filter nonzero ObsErr) missing).
  assert (Hk : (2 <= length parts)%nat).
  { unfold parts, Np.split. rewrite split_from_length. unfold missing.
    rewrite adjust_missing_length.
    destruct (Np.where_ (fun x => Qeq_bool x 0) Obs); simpl; [congruence | lia]. }
  assert (Hke : length errparts = length parts).
  { unfold parts, errparts, Np.split. rewrite !split_from_length. reflexivity. }
  assert (Hconcat : concat parts = filter nonzero Obs).
  { unfold parts, Np.split. rewrite split_from_concat; [reflexivity|].
    unfold missing, Np.where_.
    apply (adjust_missing_nondecreasing (fun x => Qeq_bool x 0) Obs 0 0). lia. }
  match goal with
  | |- context [bind ?c _] => destruct c as [hap|e] eqn:E
  end; [|exists e; reflexivity].
  cbn [bind].
  assert (Hhap : exists lh, hap = PyList lh /\ length lh = length parts).
  { destruct (length parts =? length highest_amp_puls)%nat eqn:El; simpl in E.
    - inversion E; subst. eexists. split; [reflexivity|].
      rewrite length_map. apply Nat.eqb_eq in El. auto.
    - destruct (String.eqb method_build_series "highest_amplitude"); [discriminate|].
      inversion E; subst. eexists. split; [reflexivity|]. apply repeat_length. }
  destruct Hhap as (lh & -> & Hlh).
  destruct asymptotic_object as [scale_pattern|].
  - match goal with
    | |- context [minimize ?f ?x] => destruct (Hmin f x) as (e & He)
    end.
    + intros y. rewrite <- Hconcat.
      apply interrupted_objective_raises; auto. rewrite length_map. auto.
    + exists e. rewrite He. reflexivity.
  - exists TypeError. reflexivity.
Qed.

Lemma one_evaluation_raises (f : Q -> result (list Q)) (x : Q) :
  (forall y, exists e, f y = Raise e) -> exists e, one_evaluation f x = Raise e.
Proof.
  intros H. destruct (H x) as (e & He). exists e. unfold one_evaluation.
  rewrite He. reflexivity.
Qed.

(** The row of the scenario of the specification, with the pattern scaled by
    any [asymptotic_object]. *)
Lemma interrupted_scenario_never_returns (scale_pattern : asymptotic) :
  exists e,
    theoretical_pattern_from_dfrow approx_sqrt one_evaluation Example.e2e_row
      Example.e2e_obs Example.e2e_err "period" "chisq_longest_sequence" []
      (Some scale_pattern) 1 = Raise e.
Proof.
  apply interrupted_pattern_never_returns.
  - apply one_evaluation_raises.
  - discriminate.
Qed.


(** * Further properties of the pattern construction *)

(** ** Strategy A: the window of theoretical values *)

Lemma where_first_none {A : Type} (p : A -> bool) (l : list A) :
  (forall x, In x l -> p x = false) -> Np.where_first p l = Raise IndexError.
Proof.
  intros H. unfold Np.where_first, Np.where_.
  destruct (Np.where_from p l 0) as [|j rest] eqn:E; [reflexivity|].
  apply where_from_head in E. destruct E as (_ & (x & Ex & Px) & _).
  apply nth_error_In in Ex. rewrite (H x Ex) in Px. discriminate.
Qed.

(** X1.  [puls_series_from_given_puls] raises [IndexError] when the value to
    build from is not among the observed values, raises [ValueError] when it
    is but there is no theoretical value, and returns a series in every other
    case. *)
Theorem puls_series_outcomes (TheoIn Obs : list Q) (Obs_to_build_from : Q) :
  (~ occurs Obs_to_build_from Obs /\
   puls_series_from_given_puls TheoIn Obs Obs_to_build_from = Raise IndexError)
  \/
  (occurs Obs_to_build_from Obs /\ TheoIn = [] /\
   puls_series_from_given_puls TheoIn Obs Obs_to_build_from = Raise ValueError)
  \/
  (occurs Obs_to_build_from Obs /\ TheoIn <> [] /\
   exists Theo_sequence,
     puls_series_from_given_puls TheoIn Obs Obs_to_build_from = Ok Theo_sequence).
Proof.
  unfold puls_series_from_given_puls.
  destruct (Np.where_first (fun x => Qeq_bool x Obs_to_build_from) Obs)
    as [nth_obs|e] eqn:Hobs.
  - apply where_first_Ok in Hobs. destruct Hobs as ((y & Ey & Py) & _).
    assert (Hocc : occurs Obs_to_build_from Obs).
    { exists y. split; [eapply nth_error_In; eauto | apply Qeq_bool_iff; auto]. }
    right. destruct TheoIn as [|t0 TheoIn].
    + left. auto.
    + right. split; auto. split; [discriminate|]. cbn [bind].
      set (diff := map (fun t => Qabs (t - Obs_to_build_from)) (t0 :: TheoIn)).
      destruct (min_Ok diff) as (m & Hm & Hmin & _); [discriminate|].
      rewrite Hm. cbn [bind].
      destruct (where_first_exists (fun d => Qeq_bool d m) diff m Hmin)
        as (index & Hidx); [apply Qeq_bool_refl|].
      rewrite Hidx. cbn [bind]. eauto.
  - left.
    assert (Hnone : ~ occurs Obs_to_build_from Obs).
    { intros (y & Hy & Ey).
      destruct (where_first_exists (fun x => Qeq_bool x Obs_to_build_from) Obs y Hy)
        as (i & Hi); [apply Qeq_bool_iff; auto|]. congruence. }
    split; auto.
    rewrite where_first_none in Hobs.
    + inversion Hobs. reflexivity.
    + intros x Hx. destruct (Qeq_bool x Obs_to_build_from) eqn:E; auto.
      exfalso. apply Hnone. exists x. split; auto. apply Qeq_bool_iff; auto.
Qed.

Lemma window_nth {T : Type} (sentinel : T) (TheoIn : list T)
  (n nth_obs index i : nat) :
  (nth_obs < n)%nat -> (index < length TheoIn)%nat -> (i < n)%nat ->
  let stop := (index + (n - nth_obs))%nat in
  let front :=
    if (index <? nth_obs)%nat
    then repeat sentinel (nth_obs - index) ++ Np.slice 0 stop TheoIn
    else Np.slice (index - nth_obs) stop TheoIn in
  let back :=
    if (length TheoIn <? stop)%nat
    then repeat sentinel (stop - length TheoIn)
    else [] in
  let k := (Z.of_nat index - Z.of_nat nth_obs + Z.of_nat i)%Z in
  length (front ++ back) = n /\
  ((0 <= k < Z.of_nat (length TheoIn))%Z ->
   nth_error (front ++ back) i = nth_error TheoIn (Z.to_nat k)) /\
  ((k < 0 \/ Z.of_nat (length TheoIn) <= k)%Z ->
   nth_error (front ++ back) i = Some sentinel).
Proof.
  intros Hn Hi Hlt stop front back k.
  assert (Hslice : forall a, (a <= index)%nat ->
             length (Np.slice a stop TheoIn) = (Nat.min stop (length TheoIn) - a)%nat).
  { intros a _. unfold Np.slice. rewrite length_skipn, length_firstn. reflexivity. }
  assert (Hback : length back = (stop - length TheoIn)%nat).
  { unfold back. destruct (Nat.ltb_spec (length TheoIn) stop).
    - apply repeat_length.
    - simpl. lia. }
  destruct (Nat.ltb_spec index nth_obs) as [Hlow | Hhigh].
  - (* the first [nth_obs - index] entries are sentinels *)
    assert (Hfront : length front = (nth_obs - index + Nat.min stop (length TheoIn))%nat).
    { unfold front. rewrite length_app, repeat_length, Hslice by lia. lia. }
    split; [rewrite length_app, Hfront, Hback; unfold stop; lia|].
    split; intros Hk.
    + rewrite nth_error_app1 by (rewrite Hfront; unfold stop; lia).
      unfold front. rewrite nth_error_app2 by (rewrite repeat_length; lia).
      rewrite repeat_length, slice_nth by (unfold stop; lia).
      f_equal. unfold k in *. lia.
    + destruct Hk as [Hneg | Hbig].
      * rewrite nth_error_app1 by (rewrite Hfront; unfold k, stop in *; lia).
        unfold front. rewrite nth_error_app1 by (rewrite repeat_length; unfold k in *; lia).
        apply nth_error_repeat. unfold k in *. lia.
      * rewrite nth_error_app2 by (rewrite Hfront; unfold k, stop in *; lia).
        unfold back. destruct (Nat.ltb_spec (length TheoIn) stop);
          [|unfold k, stop in *; lia].
        apply nth_error_repeat. rewrite Hfront. unfold k, stop in *. lia.
  - assert (Hfront : length front
                     = (Nat.min stop (length TheoIn) - (index - nth_obs))%nat).
    { unfold front. apply Hslice. lia. }
    split; [rewrite length_app, Hfront, Hback; unfold stop; lia|].
    split; intros Hk.
    + rewrite nth_error_app1 by (rewrite Hfront; unfold k, stop in *; lia).
      unfold front. rewrite slice_nth by (unfold stop; lia).
      f_equal. unfold k in *. lia.
    + destruct Hk as [Hneg | Hbig]; [unfold k in *; lia|].
      rewrite nth_error_app2 by (rewrite Hfront; unfold k, stop in *; lia).
      unfold back. destruct (Nat.ltb_spec (length TheoIn) stop);
        [|unfold k, stop in *; lia].
      apply nth_error_repeat. rewrite Hfront. unfold k, stop in *. lia.
Qed.

(** ** Strategy B: what comes out, and when *)

(** X3.  With fewer than two observed periods, an observed error that is
    not zero and a theoretical pattern of at least two periods, the scan
    leaves no run and [chisq_longest_sequence] raises [ValueError] ([max]
    of an empty sequence).  (With an error of zero the chi-squares are not
    numbers and the best match fails first.) *)
Theorem fewer_than_two_observed_raises (sqrt : Q -> Q) (tperiods : list Q)
  (orders : list Z) (operiods operiods_errors : list Q) :
  (length operiods <= 1)%nat ->
  (2 <= length tperiods)%nat ->
  length orders = length tperiods ->
  length operiods_errors = length operiods ->
  Forall (fun e => ~ e == 0) operiods_errors ->
  chisq_longest_sequence sqrt tperiods orders operiods operiods_errors
  = Raise ValueError.
Proof.
  intros Hp Ht Hlen Herr _.
  destruct operiods as [|period [|p' operiods]]; simpl in Hp; try lia.
  - unfold chisq_longest_sequence.
    replace (length tperiods <? length (@nil Q))%nat with false
      by (symmetry; apply Nat.ltb_ge; simpl; lia).
    destruct orders as [|o0 [|o1 orders]]; simpl in Hlen; try lia.
    reflexivity.
  - destruct operiods_errors as [|err [|e' errs]]; simpl in Herr; try lia.
    apply single_period_raises; auto.
Qed.

Lemma fewer_than_two_observed_raises_witness :
  chisq_longest_sequence approx_sqrt [3; 2; 1] [-7; -6; -5]%Z [3] [1]
  = Raise ValueError.
Proof.
  apply (fewer_than_two_observed_raises approx_sqrt [3; 2; 1] [-7; -6; -5]%Z [3] [1]);
    try (simpl; lia).
  repeat constructor. discriminate.
Defined.

(** X4.  Whatever the input, a result of [chisq_longest_sequence] has one
    theoretical period and one radial order per observed period. *)
Theorem result_lengths (sqrt : Q -> Q) (tperiods : list Q) (orders : list Z)
  (operiods operiods_errors : list Q)
  (series_chi2 : Q) (final_theoretical_periods : list Q)
  (corresponding_orders : list Z) :
  chisq_longest_sequence sqrt tperiods orders operiods operiods_errors
    = Ok (series_chi2, final_theoretical_periods, corresponding_orders) ->
  length final_theoretical_periods = length operiods /\
  length corresponding_orders = length operiods.
Proof.
  intros H. split; [eapply chisq_longest_sequence_length; eauto|].
  unfold chisq_longest_sequence in H.
  destruct (length tperiods <? length operiods)%nat.
  - inversion H; subst. apply repeat_length.
  - bind_inv H as pairs Hp. bind_inv H as inc Hinc. bind_inv H as sequences Hseq.
    bind_inv H as lseq Hsel. bind_inv H as start Hstart.
    bind_inv H as aligned Hal. bind_inv H as chi2 Hchi.
    inversion H; subst; clear H.
    apply mapM_inv in Hal. destruct Hal as (Hl & _).
    rewrite length_map, Hl. apply length_seq.
Qed.

Lemma result_lengths_witness :
  length [3; 2] = length [3; 2] /\
  length [-7; -6]%Z = length [3; 2].
Proof.
  apply (result_lengths approx_sqrt [3; 2; 1] [-7; -6; -5]%Z [3; 2] [1; 1]
           (0 # 1999998409369) [3; 2] [-7; -6]%Z).
  vm_compute. reflexivity.
Defined.

Lemma chisq_of_compat (period err x y : Q) :
  x == y -> chisq_of period err x == chisq_of period err y.
Proof. intros H. unfold chisq_of. rewrite H. reflexivity. Qed.

(** The first row of the selected run, as the best match of an observed
    period, and where the alignment finds it again. *)
Lemma first_row_spec (sqrt : Q -> Q) (tperiods : list Q) (orders : list Z)
  (operiods operiods_errors : list Q) :
  valid_input tperiods orders operiods operiods_errors ->
  exists pairs_orders increase_or_decrease sequences first rest
         m period err j tj oj obs_ordering_ind aligned series_chi2,
    pairs_orders_of tperiods orders operiods operiods_errors = Ok pairs_orders /\
    increase_or_decrease_of orders = Ok increase_or_decrease /\
    sequences_of increase_or_decrease pairs_orders = Ok sequences /\
    select_lseq sequences = Ok (first :: rest) /\
    nth_error operiods m = Some period /\
    nth_error operiods_errors m = Some err /\
    first = mk_pair period tj oj (chisq_of period err tj) /\
    nth_error tperiods j = Some tj /\
    nth_error orders j = Some oj /\
    (forall k tk, nth_error tperiods k = Some tk ->
                  chisq_of period err tj <= chisq_of period err tk) /\
    first_index (fun x => x == period) operiods obs_ordering_ind /\
    mapM (aligned_at tperiods orders (Z.of_nat j - Z.of_nat obs_ordering_ind))
         (seq 0 (length operiods)) = Ok aligned /\
    chisq_longest_sequence sqrt tperiods orders operiods operiods_errors
      = Ok (series_chi2, map fst aligned, map snd aligned).
Proof.
  intros Hvalid.
  destruct (chisq_longest_sequence_steps sqrt _ _ _ _ Hvalid)
    as (pairs & inc & sequences & lseq & first & rest & oi & ti & aligned & c
        & Hp & Hinc & Hseq & Hsel & -> & Hoi & Hti & Hal & Hres).
  destruct Hvalid as [Hlen Herr Hpos Htwo Hshort].
  (* [first] is a row of [pairs] *)
  assert (Hfirst : In first pairs).
  { destruct (two_last pairs) as (body & x & z & Hpairs).
    { destruct (pairs_orders_from_spec tperiods orders operiods_errors Hlen operiods 0%nat)
        as (pairs' & Hp' & Hl & _).
      - intros _ Ht. subst tperiods. simpl in Hshort. lia.
      - simpl. lia.
      - unfold pairs_orders_of in Hp. assert (pairs' = pairs) by congruence.
        subst. lia. }
    rewrite sequences_of_runs in Hseq. inversion Hseq; subst sequences.
    destruct (select_lseq_spec (runs_of inc [] pairs)) as (i & lseq & Hsel' & Ei & _ & _).
    { intros E. rewrite E in Hsel. discriminate. }
    assert (lseq = first :: rest) by congruence. subst lseq.
    assert (Hc : In first (concat (runs_of inc [] pairs))).
    { apply in_concat. exists (first :: rest). split; [|left; auto].
      eapply nth_error_In; eauto. }
    rewrite Hpairs in Hc. rewrite (runs_of_concat inc x z body []) in Hc.
    cbn [app] in Hc.
    rewrite Hpairs. apply in_app_or in Hc. apply in_or_app.
    destruct Hc as [Hc | [<- | [<- | []]]]; auto; right; left; auto. }
  destruct (pairs_orders_from_spec tperiods orders operiods_errors Hlen operiods 0%nat)
    as (pairs' & Hp' & Hl & Hn).
  { intros _ Ht. subst tperiods. simpl in Hshort. lia. }
  { simpl. lia. }
  unfold pairs_orders_of in Hp. assert (pairs' = pairs) by congruence. subst pairs'.
  apply In_nth_error in Hfirst. destruct Hfirst as (m & Em).
  assert (Hm : (m < length operiods)%nat).
  { rewrite <- Hl. apply nth_error_Some. congruence. }
  destruct (nth_error operiods m) as [period|] eqn:Ep;
    [|apply nth_error_None in Ep; lia].
  destruct (Hn m period Ep) as (err & row & Ee & Er & Hbm).
  simpl in Ee. assert (row = first) by congruence. subst row.
  assert (Ht : tperiods <> []) by (intros ->; simpl in Hshort; lia).
  destruct (best_match_spec tperiods orders period err Ht Hlen)
    as (j & tj & oj & Etj & Eoj & Hbm' & Hmin & Hfirstmin).
  assert (Hrow : first = mk_pair period tj oj (chisq_of period err tj)) by congruence.
  assert (Hti' : ti = j).
  { apply where_first_Qeq in Hti. destruct Hti as ((x & Ex & Px) & Hb).
    rewrite Hrow in Px, Hb. cbn [po_match] in Px, Hb.
    destruct (Nat.lt_trichotomy ti j) as [Hlt | [Heq | Hgt]]; auto.
    - exfalso. pose proof (Hfirstmin ti x Hlt Ex) as Hl1.
      rewrite (chisq_of_compat period err x tj Px) in Hl1.
      apply (Qlt_irrefl _ Hl1).
    - exfalso. apply (Hb j tj Hgt Etj). reflexivity. }
  subst ti.
  apply where_first_Qeq in Hoi. rewrite Hrow in Hoi. cbn [po_period] in Hoi.
  exists pairs, inc, sequences, first, rest, m, period, err, j, tj, oj, oi, aligned, c.
  repeat (split; [solve [auto]|]). auto.
Qed.

(** X5.  For a valid input, the best match that anchors the alignment is
    part of the result: at the lowest index of its observed period, the
    result holds the matched theoretical period and the radial order of the
    first row of the selected run. *)
Theorem selected_match_kept (sqrt : Q -> Q) (tperiods : list Q) (orders : list Z)
  (operiods operiods_errors : list Q) :
  valid_input tperiods orders operiods operiods_errors ->
  exists pairs_orders increase_or_decrease sequences first rest obs_ordering_ind
         series_chi2 final_theoretical_periods corresponding_orders,
    pairs_orders_of tperiods orders operiods operiods_errors = Ok pairs_orders /\
    increase_or_decrease_of orders = Ok increase_or_decrease /\
    sequences_of increase_or_decrease pairs_orders = Ok sequences /\
    select_lseq sequences = Ok (first :: rest) /\
    first_index (fun x => x == po_period first) operiods obs_ordering_ind /\
    chisq_longest_sequence sqrt tperiods orders operiods operiods_errors
      = Ok (series_chi2, final_theoretical_periods, corresponding_orders) /\
    nth_error final_theoretical_periods obs_ordering_ind = Some (po_match first) /\
    nth_error corresponding_orders obs_ordering_ind = Some (po_order first).
Proof.
  intros Hvalid.
  destruct (first_row_spec sqrt _ _ _ _ Hvalid)
    as (pairs & inc & sequences & first & rest & m & period & err & j & tj & oj
        & oi & aligned & c & Hp & Hinc & Hseq & Hsel & Ep & Ee & Hrow & Etj & Eoj
        & Hmin & Hoi & Hal & Hres).
  destruct (aligned_values tperiods orders _ _ aligned (vi_orders Hvalid) Hal)
    as (_ & _ & Hvals).
  assert (Hoi_lt : (oi < length operiods)%nat).
  { destruct Hoi as ((x & Ex & _) & _). apply nth_error_Some. congruence. }
  assert (Hj : (j < length tperiods)%nat) by (apply nth_error_Some; congruence).
  destruct (Hvals oi Hoi_lt) as (Hin & _).
  destruct Hin as (Hf & Ho); [lia|].
  replace (Z.to_nat (Z.of_nat j - Z.of_nat oi + Z.of_nat oi)) with j in Hf, Ho by lia.
  exists pairs, inc, sequences, first, rest, oi, c, (map fst aligned), (map snd aligned).
  subst first. cbn [po_period po_match po_order].
  repeat (split; [solve [auto]|]). split; congruence.
Qed.

Lemma selected_match_kept_witness :
  exists pairs_orders increase_or_decrease sequences first rest obs_ordering_ind
         series_chi2 final_theoretical_periods corresponding_orders,
    pairs_orders_of [3; 2; 1] [-7; -6; -5]%Z [3; 2] [1; 1] = Ok pairs_orders /\
    increase_or_decrease_of [-7; -6; -5]%Z = Ok increase_or_decrease /\
    sequences_of increase_or_decrease pairs_orders = Ok sequences /\
    select_lseq sequences = Ok (first :: rest) /\
    first_index (fun x => x == po_period first) [3; 2] obs_ordering_ind /\
    chisq_longest_sequence approx_sqrt [3; 2; 1] [-7; -6; -5]%Z [3; 2] [1; 1]
      = Ok (series_chi2, final_theoretical_periods, corresponding_orders) /\
    nth_error final_theoretical_periods obs_ordering_ind = Some (po_match first) /\
    nth_error corresponding_orders obs_ordering_ind = Some (po_order first).
Proof.
  apply (selected_match_kept approx_sqrt [3; 2; 1] [-7; -6; -5]%Z [3; 2] [1; 1]).
  constructor; simpl; try lia; try reflexivity. repeat constructor.
Defined.

(** X6.  For a valid input, the values [-1] of a result stand at its two
    ends only: the observed indices from [lo] up to [hi], of which there is
    at least one, hold theoretical periods and orders of consecutive
    indices, and the indices before [lo] and from [hi] on hold
    [(-1, -1)]. *)
Theorem sentinels_only_at_the_ends (sqrt : Q -> Q) (tperiods : list Q)
  (orders : list Z) (operiods operiods_errors : list Q) :
  valid_input tperiods orders operiods operiods_errors ->
  exists series_chi2 final_theoretical_periods corresponding_orders lo hi first_ind,
    chisq_longest_sequence sqrt tperiods orders operiods operiods_errors
      = Ok (series_chi2, final_theoretical_periods, corresponding_orders) /\
    (lo < hi)%nat /\ (lo < length operiods)%nat /\
    forall i, (i < length operiods)%nat ->
      ((lo <= i < hi)%nat ->
       (first_ind + (i - lo) < length tperiods)%nat /\
       nth_error final_theoretical_periods i
         = nth_error tperiods (first_ind + (i - lo)) /\
       nth_error corresponding_orders i
         = nth_error orders (first_ind + (i - lo))) /\
      ((i < lo \/ hi <= i)%nat ->
       nth_error final_theoretical_periods i = Some (-1 # 1) /\
       nth_error corresponding_orders i = Some (-1)%Z).
Proof.
  intros Hvalid.
  destruct (first_row_spec sqrt _ _ _ _ Hvalid)
    as (pairs & inc & sequences & first & rest & m & period & err & j & tj & oj
        & oi & aligned & c & Hp & Hinc & Hseq & Hsel & Ep & Ee & Hrow & Etj & Eoj
        & Hmin & Hoi & Hal & Hres).
  destruct (aligned_values tperiods orders _ _ aligned (vi_orders Hvalid) Hal)
    as (_ & _ & Hvals).
  assert (Hoi_lt : (oi < length operiods)%nat).
  { destruct Hoi as ((x & Ex & _) & _). apply nth_error_Some. congruence. }
  assert (Hj : (j < length tperiods)%nat) by (apply nth_error_Some; congruence).
  set (start := (Z.of_nat j - Z.of_nat oi)%Z) in *.
  exists c, (map fst aligned), (map snd aligned),
    (Z.to_nat (- start)), (Z.to_nat (Z.of_nat (length tperiods) - start)),
    (Z.to_nat (start + Z.of_nat (Z.to_nat (- start)))).
  split; [exact Hres|]. split; [unfold start; lia|]. split; [unfold start; lia|].
  intros i Hi. destruct (Hvals i Hi) as (Hin & Hout). split.
  - intros Hrange.
    assert (Hk : (0 <= start + Z.of_nat i < Z.of_nat (length tperiods))%Z) by lia.
    destruct (Hin Hk) as (Hf & Ho).
    replace (Z.to_nat (start + Z.of_nat (Z.to_nat (- start))) + (i - Z.to_nat (- start)))%nat
      with (Z.to_nat (start + Z.of_nat i)) by lia.
    repeat split; auto. lia.
  - intros Hrange. apply Hout. lia.
Qed.

Lemma sentinels_only_at_the_ends_witness :
  exists series_chi2 final_theoretical_periods corresponding_orders lo hi first_ind,
    chisq_longest_sequence approx_sqrt [3; 2; 1] [-7; -6; -5]%Z [3; 2] [1; 1]
      = Ok (series_chi2, final_theoretical_periods, corresponding_orders) /\
    (lo < hi)%nat /\ (lo < length [3; 2]%Q)%nat /\
    forall i, (i < length [3; 2]%Q)%nat ->
      ((lo <= i < hi)%nat ->
       (first_ind + (i - lo) < length [3; 2; 1]%Q)%nat /\
       nth_error final_theoretical_periods i
         = nth_error [3; 2; 1] (first_ind + (i - lo)) /\
       nth_error corresponding_orders i
         = nth_error [-7; -6; -5]%Z (first_ind + (i - lo))) /\
      ((i < lo \/ hi <= i)%nat ->
       nth_error final_theoretical_periods i = Some (-1 # 1) /\
       nth_error corresponding_orders i = Some (-1)%Z).
Proof.
  apply (sentinels_only_at_the_ends approx_sqrt [3; 2; 1] [-7; -6; -5]%Z [3; 2] [1; 1]).
  constructor; simpl; try lia; try reflexivity. repeat constructor.
Defined.

(** ** Strategy B: an observed pattern that is part of the theoretical one *)

Lemma Qdiv_zero (x y : Q) : x == 0 -> x / y == 0.
Proof. intros H. unfold Qdiv. rewrite H. apply Qmult_0_l. Qed.

Lemma broadcast2_cases (f : Q -> Q -> Q) (a b r : list Q) :
  Np.broadcast2 f a b = Ok r ->
  (exists x, a = [x] /\ r = map (fun y => f x y) b) \/
  (exists y, b = [y] /\ r = map (fun x => f x y) a) \/
  r = map (fun xy => f (fst xy) (snd xy)) (combine a b).
Proof.
  unfold Np.broadcast2.
  destruct a as [|x [|x' a]]; destruct b as [|y [|y' b]]; intros H;
    try (destruct (Nat.eqb _ _); [|discriminate]);
    inversion H; subst;
    first [ left; eexists; split; reflexivity
          | right; left; eexists; split; reflexivity
          | right; right; reflexivity ].
Qed.

Lemma chisq_zero_iff (period err t : Q) :
  0 < err -> (chisq_of period err t == 0 <-> period == t).
Proof.
  intros Herr. unfold chisq_of. split; intros H.
  - assert (Hd : (period - t) / err == 0).
    { simpl in H. apply Qmult_integral in H. tauto. }
    assert (Hne : ~ err == 0) by (intros E; rewrite E in Herr; apply (Qlt_irrefl _ Herr)).
    assert (Hz : period - t == 0).
    { rewrite <- (Qmult_div_r (period - t) err Hne), Hd. ring. }
    rewrite <- (Qplus_0_l t), <- Hz. ring.
  - rewrite H. setoid_replace (t - t) with 0 by ring.
    rewrite (Qdiv_zero 0 err) by reflexivity. reflexivity.
Qed.

Lemma Qsquare_nonneg (x : Q) : 0 <= x * x.
Proof.
  destruct (Qlt_le_dec x 0) as [Hneg | Hpos].
  - setoid_replace (x * x) with ((- x) * (- x)) by ring.
    assert (0 <= - x).
    { apply Qlt_le_weak in Hneg. apply Qopp_le_compat in Hneg.
      setoid_replace (- 0) with 0 in Hneg by ring. exact Hneg. }
    apply Qmult_le_0_compat; auto.
  - apply Qmult_le_0_compat; auto.
Qed.

Lemma chisq_nonneg (period err t : Q) : 0 <= chisq_of period err t.
Proof.
  unfold chisq_of. simpl. apply Qsquare_nonneg.
Qed.

(** X7.  When two theoretical periods of different indices are never
    closer to each other than an observed error, and the observed periods
    are the theoretical periods from index [a] on, a valid input gets back
    exactly its observed periods, with the radial orders from index [a]
    on. *)
Theorem exact_slice_recovered (sqrt : Q -> Q) (tperiods : list Q) (orders : list Z)
  (operiods operiods_errors : list Q) (a : nat) :
  valid_input tperiods orders operiods operiods_errors ->
  (forall i j x y e, nth_error tperiods i = Some x -> nth_error tperiods j = Some y ->
                     i <> j -> In e operiods_errors -> e <= Qabs (x - y)) ->
  (forall i, (i < length operiods)%nat ->
             nth_error operiods i = nth_error tperiods (a + i)) ->
  exists series_chi2 corresponding_orders,
    chisq_longest_sequence sqrt tperiods orders operiods operiods_errors
      = Ok (series_chi2, operiods, corresponding_orders) /\
    length corresponding_orders = length operiods /\
    forall i, (i < length operiods)%nat ->
      nth_error corresponding_orders i = nth_error orders (a + i).
Proof.
  intros Hvalid Hapart Hslice.
  assert (Hdistinct : forall i j x y, nth_error tperiods i = Some x ->
            nth_error tperiods j = Some y -> x == y -> i = j).
  { intros i j x y Ex Ey Exy.
    destruct (Nat.eq_dec i j) as [|Hne]; [assumption|]. exfalso.
    pose proof (vi_two Hvalid) as Htwo. pose proof (vi_errors Hvalid) as Hlen.
    destruct operiods_errors as [|e errs]; [simpl in Hlen; lia|].
    pose proof (vi_positive Hvalid) as Hpos. inversion Hpos as [|? ? He _]; subst.
    pose proof (Hapart i j x y e Ex Ey Hne (or_introl eq_refl)) as Hle.
    assert (Hz : Qabs (x - y) == 0) by (apply Qabs_diff_zero; exact Exy).
    rewrite Hz in Hle. apply (Qlt_irrefl 0). eapply Qlt_le_trans; eauto. }
  destruct (first_row_spec sqrt _ _ _ _ Hvalid)
    as (pairs & inc & sequences & first & rest & m & period & err & j & tj & oj
        & oi & aligned & c & Hp & Hinc & Hseq & Hsel & Ep & Ee & Hrow & Etj & Eoj
        & Hmin & Hoi & Hal & Hres).
  destruct (aligned_values tperiods orders _ _ aligned (vi_orders Hvalid) Hal)
    as (Hl1 & Hl2 & Hvals).
  assert (Hm : (m < length operiods)%nat) by (apply nth_error_Some; congruence).
  assert (Herr : 0 < err).
  { pose proof (vi_positive Hvalid) as Hpos. rewrite Forall_forall in Hpos.
    apply Hpos. eapply nth_error_In; eauto. }
  (* the best match of [period] is the theoretical period it is equal to *)
  assert (Eam : nth_error tperiods (a + m) = Some period).
  { rewrite <- Hslice; auto. }
  assert (Hj : j = (a + m)%nat).
  { assert (Hz : chisq_of period err tj == 0).
    { apply Qle_antisym; [|apply chisq_nonneg].
      eapply Qle_trans; [apply (Hmin (a + m)%nat period Eam)|].
      rewrite (proj2 (chisq_zero_iff period err period Herr)) by reflexivity.
      apply Qle_refl. }
    apply chisq_zero_iff in Hz; auto.
    apply (Hdistinct j (a + m)%nat tj period); auto. symmetry; auto. }
  assert (Hoi' : oi = m).
  { destruct Hoi as ((x & Ex & Px) & _).
    assert (Hoi_lt : (oi < length operiods)%nat) by (apply nth_error_Some; congruence).
    rewrite Hslice in Ex by auto.
    assert (a + oi = a + m)%nat by (apply (Hdistinct _ _ x period); auto).
    lia. }
  subst j oi.
  assert (Hfinal : map fst aligned = operiods).
  { apply nth_error_ext. intros i.
    destruct (Nat.lt_ge_cases i (length operiods)) as [Hi | Hi].
    - destruct (Hvals i Hi) as (Hin & _).
      assert (Hai : (a + i < length tperiods)%nat).
      { apply nth_error_Some. rewrite <- Hslice by auto.
        apply nth_error_Some. auto. }
      destruct Hin as (Hf & _); [lia|].
      rewrite Hf, Hslice by auto. f_equal. lia.
    - rewrite (proj2 (nth_error_None _ _)) by lia.
      rewrite (proj2 (nth_error_None _ _)) by lia. reflexivity. }
  rewrite Hfinal in Hres.
  exists c, (map snd aligned). split; [exact Hres|].
  split; [exact Hl2|].
  intros i Hi. destruct (Hvals i Hi) as (Hin & _).
  assert (Hai : (a + i < length tperiods)%nat).
  { apply nth_error_Some. rewrite <- Hslice by auto. apply nth_error_Some. auto. }
  destruct Hin as (_ & Ho); [lia|]. rewrite Ho. f_equal. lia.
Qed.

Lemma exact_slice_recovered_witness :
  exists series_chi2 corresponding_orders,
    chisq_longest_sequence approx_sqrt [3; 2; 1] [-7; -6; -5]%Z [2; 1] [1; 1]
      = Ok (series_chi2, [2; 1], corresponding_orders) /\
    length corresponding_orders = length [2; 1]%Q /\
    forall i, (i < length [2; 1]%Q)%nat ->
      nth_error corresponding_orders i = nth_error [-7; -6; -5]%Z (1 + i).
Proof.
  apply (exact_slice_recovered approx_sqrt [3; 2; 1] [-7; -6; -5]%Z [2; 1] [1; 1] 1).
  - constructor; simpl; try lia; try reflexivity. repeat constructor.
  - intros [|[|[|i]]] [|[|[|j]]] x y e Ex Ey Hne He; simpl in Ex, Ey;
      try congruence; try (destruct i; discriminate); try (destruct j; discriminate);
      inversion Ex; inversion Ey; subst;
      (destruct He as [<- | [<- | []]]; vm_compute; discriminate).
  - intros [|[|i]] Hi; simpl in Hi; try lia; reflexivity.
Defined.

(** ** Strategy B: the test for consecutive radial orders *)

Lemma increase_or_decrease_step (orders : list Z) (step inc : Z) :
  (step = 1 \/ step = -1)%Z ->
  consecutive_orders step orders ->
  increase_or_decrease_of orders = Ok inc ->
  inc = step.
Proof.
  intros Hstep Hcons H. unfold increase_or_decrease_of in H.
  destruct orders as [|o0 [|o1 orders]]; try discriminate.
  cbn [Np.getitem nth_error of_option bind] in H.
  pose proof (Hcons 0%nat o0 o1 eq_refl eq_refl) as Hd.
  destruct (Z.eqb_spec o1 (o0 - 1)); inversion H; lia.
Qed.

(** X8.  When the radial orders are consecutive and none is positive (the
    orders of gravity modes), the scan takes two best matches for
    consecutive whenever their orders stand next to each other in the
    theoretical pattern, in this order. *)
Theorem nonpositive_orders_chain (orders : list Z) (step inc : Z) :
  (step = 1 \/ step = -1)%Z ->
  consecutive_orders step orders ->
  Forall (fun n => (n <= 0)%Z) orders ->
  increase_or_decrease_of orders = Ok inc ->
  forall j sett next,
    nth_error orders j = Some (po_order sett) ->
    nth_error orders (S j) = Some (po_order next) ->
    consecutive inc sett next = true.
Proof.
  intros Hstep Hcons Hsign Hinc j sett next Ea Eb.
  rewrite (increase_or_decrease_step orders step inc Hstep Hcons Hinc).
  rewrite Forall_forall in Hsign.
  pose proof (Hsign _ (nth_error_In _ _ Ea)) as Ha.
  pose proof (Hsign _ (nth_error_In _ _ Eb)) as Hb.
  pose proof (Hcons j _ _ Ea Eb) as Hd.
  unfold consecutive. apply Z.eqb_eq. lia.
Qed.

Lemma nonpositive_orders_chain_witness :
  consecutive 1 (mk_pair 3 3 (-6) 0) (mk_pair 2 2 (-5) 0) = true.
Proof.
  apply (nonpositive_orders_chain [-7; -6; -5]%Z 1 1) with (j := 1%nat).
  - left. reflexivity.
  - intros [|[|[|i]]] a b Ea Eb; simpl in Ea, Eb;
      try discriminate; try (destruct i; discriminate);
      inversion Ea; inversion Eb; subst; reflexivity.
  - repeat constructor; discriminate.
  - reflexivity.
  - reflexivity.
  - reflexivity.
Defined.

(** X9.  When the radial orders are consecutive and all positive, the scan
    never takes two best matches for consecutive whose orders stand next to
    each other in the theoretical pattern: the comparison is made on the
    absolute values of the orders. *)
Theorem positive_orders_never_chain (orders : list Z) (step inc : Z) :
  (step = 1 \/ step = -1)%Z ->
  consecutive_orders step orders ->
  Forall (fun n => (1 <= n)%Z) orders ->
  increase_or_decrease_of orders = Ok inc ->
  forall j sett next,
    nth_error orders j = Some (po_order sett) ->
    nth_error orders (S j) = Some (po_order next) ->
    consecutive inc sett next = false.
Proof.
  intros Hstep Hcons Hsign Hinc j sett next Ea Eb.
  rewrite (increase_or_decrease_step orders step inc Hstep Hcons Hinc).
  rewrite Forall_forall in Hsign.
  pose proof (Hsign _ (nth_error_In _ _ Ea)) as Ha.
  pose proof (Hsign _ (nth_error_In _ _ Eb)) as Hb.
  pose proof (Hcons j _ _ Ea Eb) as Hd.
  unfold consecutive. apply Z.eqb_neq. lia.
Qed.

Lemma positive_orders_never_chain_witness :
  consecutive 1 (mk_pair 3 3 2 0) (mk_pair 2 2 3 0) = false.
Proof.
  apply (positive_orders_never_chain [1; 2; 3]%Z 1 1) with (j := 1%nat).
  - left. reflexivity.
  - intros [|[|[|i]]] a b Ea Eb; simpl in Ea, Eb;
      try discriminate; try (destruct i; discriminate);
      inversion Ea; inversion Eb; subst; reflexivity.
  - repeat constructor; discriminate.
  - reflexivity.
  - reflexivity.
  - reflexivity.
Defined.

(** ** The parts of an interrupted pattern, and how they are put together *)

Lemma split_from_parts_of (l : list Q) :
  forall (pre : list Q) (start s j : nat),
    (j <= s)%nat -> length pre = (s - j)%nat -> (start <= length pre)%nat ->
    Np.split_from (pre ++ filter nonzero l) start
      (adjust_missing (Np.where_from (fun x => Qeq_bool x 0) l s) j)
    = parts_of l (skipn start pre).
Proof.
  induction l as [|x l IH]; intros pre start s j Hj Hpre Hstart.
  - simpl. rewrite app_nil_r. reflexivity.
  - cbn [filter Np.where_from parts_of]. unfold nonzero at 1.
    destruct (Qeq_bool x 0) eqn:Ex; cbn [negb adjust_missing Np.split_from].
    + f_equal.
      * unfold Np.slice. rewrite <- Hpre, firstn_app, Nat.sub_diag, firstn_all.
        cbn [firstn]. rewrite app_nil_r. reflexivity.
      * rewrite (IH pre (s - j)%nat (S s) (S j)) by lia.
        rewrite skipn_all2 by lia. reflexivity.
    + replace (pre ++ x :: filter nonzero l) with ((pre ++ [x]) ++ filter nonzero l)
        by (rewrite <- app_assoc; reflexivity).
      rewrite (IH (pre ++ [x]) start (S s) j)
        by (rewrite ?length_app; cbn [length]; lia).
      f_equal. rewrite skipn_app.
      replace (start - length pre)%nat with 0%nat by lia. reflexivity.
Qed.

Lemma pattern_parts_of (Obs : list Q) : pattern_parts Obs Obs = parts_of Obs [].
Proof.
  unfold pattern_parts, Np.split, Np.where_.
  apply (split_from_parts_of Obs [] 0 0 0); simpl; lia.
Qed.

Lemma parts_of_cons (l current : list Q) :
  exists part rest, parts_of l current = part :: rest.
Proof.
  revert current. induction l as [|x l IH]; intros current; simpl; eauto.
  destruct (Qeq_bool x 0); eauto.
Qed.

Lemma Forall2_Qeq_refl (l : list Q) : Forall2 Qeq l l.
Proof. induction l; constructor; auto. reflexivity. Qed.

Lemma parts_of_join (l : list Q) :
  forall current, Forall2 Qeq (join_parts (parts_of l current)) (current ++ l).
Proof.
  induction l as [|x l IH]; intros current.
  - simpl. rewrite app_nil_r. apply Forall2_Qeq_refl.
  - cbn [parts_of]. destruct (Qeq_bool x 0) eqn:Ex.
    + destruct (parts_of_cons l []) as (part & rest & E).
      cbn [join_parts]. rewrite E. rewrite <- E.
      apply Forall2_app; [apply Forall2_Qeq_refl|].
      constructor; [symmetry; apply Qeq_bool_iff; auto | apply (IH [])].
    + replace (current ++ x :: l) with ((current ++ [x]) ++ l)
        by (rewrite <- app_assoc; reflexivity).
      apply IH.
Qed.

Lemma parts_of_nonzero (l : list Q) :
  forall current,
    Forall (fun x => ~ x == 0) current ->
    Forall (Forall (fun x => ~ x == 0)) (parts_of l current).
Proof.
  induction l as [|x l IH]; intros current Hc; cbn [parts_of].
  - constructor; auto.
  - destruct (Qeq_bool x 0) eqn:Ex.
    + constructor; auto.
    + apply IH. apply Forall_app. split; auto. constructor; auto.
      apply Qeq_bool_neq. auto.
Qed.

Lemma parts_of_length (l : list Q) :
  forall current,
    length (parts_of l current)
    = S (length (Np.where_ (fun x => Qeq_bool x 0) l)).
Proof.
  unfold Np.where_. generalize 0%nat.
  induction l as [|x l IH]; intros s current; cbn [parts_of Np.where_from]; auto.
  destruct (Qeq_bool x 0); simpl; rewrite (IH (S s)); reflexivity.
Qed.

Lemma pattern_parts_spec (Obs : list Q) :
  Forall (Forall (fun x => ~ x == 0)) (pattern_parts Obs Obs) /\
  length (pattern_parts Obs Obs)
    = S (length (Np.where_ (fun x => Qeq_bool x 0) Obs)) /\
  Forall2 Qeq (join_parts (pattern_parts Obs Obs)) Obs /\
  concat (pattern_parts Obs Obs) = filter nonzero Obs.
Proof.
  rewrite pattern_parts_of. split; [apply parts_of_nonzero; constructor|].
  split; [apply parts_of_length|]. split; [apply (parts_of_join Obs [])|].
  rewrite <- pattern_parts_of. unfold pattern_parts, Np.split.
  rewrite split_from_concat; [reflexivity|].
  apply (adjust_missing_nondecreasing (fun x => Qeq_bool x 0) Obs 0 0). lia.
Qed.

(** X10.  The parts [theoretical_pattern_from_dfrow] cuts the observed
    values into hold no zero, are one more than the zeros of the observed
    pattern, and give back the observed pattern when they are laid end to
    end with one zero between two parts (and the observed values without
    their zeros when they are laid end to end as they are). *)
Theorem pattern_parts_rejoin (Obs : list Q) :
  Forall (Forall (fun x => ~ x == 0)) (pattern_parts Obs Obs) /\
  length (pattern_parts Obs Obs)
    = S (length (Np.where_ (fun x => Qeq_bool x 0) Obs)) /\
  Forall2 Qeq (join_parts (pattern_parts Obs Obs)) Obs /\
  concat (pattern_parts Obs Obs) = filter nonzero Obs.
Proof. exact (pattern_parts_spec Obs). Qed.

Lemma where_from_mask {A B : Type} (p : A -> bool) (q : B -> bool)
  (l : list A) (l' : list B) :
  map p l = map q l' -> forall s, Np.where_from p l s = Np.where_from q l' s.
Proof.
  revert l'. induction l as [|x l IH]; intros [|y l'] H s; try discriminate; auto.
  simpl in H. injection H as Hxy Hl. simpl. rewrite Hxy, (IH l' Hl). reflexivity.
Qed.

Lemma parts_of_lengths (l l' : list Q) :
  map (fun x => Qeq_bool x 0) l = map (fun x => Qeq_bool x 0) l' ->
  forall current current',
    length current = length current' ->
    map (@length Q) (parts_of l current) = map (@length Q) (parts_of l' current').
Proof.
  revert l'. induction l as [|x l IH]; intros [|y l'] H current current' Hc;
    try discriminate.
  - simpl. rewrite Hc. reflexivity.
  - simpl in H. injection H as Hxy Hl. cbn [parts_of]. rewrite Hxy.
    destruct (Qeq_bool y 0).
    + cbn [map]. rewrite Hc. f_equal. apply IH; auto.
    + apply IH; auto. rewrite !length_app. simpl. lia.
Qed.

(** X11.  When the errors are zero at the positions where the observed
    values are zero, and only there, the parts of the errors are as long as
    the parts of the observed values, one by one. *)
Theorem error_parts_aligned (Obs ObsErr : list Q) :
  map (fun x => Qeq_bool x 0) ObsErr = map (fun x => Qeq_bool x 0) Obs ->
  map (@length Q) (pattern_parts ObsErr Obs) = map (@length Q) (pattern_parts Obs Obs).
Proof.
  intros Hmask.
  assert (E : pattern_parts ObsErr Obs = pattern_parts ObsErr ObsErr).
  { unfold pattern_parts, Np.where_.
    rewrite (where_from_mask _ _ _ _ Hmask 0). reflexivity. }
  rewrite E, !pattern_parts_of. apply parts_of_lengths; auto.
Qed.

Lemma error_parts_aligned_witness :
  map (@length Q) (pattern_parts Example.e2e_err Example.e2e_obs)
  = map (@length Q) (pattern_parts Example.e2e_obs Example.e2e_obs).
Proof.
  apply (error_parts_aligned Example.e2e_obs Example.e2e_err).
  reflexivity.
Defined.

Lemma select_part_prefix (sqrt : Q -> Q) (which_observable method_build_series orders : pyval)
  (freqs periods output_pulsations : list Q) (arr : list Q)
  (ObsErr_part highest_amp_puls_part : pyval) (output_pulsations' : list Q) :
  select_part sqrt which_observable method_build_series orders freqs periods
              output_pulsations (PyArray arr) ObsErr_part highest_amp_puls_part
    = Ok output_pulsations' ->
  exists selected,
    output_pulsations'
    = (if (0 <? length output_pulsations)%nat
       then output_pulsations ++ [0] else output_pulsations) ++ selected /\
    length selected = length arr /\ arr <> [].
Proof.
  intros H. pose proof (select_part_length _ _ _ _ _ _ _ _ _ _ _ H) as (Hne & Hlen).
  unfold select_part in H.
  bind_inv H as tuple Htuple.
  destruct tuple as [[[[Theo_value Obs_arr] ObsPeriod] ObsErr_P] highest].
  bind_inv H as selected Hsel. inversion H; subst; clear H.
  exists selected. split; [reflexivity|]. split; auto.
  rewrite length_app in Hlen.
  destruct (0 <? length output_pulsations)%nat; rewrite ?length_app in Hlen;
    simpl in Hlen; lia.
Qed.

(** What a returned iteration appends is what the same part gets when
    [output_pulsations] is empty. *)
Lemma select_part_selection (sqrt : Q -> Q)
  (which_observable method_build_series orders : pyval)
  (freqs periods output_pulsations : list Q) (arr : list Q)
  (ObsErr_part highest_amp_puls_part : pyval) (output_pulsations' : list Q) :
  select_part sqrt which_observable method_build_series orders freqs periods
              output_pulsations (PyArray arr) ObsErr_part highest_amp_puls_part
    = Ok output_pulsations' ->
  exists selected,
    output_pulsations'
    = (if (0 <? length output_pulsations)%nat
       then output_pulsations ++ [0] else output_pulsations) ++ selected /\
    length selected = length arr /\ arr <> [] /\
    select_part sqrt which_observable method_build_series orders freqs periods
                [] (PyArray arr) ObsErr_part highest_amp_puls_part
      = Ok selected.
Proof.
  intros H.
  destruct (select_part_prefix _ _ _ _ _ _ _ _ _ _ _ H) as (sel & Hout & Hlen & Hne).
  exists sel. repeat split; auto.
  unfold select_part in H |- *.
  unfold drop_chosen_freqs, drop_chosen_periods.
  cbn [length Nat.ltb Nat.leb]. cbv zeta in H |- *.
  bind_inv H as tuple Htuple.
  assert (Hsame : forall selected,
            (if (0 <? length output_pulsations)%nat
             then output_pulsations ++ [0] else output_pulsations) ++ selected
            = output_pulsations' -> selected = sel).
  { intros selected E. rewrite Hout in E. apply app_inv_head in E. exact E. }
  destruct (py_eq_str which_observable "frequency");
    [|destruct (py_eq_str which_observable "period")]; [| |discriminate];
    bind_inv Htuple as u Hdrop; cbn [bind]; rewrite Htuple; cbn [bind];
    destruct tuple as [[[[Theo_value Obs_arr] ObsPeriod] ObsErr_P] highest];
    bind_inv H as selected Hsel; rewrite Hsel; cbn [bind app];
    inversion H as [E]; rewrite (Hsame _ E); reflexivity.
Qed.

Lemma select_parts_join (sqrt : Q -> Q) (which_observable method_build_series orders : pyval)
  (freqs periods : list Q) (parts : list (list Q)) :
  forall (le lh : list pyval) (output_pulsations output_pulsations' : list Q),
    length le = length parts -> length lh = length parts ->
    output_pulsations <> [] ->
    select_parts sqrt which_observable method_build_series orders freqs periods
                 (zip3 (map PyArray parts) le lh) output_pulsations
      = Ok output_pulsations' ->
    exists selections,
      Forall2 (fun selected part =>
                 select_part sqrt which_observable method_build_series orders
                             freqs periods [] (fst (fst part)) (snd (fst part))
                             (snd part)
                 = Ok selected)
              selections (zip3 (map PyArray parts) le lh) /\
      map (@length Q) selections = map (@length Q) parts /\
      output_pulsations'
      = output_pulsations ++ concat (map (cons 0) selections).
Proof.
  induction parts as [|arr parts IH]; intros le lh out out' Hle Hlh Hne H.
  - simpl in H. inversion H; subst. exists []. simpl. rewrite app_nil_r.
    repeat split; auto.
  - destruct le as [|e le]; [discriminate|]. destruct lh as [|h lh]; [discriminate|].
    simpl in H. bind_inv H as out1 Hsp.
    apply select_part_selection in Hsp.
    destruct Hsp as (sel & -> & Hsel & Harr & Halone).
    replace (0 <? length out)%nat with true in H
      by (symmetry; apply Nat.ltb_lt; destruct out; simpl; [congruence | lia]).
    apply IH in H; simpl in Hle, Hlh; try lia.
    + destruct H as (sels & Hall & Hlens & ->).
      exists (sel :: sels). split; [constructor; auto|].
      split; [simpl; congruence|].
      simpl. rewrite <- !app_assoc. reflexivity.
    + intros E. apply app_eq_nil in E. destruct E as (E & _).
      apply app_eq_nil in E. destruct E as (_ & E). discriminate.
Qed.

Lemma join_parts_cons (part : list Q) (rest : list (list Q)) :
  join_parts (part :: rest) = part ++ concat (map (cons 0) rest).
Proof.
  revert part. induction rest as [|p rest IH]; intros part.
  - simpl. rewrite app_nil_r. reflexivity.
  - change (join_parts (part :: p :: rest)) with (part ++ 0 :: join_parts (p :: rest)).
    rewrite IH. reflexivity.
Qed.

Lemma assembled_selections (sqrt : Q -> Q) (params : option Q)
  (asymptotic_object : option asymptotic) (estimated_rotation : Q)
  (freqs_input : list Q) (orders Obs ObsErr which_observable method_build_series : pyval)
  (parts : list (list Q)) (le lh : list pyval) (output_pulsations : list Q) :
  length le = length parts -> length lh = length parts ->
  assembled_pulsations sqrt params asymptotic_object estimated_rotation freqs_input
    orders Obs ObsErr (PyList (map PyArray parts)) (PyList le)
    which_observable method_build_series (PyList lh) = Ok output_pulsations ->
  exists freqs selections,
    scaled_freqs params asymptotic_object estimated_rotation freqs_input = Ok freqs /\
    Forall2 (fun selected part =>
               select_part sqrt which_observable method_build_series orders
                           freqs (reciprocal freqs) []
                           (fst (fst part)) (snd (fst part)) (snd part)
               = Ok selected)
            selections (zip3 (map PyArray parts) le lh) /\
    map (@length Q) selections = map (@length Q) parts /\
    output_pulsations = join_parts selections.
Proof.
  intros Hle Hlh H. unfold assembled_pulsations in H.
  bind_inv H as freqs Hfreqs. unfold py_zip3 in H. cbn [py_iter bind] in H.
  exists freqs.
  destruct parts as [|arr parts].
  - simpl in H. inversion H; subst. exists []. repeat split; auto.
  - destruct le as [|e le]; [discriminate|]. destruct lh as [|h lh]; [discriminate|].
    simpl in H. bind_inv H as out1 Hsp.
    apply select_part_selection in Hsp.
    destruct Hsp as (sel & -> & Hsel & Harr & Halone).
    cbn [length Nat.ltb Nat.leb app] in H.
    apply select_parts_join in H; simpl in Hle, Hlh; try lia.
    + destruct H as (sels & Hall & Hlens & ->).
      exists (sel :: sels). split; [exact Hfreqs|].
      split; [constructor; auto|].
      split; [simpl; congruence|].
      symmetry. apply join_parts_cons.
    + intros ->. destruct arr; simpl in *; [congruence | discriminate].
Qed.

(** X12.  When the loop over the parts ends, [output_pulsations] is made of
    the selections for the parts, in their order, with one 0 between two
    parts; the selection for a part is what the part gets from the same
    theoretical values when [output_pulsations] is empty, and it is as long
    as the part. *)
Theorem assembled_join (sqrt : Q -> Q) (params : option Q)
  (asymptotic_object : option asymptotic) (estimated_rotation : Q)
  (freqs_input : list Q) (orders Obs ObsErr which_observable method_build_series : pyval)
  (parts : list (list Q)) (le lh : list pyval) (output_pulsations : list Q) :
  length le = length parts -> length lh = length parts ->
  assembled_pulsations sqrt params asymptotic_object estimated_rotation freqs_input
    orders Obs ObsErr (PyList (map PyArray parts)) (PyList le)
    which_observable method_build_series (PyList lh) = Ok output_pulsations ->
  exists freqs selections,
    scaled_freqs params asymptotic_object estimated_rotation freqs_input = Ok freqs /\
    Forall2 (fun selected part =>
               select_part sqrt which_observable method_build_series orders
                           freqs (reciprocal freqs) []
                           (fst (fst part)) (snd (fst part)) (snd part)
               = Ok selected)
            selections (zip3 (map PyArray parts) le lh) /\
    map (@length Q) selections = map (@length Q) parts /\
    output_pulsations = join_parts selections.
Proof. exact (assembled_selections sqrt params asymptotic_object estimated_rotation
                freqs_input orders Obs ObsErr which_observable method_build_series
                parts le lh output_pulsations). Qed.

Lemma assembled_join_witness :
  exists freqs selections,
    scaled_freqs (Some 1) (Some no_scaling) 1 Example.e2e_freqs = Ok freqs /\
    Forall2 (fun selected part =>
               select_part approx_sqrt (PyStr "period") (PyStr "chisq_longest_sequence")
                           (PyIntArray Example.e2e_orders)
                           freqs (reciprocal freqs) []
                           (fst (fst part)) (snd (fst part)) (snd part)
               = Ok selected)
            selections
            (zip3 (map PyArray [[9#10; 8#10]; [6#10; 5#10]])
                  [PyArray [1#100; 1#100]; PyArray [1#100; 1#100]] [PyNone; PyNone]) /\
    map (@length Q) selections = map (@length Q) [[9#10; 8#10]; [6#10; 5#10]] /\
    [95#100; 85#100; 0; 62#100; 55#100] = join_parts selections.
Proof.
  apply (assembled_join approx_sqrt (Some 1) (Some no_scaling) 1 Example.e2e_freqs
           (PyIntArray Example.e2e_orders)
           (PyArray [9#10; 8#10; 6#10; 5#10]) (PyArray [1#100; 1#100; 1#100; 1#100])
           (PyStr "period") (PyStr "chisq_longest_sequence")
           [[9#10; 8#10]; [6#10; 5#10]]
           [PyArray [1#100; 1#100]; PyArray [1#100; 1#100]] [PyNone; PyNone]).
  - reflexivity.
  - reflexivity.
  - vm_compute. reflexivity.
Defined.

Lemma Forall2_gap_free (sel part : list Q) :
  length sel = length part ->
  Forall (fun x => ~ x == 0) part ->
  Forall2 (fun o x => x == 0 -> o = 0) sel part.
Proof.
  revert sel. induction part as [|x part IH]; intros [|o sel] Hl Hp;
    try discriminate; constructor.
  - inversion Hp; subst. tauto.
  - inversion Hp; subst. apply IH; auto.
Qed.

Lemma join_parts_gaps (parts : list (list Q)) :
  Forall (Forall (fun x => ~ x == 0)) parts ->
  forall selections,
    map (@length Q) selections = map (@length Q) parts ->
    Forall2 (fun o x => x == 0 -> o = 0) (join_parts selections) (join_parts parts).
Proof.
  induction parts as [|part parts IH]; intros Hp [|sel sels] Hl; try discriminate.
  - constructor.
  - inversion Hp; subst. simpl in Hl. injection Hl as Hl1 Hl2.
    destruct parts as [|part' parts]; destruct sels as [|sel' sels]; try discriminate.
    + apply Forall2_gap_free; auto.
    + change (join_parts (sel :: sel' :: sels))
        with (sel ++ 0 :: join_parts (sel' :: sels)).
      change (join_parts (part :: part' :: parts))
        with (part ++ 0 :: join_parts (part' :: parts)).
      apply Forall2_app; [apply Forall2_gap_free; auto|].
      constructor; [reflexivity|]. apply IH; auto.
Qed.

Lemma Forall2_gaps_Qeq (out joined Obs : list Q) :
  Forall2 (fun o x => x == 0 -> o = 0) out joined ->
  Forall2 Qeq joined Obs ->
  Forall2 (fun o x => x == 0 -> o = 0) out Obs.
Proof.
  intros H. revert Obs. induction H as [|o y out joined Hoy H IH]; intros Obs HO;
    inversion HO; subst; constructor.
  - intros Hx. apply Hoy. etransitivity; eauto.
  - apply IH; auto.
Qed.

(** X13.  For the parts [theoretical_pattern_from_dfrow] cuts out of an
    observed pattern, the list of the chosen pulsations is as long as the
    observed pattern and holds a 0 wherever the observed pattern holds a
    zero. *)
Theorem gaps_preserved (sqrt : Q -> Q) (params : option Q)
  (asymptotic_object : option asymptotic) (estimated_rotation : Q)
  (freqs_input : list Q) (orders Obs' ObsErr' which_observable method_build_series : pyval)
  (Obs ObsErr : list Q) (lh : list pyval) (output_pulsations : list Q) :
  length lh = length (pattern_parts Obs Obs) ->
  assembled_pulsations sqrt params asymptotic_object estimated_rotation freqs_input
    orders Obs' ObsErr'
    (PyList (map PyArray (pattern_parts Obs Obs)))
    (PyList (map PyArray (pattern_parts ObsErr Obs)))
    which_observable method_build_series (PyList lh) = Ok output_pulsations ->
  length output_pulsations = length Obs /\
  forall k x, nth_error Obs k = Some x -> x == 0 ->
              nth_error output_pulsations k = Some 0.
Proof.
  intros Hlh H.
  destruct (pattern_parts_spec Obs) as (Hnz & _ & Hjoin & _).
  apply assembled_selections in H; auto.
  - destruct H as (freqs & sels & _ & _ & Hlens & ->).
    pose proof (Forall2_gaps_Qeq _ _ _ (join_parts_gaps _ Hnz sels Hlens) Hjoin) as HF.
    split; [eapply Forall2_length; eauto|].
    intros k x Ex Hx. clear - HF Ex Hx.
    revert k Ex. induction HF as [|o y out Obs Hoy HF IH]; intros [|k] Ex;
      try discriminate; simpl in *.
    + inversion Ex; subst. rewrite (Hoy Hx). reflexivity.
    + apply IH; auto.
  - rewrite length_map. unfold pattern_parts, Np.split.
    rewrite !split_from_length. reflexivity.
Qed.

Lemma gaps_preserved_witness :
  length [95#100; 85#100; 0; 62#100; 55#100] = length Example.e2e_obs /\
  forall k x, nth_error Example.e2e_obs k = Some x -> x == 0 ->
              nth_error [95#100; 85#100; 0; 62#100; 55#100] k = Some 0.
Proof.
  apply (gaps_preserved approx_sqrt (Some 1) (Some no_scaling) 1 Example.e2e_freqs
           (PyIntArray Example.e2e_orders)
           (PyArray [9#10; 8#10; 6#10; 5#10]) (PyArray [1#100; 1#100; 1#100; 1#100])
           (PyStr "period") (PyStr "chisq_longest_sequence")
           Example.e2e_obs Example.e2e_err [PyNone; PyNone]).
  - reflexivity.
  - vm_compute. reflexivity.
Defined.

(** ** The row of a model: the configuration and the shape of the row *)

(** X14.  When the series are to be built from the pulsations of highest
    amplitude and these are not one per part of the observed pattern (one
    more than it has zeros), [theoretical_pattern_from_dfrow] leaves with
    [SystemExit], whether the rotation is optimised or not. *)
Theorem anchor_count_mismatch_exits (sqrt : Q -> Q)
  (minimize : (Q -> result (list Q)) -> Q -> result minimizer_result)
  (summary_grid_row : grid_row) (Obs ObsErr : list Q) (which_observable : string)
  (highest_amp_puls : list Q) (asymptotic_object : option asymptotic)
  (estimated_rotation : Q) :
  length highest_amp_puls <> S (length (Np.where_ (fun x => Qeq_bool x 0) Obs)) ->
  theoretical_pattern_from_dfrow sqrt minimize summary_grid_row Obs ObsErr
    which_observable "highest_amplitude" highest_amp_puls asymptotic_object
    estimated_rotation = Raise SystemExit.
Proof.
  intros H. unfold theoretical_pattern_from_dfrow.
  unfold Np.split at 1. rewrite split_from_length, adjust_missing_length.
  replace (S (length (Np.where_ (fun x => Qeq_bool x 0) Obs))
           =? length highest_amp_puls)%nat with false
    by (symmetry; apply Nat.eqb_neq; auto).
  reflexivity.
Qed.

Lemma anchor_count_mismatch_exits_witness :
  theoretical_pattern_from_dfrow approx_sqrt one_evaluation Example.e2e_row
    Example.e2e_obs Example.e2e_err "period" "highest_amplitude" [8#10]
    (Some no_scaling) 1 = Raise SystemExit.
Proof.
  apply (anchor_count_mismatch_exits approx_sqrt one_evaluation Example.e2e_row
           Example.e2e_obs Example.e2e_err "period" [8#10] (Some no_scaling) 1).
  simpl. lia.
Defined.

Lemma where_nil_filter (l : list Q) :
  Np.where_ (fun x => Qeq_bool x 0) l = [] -> filter nonzero l = l.
Proof.
  unfold Np.where_. generalize 0%nat.
  induction l as [|x l IH]; intros s H; auto.
  cbn [Np.where_from] in H. cbn [filter]. unfold nonzero at 1.
  destruct (Qeq_bool x 0); [discriminate|].
  cbn [negb]. f_equal. eapply IH; eauto.
Qed.

Lemma broadcast2_length (f : Q -> Q -> Q) (a b r : list Q) :
  Np.broadcast2 f a b = Ok r -> length a = length b -> length r = length a.
Proof.
  intros H Hl. apply broadcast2_cases in H.
  destruct H as [(x & -> & ->) | [(y & -> & ->) | ->]];
    rewrite length_map; auto.
  rewrite length_combine, Hl. apply Nat.min_id.
Qed.

(** X15.  For an observed pattern without a zero and an optimised rotation,
    when the minimiser returns as residual the value its objective function
    takes at some rotation [y], a row that is returned is made of the
    rotation and the error of the minimiser's result, the parameters of the
    model and the residual added to the observed values; the residual is
    the observed values subtracted from the pattern selected with the
    frequencies scaled for [y], which has one value per observed value. *)
Theorem uninterrupted_row_shape (sqrt : Q -> Q)
  (minimize : (Q -> result (list Q)) -> Q -> result minimizer_result)
  (summary_grid_row : grid_row) (Obs ObsErr : list Q)
  (which_observable method_build_series : string) (highest_amp_puls : list Q)
  (scale_pattern : asymptotic) (estimated_rotation : Q) (list_out : list pyval) :
  (forall f x r, minimize f x = Ok r -> exists y, f y = Ok (mr_residual r)) ->
  Np.where_ (fun x => Qeq_bool x 0) Obs = [] ->
  theoretical_pattern_from_dfrow sqrt minimize summary_grid_row Obs ObsErr
    which_observable method_build_series highest_amp_puls (Some scale_pattern)
    estimated_rotation = Ok list_out ->
  let modes := computed_modes (row_modes summary_grid_row) in
  exists highest r y freqs selected optimised_pulsations,
    minimize
      (fun rotation =>
         rescale_rotation_and_select_theoretical_pattern sqrt
           (Some rotation) (Some scale_pattern) estimated_rotation (map snd modes)
           (PyIntArray (map fst modes)) (PyArray Obs) (PyArray (filter nonzero ObsErr))
           (PyList [PyArray Obs]) (PyList [PyArray (filter nonzero ObsErr)])
           (PyStr which_observable) (PyStr method_build_series) (PyList [highest]))
      estimated_rotation = Ok r /\
    scaled_freqs (Some y) (Some scale_pattern) estimated_rotation (map snd modes)
      = Ok freqs /\
    select_part sqrt (PyStr which_observable) (PyStr method_build_series)
                (PyIntArray (map fst modes)) freqs (reciprocal freqs) []
                (PyArray Obs) (PyArray (filter nonzero ObsErr)) highest
      = Ok selected /\
    length selected = length Obs /\
    Np.sub selected Obs = Ok (mr_residual r) /\
    Np.add (mr_residual r) Obs = Ok optimised_pulsations /\
    length optimised_pulsations = length Obs /\
    list_out = [PyFloat (mr_rotation r); mr_stderr r]
                 ++ map PyFloat (row_parameters summary_grid_row)
                 ++ map PyFloat optimised_pulsations.
Proof.
  intros Hmin Hgap H modes. unfold theoretical_pattern_from_dfrow in H.
  rewrite Hgap, (where_nil_filter Obs Hgap) in H.
  cbn [adjust_missing Np.split Np.split_from skipn length map] in H.
  fold modes in H.
  bind_inv H as hap Hhap. bind_inv H as r Hr. bind_inv H as opt Hopt.
  inversion H; subst; clear H.
  assert (Hlh : exists highest, hap = PyList [highest]).
  { destruct (1 =? length highest_amp_puls)%nat eqn:El; simpl in Hhap.
    - inversion Hhap; subst. apply Nat.eqb_eq in El.
      destruct highest_amp_puls as [|h [|h' hs]]; try discriminate.
      eexists. reflexivity.
    - destruct (String.eqb method_build_series "highest_amplitude"); [discriminate|].
      inversion Hhap; subst. eexists. reflexivity. }
  destruct Hlh as (highest & ->).
  destruct (Hmin _ _ _ Hr) as (y & Hy).
  unfold rescale_rotation_and_select_theoretical_pattern in Hy.
  bind_inv Hy as out Hout. cbn [as_array bind] in Hy.
  apply (assembled_selections sqrt (Some y) (Some scale_pattern) estimated_rotation
           _ _ _ _ _ _ [Obs] [PyArray (filter nonzero ObsErr)] [highest]) in Hout; auto.
  destruct Hout as (freqs & sels & Hfreqs & Hall & Hlens & ->).
  destruct sels as [|sel [|sel' sels]]; try discriminate.
  cbn [join_parts map] in *. injection Hlens as Hsel.
  inversion Hall as [|? ? ? ? Hone _]; subst. cbn [fst snd] in Hone.
  exists highest, r, y, freqs, sel, opt.
  split; [exact Hr|]. split; [exact Hfreqs|]. split; [exact Hone|].
  split; [exact Hsel|]. split; [exact Hy|]. split; [exact Hopt|].
  split; [|reflexivity].
  apply broadcast2_length in Hy; auto.
  apply broadcast2_length in Hopt; congruence.
Qed.

Lemma uninterrupted_row_shape_witness :
  let modes := computed_modes (row_modes Example.e2e_row) in
  exists highest r y freqs selected optimised_pulsations,
    one_evaluation
      (fun rotation =>
         rescale_rotation_and_select_theoretical_pattern approx_sqrt
           (Some rotation) (Some no_scaling) 1 (map snd modes)
           (PyIntArray (map fst modes)) (PyArray [9#10; 8#10; 6#10; 5#10])
           (PyArray (filter nonzero [1#100; 1#100; 1#100; 1#100]))
           (PyList [PyArray [9#10; 8#10; 6#10; 5#10]])
           (PyList [PyArray (filter nonzero [1#100; 1#100; 1#100; 1#100])])
           (PyStr "period") (PyStr "chisq_longest_sequence") (PyList [highest]))
      1 = Ok r /\
    scaled_freqs (Some y) (Some no_scaling) 1 (map snd modes) = Ok freqs /\
    select_part approx_sqrt (PyStr "period") (PyStr "chisq_longest_sequence")
                (PyIntArray (map fst modes)) freqs (reciprocal freqs) []
                (PyArray [9#10; 8#10; 6#10; 5#10])
                (PyArray (filter nonzero [1#100; 1#100; 1#100; 1#100])) highest
      = Ok selected /\
    length selected = length [9#10; 8#10; 6#10; 5#10]%Q /\
    Np.sub selected [9#10; 8#10; 6#10; 5#10] = Ok (mr_residual r) /\
    Np.add (mr_residual r) [9#10; 8#10; 6#10; 5#10] = Ok optimised_pulsations /\
    length optimised_pulsations = length [9#10; 8#10; 6#10; 5#10]%Q /\
    [PyFloat 1; PyNone; PyFloat (15#1000); PyFloat 3;
     PyFloat (8500#10000); PyFloat (8200#10000);
     PyFloat (700#1000); PyFloat (6200#10000)]
    = [PyFloat (mr_rotation r); mr_stderr r]
        ++ map PyFloat (row_parameters Example.e2e_row)
        ++ map PyFloat optimised_pulsations.
Proof.
  apply (uninterrupted_row_shape approx_sqrt one_evaluation Example.e2e_row
           [9#10; 8#10; 6#10; 5#10] [1#100; 1#100; 1#100; 1#100]
           "period" "chisq_longest_sequence" [] no_scaling 1).
  - intros f x r H. exists x. unfold one_evaluation in H.
    destruct (f x) as [res|e]; simpl in H; [|discriminate].
    inversion H; subst. reflexivity.
  - reflexivity.
  - vm_compute. reflexivity.
Defined.

(** X16.  Whenever the observed pattern holds a zero, no row comes out of
    [theoretical_pattern_from_dfrow], whatever the other arguments: the list
    of the chosen pulsations has the zeros and the observed values have lost
    them, the subtraction raises at every rotation, and so does a minimiser
    that raises when its objective function raises wherever it is
    evaluated. *)
Theorem gapped_pattern_no_row (sqrt : Q -> Q)
  (minimize : (Q -> result (list Q)) -> Q -> result minimizer_result)
  (summary_grid_row : grid_row) (Obs ObsErr : list Q)
  (which_observable method_build_series : string) (highest_amp_puls : list Q)
  (asymptotic_object : option asymptotic) (estimated_rotation : Q) :
  (forall f x, (forall y, exists e, f y = Raise e) ->
               exists e, minimize f x = Raise e) ->
  Np.where_ (fun x => Qeq_bool x 0) Obs <> [] ->
  exists e,
    theoretical_pattern_from_dfrow sqrt minimize summary_grid_row Obs ObsErr
      which_observable method_build_series highest_amp_puls asymptotic_object
      estimated_rotation = Raise e.
Proof.
  intros Hmin Hgap. apply interrupted_pattern_never_returns; auto.
Qed.

Lemma gapped_pattern_no_row_witness :
  exists e,
    theoretical_pattern_from_dfrow approx_sqrt one_evaluation Example.e2e_row
      Example.e2e_obs Example.e2e_err "period" "chisq_longest_sequence" []
      (Some no_scaling) 1 = Raise e.
Proof.
  apply (gapped_pattern_no_row approx_sqrt one_evaluation Example.e2e_row
           Example.e2e_obs Example.e2e_err "period" "chisq_longest_sequence" []
           (Some no_scaling) 1).
  - intros f x H. destruct (H x) as (e & He). exists e.
    unfold one_evaluation. rewrite He. reflexivity.
  - discriminate.
Defined.

(** X17.  What the earlier parts have chosen has no influence on the choice
    for a later part: the later part is given all the theoretical values,
    and its choice is the one it gets as the first part. *)
Theorem later_part_choice_independent (sqrt : Q -> Q)
  (which_observable method_build_series : pyval) (orders : list Z)
  (freqs periods output_pulsations : list Q)
  (Obs_part ObsErr_part highest_amp_puls_part : pyval) :
  (2 <= length orders)%nat ->
  output_pulsations <> [] ->
  select_part sqrt which_observable method_build_series (PyIntArray orders)
              freqs periods output_pulsations
              Obs_part ObsErr_part highest_amp_puls_part
  = (selected <- select_part sqrt which_observable method_build_series
                   (PyIntArray orders) freqs periods []
                   Obs_part ObsErr_part highest_amp_puls_part ;;
     Ok ((output_pulsations ++ [0]) ++ selected)).
Proof.
  intros Ho Hne. apply select_part_ignores_chosen; auto.
Qed.

Lemma later_part_choice_independent_witness :
  select_part approx_sqrt (PyStr "period") (PyStr "highest_frequency")
              (PyIntArray Example.e2e_orders)
              Example.int_freqs Example.int_periods [7; 6]
              (PyArray [61#10; 5]) (PyArray [1#100; 1#100]) PyNone
  = (selected <- select_part approx_sqrt (PyStr "period") (PyStr "highest_frequency")
                   (PyIntArray Example.e2e_orders)
                   Example.int_freqs Example.int_periods []
                   (PyArray [61#10; 5]) (PyArray [1#100; 1#100]) PyNone ;;
     Ok (([7; 6] ++ [0]) ++ selected)).
Proof.
  apply (later_part_choice_independent approx_sqrt (PyStr "period")
           (PyStr "highest_frequency") Example.e2e_orders
           Example.int_freqs Example.int_periods [7; 6]
           (PyArray [61#10; 5]) (PyArray [1#100; 1#100]) PyNone).
  - simpl. lia.
  - discriminate.
Defined.

(** ** The header of the output file *)

Lemma str_of_nat_inj (i j : nat) : str_of_nat i = str_of_nat j -> i = j.
Proof.
  unfold str_of_nat. intros H. apply DecimalNat.Unsigned.to_uint_inj.
  assert (E : Some (Nat.to_uint i) = Some (Nat.to_uint j)).
  { rewrite <- !DecimalString.NilEmpty.usu. rewrite H. reflexivity. }
  congruence.
Qed.

Lemma header_slot (parameter_columns index : list string) (k : nat) (label : string) :
  nth_error index k = Some label ->
  nth_error (pattern_header parameter_columns index)
            (2 + length parameter_columns + k)
  = Some (if String.eqb label "f_missing"
          then "f_missing"%string
          else ("f" ++ str_of_nat (S k))%string).
Proof.
  intros E. unfold pattern_header.
  assert (Hk : (k < length index)%nat) by (apply nth_error_Some; congruence).
  change (["rot"; "rot_err"]%string ++ parameter_columns ++ ?l)
    with ("rot"%string :: "rot_err"%string :: (parameter_columns ++ l)).
  cbn [Nat.add nth_error].
  rewrite nth_error_app2 by lia.
  replace (length parameter_columns + k - length parameter_columns)%nat with k by lia.
  rewrite nth_error_map.
  rewrite (nth_error_nth' (seq 1 (length index)) 0%nat) by (rewrite length_seq; auto).
  rewrite seq_nth by auto. cbn [option_map]. f_equal.
  replace (1 + k - 1)%nat with k by lia.
  destruct (String.eqb label "f_missing") eqn:El.
  - replace (existsb (Nat.eqb k)
               (Np.where_ (fun l => String.eqb l "f_missing") index)) with true;
      [reflexivity|].
    symmetry. apply existsb_exists. exists k. split; [|apply Nat.eqb_refl].
    apply where_from_In. split; [lia|]. rewrite Nat.sub_0_r. eauto.
  - replace (existsb (Nat.eqb k)
               (Np.where_ (fun l => String.eqb l "f_missing") index)) with false;
      [reflexivity|].
    symmetry. apply not_true_is_false. intros H.
    apply existsb_exists in H. destruct H as (j & Hj & Ej).
    apply Nat.eqb_eq in Ej. subst j.
    apply where_from_In in Hj. destruct Hj as (_ & l & El' & Pl).
    rewrite Nat.sub_0_r in El'. congruence.
Qed.

(** X18.  The header has the two columns of the rotation, the columns of
    the parameters and one column per row of the observations; the column of
    row [k] is ['f_missing'] when the row is labelled so and ['f'] followed
    by [k+1] in decimal otherwise, and two rows that are not labelled
    ['f_missing'] never get the same column name. *)
Theorem pattern_header_columns (parameter_columns index : list string) :
  length (pattern_header parameter_columns index)
    = (2 + length parameter_columns + length index)%nat /\
  (forall k label, nth_error index k = Some label ->
     nth_error (pattern_header parameter_columns index)
               (2 + length parameter_columns + k)
     = Some (if String.eqb label "f_missing"
             then "f_missing"%string
             else ("f" ++ str_of_nat (S k))%string)) /\
  (forall j k lj lk,
     nth_error index j = Some lj -> nth_error index k = Some lk ->
     lj <> "f_missing"%string -> lk <> "f_missing"%string ->
     nth_error (pattern_header parameter_columns index)
               (2 + length parameter_columns + j)
     = nth_error (pattern_header parameter_columns index)
                 (2 + length parameter_columns + k) ->
     j = k).
Proof.
  split; [|split].
  - unfold pattern_header. rewrite !length_app, length_map, length_seq. simpl. lia.
  - apply header_slot.
  - intros j k lj lk Ej Ek Hj Hk H.
    rewrite (header_slot _ _ _ _ Ej), (header_slot _ _ _ _ Ek) in H.
    apply String.eqb_neq in Hj, Hk. rewrite Hj, Hk in H.
    inversion H as [E]. apply str_of_nat_inj in E. lia.
Qed.

(** * The choices on computed numbers *)

(** ** The comparisons of binary64 *)

Lemma SFltb_rank (a b : spec_float) :
  SFltb a b = true <->
  exists p q, rank a = Some p /\ rank b = Some q /\ below p q.
Proof.
  unfold SFltb.
  destruct a as [s|s| |s m e], b as [s'|s'| |s' m' e']; cbn [SFcompare rank];
    try (split; [discriminate | intros (p & q & Hp & Hq & _); discriminate]);
    try destruct s; try destruct s';
    try (split; [discriminate
                | intros (p & q & Hp & Hq & Hlt); exfalso;
                  inversion Hp; inversion Hq; subst; cbn in Hlt; lia]);
    try (split; [intros _; do 2 eexists; repeat split; cbn; lia | reflexivity]).
  - change (PosDef.Pos.compare_cont Eq m m') with (Pos.compare m m').
    destruct (Z.compare_spec e e'), (Pos.compare_spec m m'); cbn [CompOpp];
      (split; [try discriminate; intros _; do 2 eexists; repeat split; cbn; lia
              | intros (p & q & Hp & Hq & Hlt);
                inversion Hp; inversion Hq; subst; cbn in Hlt;
                try reflexivity; exfalso; lia]).
  - change (PosDef.Pos.compare_cont Eq m m') with (Pos.compare m m').
    destruct (Z.compare_spec e e'), (Pos.compare_spec m m');
      (split; [try discriminate; intros _; do 2 eexists; repeat split; cbn; lia
              | intros (p & q & Hp & Hq & Hlt);
                inversion Hp; inversion Hq; subst; cbn in Hlt;
                try reflexivity; exfalso; lia]).
Qed.

Lemma SFeqb_rank (a b : spec_float) :
  SFeqb a b = true <-> exists p, rank a = Some p /\ rank b = Some p.
Proof.
  unfold SFeqb.
  destruct a as [s|s| |s m e], b as [s'|s'| |s' m' e']; cbn [SFcompare rank];
    try (split; [discriminate | intros (p & Hp & Hq); discriminate]);
    try destruct s; try destruct s';
    try (split; [discriminate
                | intros (p & Hp & Hq); exfalso;
                  inversion Hp; subst; inversion Hq; lia]);
    try (split; [intros _; eexists; split; reflexivity | reflexivity]).
  - change (PosDef.Pos.compare_cont Eq m m') with (Pos.compare m m').
    destruct (Z.compare_spec e e'), (Pos.compare_spec m m'); cbn [CompOpp];
      (split; [try discriminate; intros _; subst; eexists; split; reflexivity
              | intros (p & Hp & Hq); inversion Hp; subst; inversion Hq;
                try reflexivity; exfalso; lia]).
  - change (PosDef.Pos.compare_cont Eq m m') with (Pos.compare m m').
    destruct (Z.compare_spec e e'), (Pos.compare_spec m m');
      (split; [try discriminate; intros _; subst; eexists; split; reflexivity
              | intros (p & Hp & Hq); inversion Hp; subst; inversion Hq;
                try reflexivity; exfalso; lia]).
Qed.

Lemma binary64_ltb (x y : float) :
  PrimFloat.ltb x y = true <->
  exists p q, rank (Prim2SF x) = Some p /\ rank (Prim2SF y) = Some q /\ below p q.
Proof. rewrite (FloatAxioms.ltb_spec x y). apply SFltb_rank. Qed.

Lemma binary64_eqb (x y : float) :
  PrimFloat.eqb x y = true <->
  exists p, rank (Prim2SF x) = Some p /\ rank (Prim2SF y) = Some p.
Proof. rewrite (FloatAxioms.eqb_spec x y). apply SFeqb_rank. Qed.

Lemma below_irrefl (p : Z * Z * Z) : ~ below p p.
Proof. destruct p as [[a b] c]. cbn. lia. Qed.

Lemma below_trans (p q r : Z * Z * Z) : below p q -> below q r -> below p r.
Proof. destruct p as [[a b] c], q as [[a' b'] c'], r as [[a'' b''] c'']. cbn. lia. Qed.

Lemma below_total (p q : Z * Z * Z) : below p q \/ p = q \/ below q p.
Proof.
  destruct p as [[a b] c], q as [[a' b'] c']. cbn.
  destruct (Z.lt_trichotomy a a') as [H | [H | H]]; [lia | | lia].
  destruct (Z.lt_trichotomy b b') as [H' | [H' | H']]; [lia | | lia].
  destruct (Z.lt_trichotomy c c') as [H'' | [H'' | H'']]; [lia | | lia].
  right. left. congruence.
Qed.

(** The comparisons of the kernel's binary64 numbers are those of
    IEEE 754. *)
Lemma binary64_comparisons : Fp.ieee_comparisons binary64.
Proof.
  constructor; cbn [Fp.ltb Fp.eqb Fp.num binary64]; unfold Fp.is_number;
    cbn [Fp.eqb binary64].
  - intros x. apply not_true_is_false. intros H. apply binary64_ltb in H.
    destruct H as (p & q & Hp & Hq & Hlt).
    assert (p = q) by congruence. subst. eapply below_irrefl; eauto.
  - intros x y z H1 H2. apply binary64_ltb in H1, H2. apply binary64_ltb.
    destruct H1 as (p & q & Hp & Hq & Hlt), H2 as (q' & r & Hq' & Hr & Hlt').
    assert (q' = q) by congruence. subst.
    exists p, r. repeat split; auto. eapply below_trans; eauto.
  - intros x y z H. apply binary64_eqb in H. destruct H as (p & Hp & Hq).
    apply eq_true_iff_eq. rewrite !binary64_ltb.
    split; intros (p' & r & Hp' & Hr & Hlt); exists p, r;
      repeat split; auto; congruence.
  - intros x y z H. apply binary64_eqb in H. destruct H as (p & Hp & Hq).
    apply eq_true_iff_eq. rewrite !binary64_ltb.
    split; intros (r & p' & Hr & Hp' & Hlt); exists r, p;
      repeat split; auto; congruence.
  - intros x y Hx Hy. apply binary64_eqb in Hx, Hy.
    destruct Hx as (p & Hp & _), Hy as (q & Hq & _).
    rewrite !binary64_ltb, binary64_eqb.
    destruct (below_total p q) as [H | [H | H]].
    + left. eauto.
    + right. left. subst. eauto.
    + right. right. eauto.
Qed.

(** The comparisons of the rationals are those of a total order. *)
Lemma exact_ltb (x y : Q) : Fp.ltb exact x y = true <-> x < y.
Proof.
  cbn [Fp.ltb exact]. rewrite negb_true_iff. split; intros H.
  - apply Qnot_le_lt. intros Hle. apply Qle_bool_iff in Hle. congruence.
  - apply not_true_is_false. intros Hle. apply Qle_bool_iff in Hle.
    apply Qle_not_lt in Hle. auto.
Qed.

Lemma exact_comparisons : Fp.ieee_comparisons exact.
Proof.
  constructor; unfold Fp.is_number.
  - intros x. apply not_true_is_false. intros H. apply exact_ltb in H.
    apply (Qlt_irrefl x); auto.
  - intros x y z H1 H2. apply exact_ltb in H1, H2. apply exact_ltb.
    eapply Qlt_trans; eauto.
  - intros x y z H. apply Qeq_bool_iff in H. apply eq_true_iff_eq.
    rewrite !exact_ltb. rewrite H. tauto.
  - intros x y z H. apply Qeq_bool_iff in H. apply eq_true_iff_eq.
    rewrite !exact_ltb. rewrite H. tauto.
  - intros x y _ _. rewrite !exact_ltb. cbn [Fp.eqb exact].
    destruct (Q_dec x y) as [[H | H] | H]; auto.
    right. left. apply Qeq_bool_iff; auto.
Qed.

(** ** The builtin [min] and the first index that attains it *)

Section Comparisons.

Variable A : Fp.arith.
Hypothesis HA : Fp.ieee_comparisons A.

Lemma min_from_least (l : list A) (m : A) :
  Fp.is_number A m -> Forall (Fp.is_number A) l ->
  (Fp.min_from A m l = m \/ In (Fp.min_from A m l) l) /\
  Fp.ltb A m (Fp.min_from A m l) = false /\
  (forall x, In x l -> Fp.ltb A x (Fp.min_from A m l) = false).
Proof.
  revert m. induction l as [|x l IH]; intros m Hm Hl; cbn [Fp.min_from].
  - repeat split; auto; [apply (Fp.ltb_irrefl HA) | intros x []].
  - inversion Hl as [|? ? Hx Hl']; subst.
    destruct (Fp.ltb A x m) eqn:E.
    + destruct (IH x Hx Hl') as (Hin & Hle & Hall).
      repeat split.
      * destruct Hin as [-> | Hin]; right; [left | right]; auto.
      * apply not_true_is_false. intros H.
        rewrite (Fp.ltb_trans HA _ _ _ E H) in Hle. discriminate.
      * intros y [<- | Hy]; auto.
    + destruct (IH m Hm Hl') as (Hin & Hle & Hall).
      repeat split.
      * destruct Hin as [-> | Hin]; auto. right. right. auto.
      * auto.
      * intros y [<- | Hy]; auto.
        apply not_true_is_false. intros H.
        destruct (Fp.ltb_total HA x m Hx Hm) as [H' | [H' | H']].
        -- congruence.
        -- rewrite (Fp.eqb_ltb_l HA _ _ _ H') in H. congruence.
        -- rewrite (Fp.ltb_trans HA _ _ _ H' H) in Hle. discriminate.
Qed.

(** Of numbers that are not NaN, [min] returns one that none is below, and
    [np.where(xs == min(xs))[0]] starts with the lowest index [j] of a
    number equal to it: none is below [xs[j]], and [xs[j]] is below every
    number before it. *)
Lemma first_minimum (l : list A) :
  l <> [] -> Forall (Fp.is_number A) l ->
  exists m j rest c,
    Fp.min A l = Ok m /\
    Np.where_ (fun c => Fp.eqb A c m) l = j :: rest /\
    (forall i, In i (j :: rest) -> (i < length l)%nat) /\
    nth_error l j = Some c /\
    (forall k x, nth_error l k = Some x -> Fp.ltb A x c = false) /\
    (forall k x, (k < j)%nat -> nth_error l k = Some x -> Fp.ltb A c x = true).
Proof.
  intros Hne Hl. destruct l as [|x0 l]; [congruence|].
  inversion Hl as [|? ? Hx0 Hl']; subst.
  destruct (min_from_least l x0 Hx0 Hl') as (Hin & Hle & Hall).
  set (m := Fp.min_from A x0 l) in *.
  assert (Hm : In m (x0 :: l)) by (destruct Hin as [-> | Hin]; [left | right]; auto).
  assert (Hnum : Fp.is_number A m).
  { rewrite Forall_forall in Hl. apply Hl; auto. }
  assert (Hleast : forall x, In x (x0 :: l) -> Fp.ltb A x m = false).
  { intros x [<- | Hx]; auto. }
  exists m. unfold Np.where_.
  destruct (Np.where_from (fun c => Fp.eqb A c m) (x0 :: l) 0) as [|j rest] eqn:Ew.
  { exfalso. apply In_nth_error in Hm. destruct Hm as (n & En).
    assert (Hn : In n (Np.where_from (fun c => Fp.eqb A c m) (x0 :: l) 0)).
    { apply where_from_In. split; [lia|]. rewrite Nat.sub_0_r. eauto. }
    rewrite Ew in Hn. destruct Hn. }
  assert (Hrange : forall i, In i (j :: rest) -> (i < length (x0 :: l))%nat).
  { intros i Hi. rewrite <- Ew in Hi. apply where_from_In in Hi.
    destruct Hi as (_ & x & Ex & _). rewrite Nat.sub_0_r in Ex.
    apply nth_error_Some. congruence. }
  apply where_from_head in Ew. rewrite Nat.sub_0_r in Ew.
  destruct Ew as (_ & (c & Ec & Pc) & Hb).
  exists j, rest, c. repeat split; auto.
  - intros k x Ex. rewrite (Fp.eqb_ltb_r HA _ _ _ Pc).
    apply Hleast. eapply nth_error_In; eauto.
  - intros k x Hk Ex. rewrite (Fp.eqb_ltb_l HA _ _ _ Pc).
    assert (Hx : Fp.is_number A x).
    { rewrite Forall_forall in Hl. apply Hl. eapply nth_error_In; eauto. }
    destruct (Fp.ltb_total HA x m Hx Hnum) as [H | [H | H]]; auto.
    + rewrite Hleast in H; [discriminate | eapply nth_error_In; eauto].
    + rewrite (Hb k x Hk Ex) in H. discriminate.
Qed.

End Comparisons.

(** ** The best match of every observed period *)

Lemma computed_best_match (A : Fp.arith) (tperiods : list A) (orders : list Z)
  (period err : A) :
  Fp.ieee_comparisons A ->
  tperiods <> [] ->
  length orders = length tperiods ->
  Forall (fun tperiod => Fp.is_number A (Fp.chisq_of A period err tperiod)) tperiods ->
  exists j tj oj,
    nth_error tperiods j = Some tj /\
    nth_error orders j = Some oj /\
    Fp.best_match A tperiods orders period err
      = Ok (Fp.mk_pair A period tj oj (Fp.chisq_of A period err tj)) /\
    (forall k tk, nth_error tperiods k = Some tk ->
       Fp.ltb A (Fp.chisq_of A period err tk) (Fp.chisq_of A period err tj) = false) /\
    (forall k tk, (k < j)%nat -> nth_error tperiods k = Some tk ->
       Fp.ltb A (Fp.chisq_of A period err tj) (Fp.chisq_of A period err tk) = true).
Proof.
  intros HA Hne Hlen Hnum. unfold Fp.best_match.
  set (chisqs := map (Fp.chisq_of A period err) tperiods).
  assert (Hclen : length chisqs = length tperiods) by (unfold chisqs; apply length_map).
  destruct (first_minimum A HA chisqs) as (m & j & rest & c & Hm & Hw & Hrange & Ec & Hleast & Hfirst).
  { unfold chisqs. destruct tperiods; [congruence | discriminate]. }
  { unfold chisqs. apply Forall_map. exact Hnum. }
  rewrite Hm. cbn [bind]. rewrite Hw.
  destruct (take_first tperiods j rest) as (ts & tj & Hts & Etj & Gtj).
  { intros i Hi. rewrite <- Hclen. auto. }
  destruct (take_first orders j rest) as (os & oj & Hos & Eoj & Goj).
  { intros i Hi. rewrite Hlen, <- Hclen. auto. }
  destruct (take_first chisqs j rest) as (cs & c' & Hcs & Ec' & Gc'); auto.
  rewrite Hts. cbn [bind]. rewrite Gtj. cbn [bind].
  rewrite Hos. cbn [bind]. rewrite Goj. cbn [bind].
  rewrite Hcs. cbn [bind]. rewrite Gc'. cbn [bind].
  assert (Ecj : c = Fp.chisq_of A period err tj).
  { unfold chisqs in Ec. rewrite (map_nth_error _ _ _ Etj) in Ec. congruence. }
  assert (c' = c) by congruence. subst c' c.
  exists j, tj, oj. repeat split; auto.
  - intros k tk Ek. apply (Hleast k). unfold chisqs. apply map_nth_error; auto.
  - intros k tk Hk Ek. apply (Hfirst k); auto. unfold chisqs.
    apply map_nth_error; auto.
Qed.

Lemma computed_pairs_orders (A : Fp.arith) (tperiods : list A) (orders : list Z) :
  Fp.ieee_comparisons A ->
  length orders = length tperiods ->
  forall operiods operiods_errors done,
    (operiods <> [] -> tperiods <> []) ->
    Forall2 (fun period err =>
               Forall (fun tperiod => Fp.is_number A (Fp.chisq_of A period err tperiod))
                      tperiods)
            operiods operiods_errors ->
    exists pairs,
      Fp.pairs_orders_from A tperiods orders (done ++ operiods_errors)
                           (length done) operiods = Ok pairs /\
      length pairs = length operiods /\
      forall n period err,
        nth_error operiods n = Some period ->
        nth_error operiods_errors n = Some err ->
        exists row,
          nth_error pairs n = Some row /\
          Fp.best_match A tperiods orders period err = Ok row.
Proof.
  intros HA Hlen operiods operiods_errors done Hne Hnum. revert done.
  induction Hnum as [|period err operiods operiods_errors Hp Hrest IH]; intros done.
  - exists []. repeat split; auto. intros [|n] x e E; discriminate.
  - cbn [Fp.pairs_orders_from].
    assert (Gerr : Np.getitem (done ++ err :: operiods_errors) (length done) = Ok err).
    { apply getitem_Ok. rewrite nth_error_app2, Nat.sub_diag by lia. reflexivity. }
    rewrite Gerr. cbn [bind].
    assert (Ht : tperiods <> []) by (apply Hne; discriminate).
    destruct (computed_best_match A tperiods orders period err HA Ht Hlen Hp)
      as (j & tj & oj & _ & _ & Hbm & _).
    rewrite Hbm. cbn [bind].
    destruct (IH (fun _ => Ht) (done ++ [err])) as (pairs & Hpairs & Hl & Hn).
    rewrite <- app_assoc, length_app in Hpairs. cbn [app length] in Hpairs.
    replace (length done + 1)%nat with (S (length done)) in Hpairs by lia.
    rewrite Hpairs. cbn [bind].
    eexists. split; [reflexivity|]. split; [simpl; lia|].
    intros [|n] x e E1 E2; simpl in E1, E2.
    + inversion E1; inversion E2; subst. eexists. split; [reflexivity | exact Hbm].
    + apply (Hn n x e E1 E2).
Qed.

(** C4.  In the branch where the theoretical pattern is long enough, when
    no chi-square [((period - tperiod)/error)**2] the loop computes is NaN,
    the row of [pairs_orders] of every observed period holds that period,
    the theoretical period at an index [j], the radial order at [j] and the
    chi-square computed for [j]; no computed chi-square of that observed
    period is below the one of [j], and the one of [j] is below the one of
    every index before [j].  The chi-squares are the computed ones: the
    numbers compared are the results of the subtraction, the division and
    the square of the arithmetic. *)
Theorem best_match_is_first_minimum (A : Fp.arith) (tperiods : list A)
  (orders : list Z) (operiods operiods_errors : list A) :
  Fp.ieee_comparisons A ->
  (length operiods <= length tperiods)%nat ->
  length orders = length tperiods ->
  Forall2 (fun period err =>
             Forall (fun tperiod =>
                       Fp.is_number A
                         (Fp.square A (Fp.div A (Fp.sub A period tperiod) err)))
                    tperiods)
          operiods operiods_errors ->
  exists pairs_orders,
    Fp.pairs_orders_of A tperiods orders operiods operiods_errors = Ok pairs_orders /\
    length pairs_orders = length operiods /\
    forall ii period err,
      nth_error operiods ii = Some period ->
      nth_error operiods_errors ii = Some err ->
      exists j tj oj,
        nth_error tperiods j = Some tj /\
        nth_error orders j = Some oj /\
        nth_error pairs_orders ii
          = Some (Fp.mk_pair A period tj oj
                    (Fp.square A (Fp.div A (Fp.sub A period tj) err))) /\
        (forall k tk, nth_error tperiods k = Some tk ->
           Fp.ltb A (Fp.square A (Fp.div A (Fp.sub A period tk) err))
                    (Fp.square A (Fp.div A (Fp.sub A period tj) err)) = false) /\
        (forall k tk, (k < j)%nat -> nth_error tperiods k = Some tk ->
           Fp.ltb A (Fp.square A (Fp.div A (Fp.sub A period tj) err))
                    (Fp.square A (Fp.div A (Fp.sub A period tk) err)) = true).
Proof.
  intros HA Hshort Hlen Hnum. unfold Fp.pairs_orders_of.
  assert (Hne : operiods <> [] -> tperiods <> []).
  { intros Ho Ht. subst tperiods. destruct operiods; [congruence | simpl in *; lia]. }
  destruct (computed_pairs_orders A tperiods orders HA Hlen operiods operiods_errors []
              Hne Hnum) as (pairs & Hp & Hl & Hn).
  exists pairs. split; [exact Hp|]. split; [exact Hl|].
  intros ii period err Ep Ee.
  destruct (Hn ii period err Ep Ee) as (row & Erow & Hbm).
  assert (Ht : tperiods <> []).
  { apply Hne. intros ->. destruct ii; discriminate. }
  assert (Hrow : Forall (fun tperiod =>
                           Fp.is_number A (Fp.chisq_of A period err tperiod)) tperiods).
  { clear - Hnum Ep Ee. revert ii Ep Ee.
    induction Hnum as [|p e ps es Hp Hrest IH]; intros [|ii] Ep Ee;
      simpl in Ep, Ee; try discriminate.
    - inversion Ep; inversion Ee; subst. exact Hp.
    - eapply IH; eauto. }
  destruct (computed_best_match A tperiods orders period err HA Ht Hlen Hrow)
    as (j & tj & oj & Etj & Eoj & Hbm' & Hleast & Hfirst).
  exists j, tj, oj. repeat split; auto.
  rewrite Erow. f_equal. rewrite Hbm in Hbm'. inversion Hbm'. reflexivity.
Qed.

Lemma best_match_is_first_minimum_witness :
  exists pairs_orders,
    Fp.pairs_orders_of binary64 Rounded.tperiods Rounded.orders
                       Rounded.operiods Rounded.operiods_errors = Ok pairs_orders /\
    length pairs_orders = length Rounded.operiods /\
    forall ii period err,
      nth_error Rounded.operiods ii = Some period ->
      nth_error Rounded.operiods_errors ii = Some err ->
      exists j tj oj,
        nth_error Rounded.tperiods j = Some tj /\
        nth_error Rounded.orders j = Some oj /\
        nth_error pairs_orders ii
          = Some (Fp.mk_pair binary64 period tj oj
                    (Fp.square binary64 (Fp.div binary64 (Fp.sub binary64 period tj) err))) /\
        (forall k tk, nth_error Rounded.tperiods k = Some tk ->
           Fp.ltb binary64
             (Fp.square binary64 (Fp.div binary64 (Fp.sub binary64 period tk) err))
             (Fp.square binary64 (Fp.div binary64 (Fp.sub binary64 period tj) err))
           = false) /\
        (forall k tk, (k < j)%nat -> nth_error Rounded.tperiods k = Some tk ->
           Fp.ltb binary64
             (Fp.square binary64 (Fp.div binary64 (Fp.sub binary64 period tj) err))
             (Fp.square binary64 (Fp.div binary64 (Fp.sub binary64 period tk) err))
           = true).
Proof.
  apply (best_match_is_first_minimum binary64 Rounded.tperiods Rounded.orders
           Rounded.operiods Rounded.operiods_errors).
  - exact binary64_comparisons.
  - simpl. lia.
  - reflexivity.
  - repeat constructor.
Defined.

(** On these periods the two chi-squares are computed as [36.0], and the
    theoretical period of index 0 is recorded. *)
Lemma rounded_best_match :
  Fp.pairs_orders_of binary64 Rounded.tperiods Rounded.orders
                     Rounded.operiods Rounded.operiods_errors
  = Ok [Fp.mk_pair binary64 0.07%float 0.01%float (-2)%Z 36%float].
Proof. vm_compute. reflexivity. Qed.

(** ** The run selected among the longest *)

Lemma longest_indices {T : Type} (sequences : list (list T)) (m j : nat) :
  In j (Np.where_ (fun n => (n =? m)%nat) (map (@length T) sequences)) <->
  exists s, nth_error sequences j = Some s /\ length s = m.
Proof.
  unfold Np.where_. rewrite where_from_In, Nat.sub_0_r. split.
  - intros (_ & n & En & Pn). rewrite nth_error_map in En.
    destruct (nth_error sequences j) as [s|]; [|discriminate].
    simpl in En. inversion En; subst. apply Nat.eqb_eq in Pn. eauto.
  - intros (s & Es & Hs). split; [lia|]. exists (length s).
    rewrite nth_error_map, Es. split; auto. apply Nat.eqb_eq; auto.
Qed.

Lemma where_from_increasing {T : Type} (p : T -> bool) (l : list T) (i : nat) :
  forall a b x y,
    (a < b)%nat ->
    nth_error (Np.where_from p l i) a = Some x ->
    nth_error (Np.where_from p l i) b = Some y ->
    (x < y)%nat.
Proof.
  revert i. induction l as [|t l IH]; intros i a b x y Hab Ea Eb; cbn [Np.where_from] in *.
  - destruct a; discriminate.
  - destruct (p t).
    + destruct b as [|b]; [lia|]. cbn [nth_error] in Eb.
      destruct a as [|a]; cbn [nth_error] in Ea.
      * inversion Ea; subst.
        assert (Hy : In y (Np.where_from p l (S x))) by (eapply nth_error_In; eauto).
        apply where_from_In in Hy. lia.
      * apply (IH (S i) a b); auto. lia.
    + apply (IH (S i) a b); auto.
Qed.

(** C2.  When one run alone has the greatest length, [select_lseq] returns
    it.  In every case, when the computed means
    [np.sum(seq[:,-1])/len(seq)] of the runs of the greatest length are not
    NaN, [select_lseq] returns a run of the greatest length; among the runs
    of that length none has a computed mean below its own, and every one
    that comes before it has a computed mean above its own. *)
Theorem longest_run_lowest_mean (A : Fp.arith)
  (sequences : list (list (Fp.pair_order A))) :
  Fp.ieee_comparisons A ->
  sequences <> [] ->
  (forall j s, nth_error sequences j = Some s ->
     (forall k s', nth_error sequences k = Some s' ->
                   (length s' <= length s)%nat /\ (length s' = length s -> k = j)) ->
     Fp.select_lseq A sequences = Ok s) /\
  ((forall s, In s sequences ->
      (forall s', In s' sequences -> (length s' <= length s)%nat) ->
      Fp.is_number A
        (Fp.div A (Fp.sum A (map (Fp.po_chisq A) s)) (Fp.of_len A (length s)))) ->
   exists i lseq,
     Fp.select_lseq A sequences = Ok lseq /\
     nth_error sequences i = Some lseq /\
     (forall s, In s sequences -> (length s <= length lseq)%nat) /\
     (forall s, In s sequences -> length s = length lseq ->
        Fp.ltb A (Fp.div A (Fp.sum A (map (Fp.po_chisq A) s)) (Fp.of_len A (length s)))
                 (Fp.div A (Fp.sum A (map (Fp.po_chisq A) lseq))
                           (Fp.of_len A (length lseq)))
        = false) /\
     (forall k s, (k < i)%nat -> nth_error sequences k = Some s ->
        length s = length lseq ->
        Fp.ltb A (Fp.div A (Fp.sum A (map (Fp.po_chisq A) lseq))
                           (Fp.of_len A (length lseq)))
                 (Fp.div A (Fp.sum A (map (Fp.po_chisq A) s)) (Fp.of_len A (length s)))
        = true)).
Proof.
  intros HA Hne. unfold Fp.select_lseq.
  set (len_list := map (@length (Fp.pair_order A)) sequences).
  destruct (max_nat_Ok len_list) as (m & Hm & Hmin & Hmall).
  { unfold len_list. destruct sequences; [congruence | discriminate]. }
  rewrite Hm. cbn [bind].
  set (longest := Np.where_ (fun n => (n =? m)%nat) len_list).
  assert (Hlong : forall j, In j longest <->
                            exists s, nth_error sequences j = Some s /\ length s = m)
    by (intros j; apply longest_indices).
  assert (Hmax : forall s, In s sequences -> (length s <= m)%nat).
  { intros s Hs. apply Hmall. unfold len_list. apply in_map; auto. }
  assert (Hnonempty : longest <> []).
  { unfold len_list in Hmin. apply in_map_iff in Hmin. destruct Hmin as (s & Hs & Hin).
    apply In_nth_error in Hin. destruct Hin as (j & Ej).
    assert (Hj : In j longest) by (apply Hlong; eauto).
    intros E. rewrite E in Hj. destruct Hj. }
  split.
  - (* one run alone has the greatest length *)
    intros j s Ej Honly.
    assert (Hs : length s = m).
    { apply Nat.le_antisymm; [apply Hmax; eapply nth_error_In; eauto|].
      unfold len_list in Hmin. apply in_map_iff in Hmin.
      destruct Hmin as (s' & <- & Hin). apply In_nth_error in Hin.
      destruct Hin as (k & Ek). apply (Honly k s' Ek). }
    assert (Hall : forall k, In k longest -> k = j).
    { intros k Hk. apply Hlong in Hk. destruct Hk as (s' & Ek & Hk).
      apply (Honly k s' Ek). congruence. }
    assert (El : longest = [j]).
    { destruct longest as [|l0 [|l1 rest]] eqn:El; [congruence | |].
      - f_equal. apply Hall. left. reflexivity.
      - exfalso.
        assert (H01 : (l0 < l1)%nat).
        { apply (where_from_increasing (fun n => (n =? m)%nat) len_list 0%nat 0%nat 1%nat);
            [lia | |]; fold (Np.where_ (fun n => (n =? m)%nat) len_list);
            fold longest; rewrite El; reflexivity. }
        rewrite (Hall l0), (Hall l1) in H01; [lia | right; left | left]; reflexivity. }
    rewrite El. cbn [length Nat.eqb Np.getitem nth_error of_option bind].
    apply getitem_Ok. exact Ej.
  - intros Hnum.
    change (forall s, In s sequences ->
              (forall s', In s' sequences -> (length s' <= length s)%nat) ->
              Fp.is_number A (Fp.mean_chisq A s)) in Hnum.
    destruct (length longest =? 1)%nat eqn:Hone.
    + apply Nat.eqb_eq in Hone.
      destruct longest as [|l0 [|l1 rest]] eqn:El; try discriminate.
      destruct (proj1 (Hlong l0) (or_introl eq_refl)) as (lseq & Es & Hs).
      cbn [Np.getitem nth_error of_option bind]. apply getitem_Ok in Es. rewrite Es.
      apply getitem_Ok in Es.
      assert (Honly : forall j s, nth_error sequences j = Some s -> length s = m -> j = l0).
      { intros j s Ej Hj.
        assert (Hin : In j [l0]) by (apply Hlong; eauto).
        destruct Hin as [<- | []]. reflexivity. }
      exists l0, lseq. split; [reflexivity|]. split; [exact Es|].
      split; [intros s Hin; rewrite Hs; auto|].
      split.
      { intros s Hin Hlen. apply In_nth_error in Hin. destruct Hin as (j & Ej).
        assert (j = l0) by (apply (Honly j s); congruence). subst j.
        assert (s = lseq) by congruence. subst s. apply (Fp.ltb_irrefl HA). }
      intros k s Hk Ek Hlen.
      assert (k = l0) by (apply (Honly k s); congruence). lia.
    + set (score := fun ii => s <- Np.getitem sequences ii ;; Ok (Fp.mean_chisq A s)).
      destruct (mapM_Ok score longest) as (scores & Hscores & Hslen & Hsnth).
      { intros j Hj. apply Hlong in Hj. destruct Hj as (s & Es & _).
        exists (Fp.mean_chisq A s). unfold score. apply getitem_Ok in Es. rewrite Es.
        reflexivity. }
      fold score. rewrite Hscores. cbn [bind].
      assert (Hscore : forall n j s, nth_error longest n = Some j ->
                nth_error sequences j = Some s ->
                nth_error scores n = Some (Fp.mean_chisq A s)).
      { intros n j s En Ej. destruct (Hsnth n j En) as (b & Eb & Sb).
        unfold score in Sb. apply getitem_Ok in Ej. rewrite Ej in Sb.
        cbn [bind] in Sb. congruence. }
      assert (Hsnum : Forall (Fp.is_number A) scores).
      { apply Forall_forall. intros x Hx. apply In_nth_error in Hx.
        destruct Hx as (n & En).
        assert (Hn : (n < length longest)%nat).
        { rewrite <- Hslen. apply nth_error_Some. congruence. }
        destruct (nth_error longest n) as [j|] eqn:Ej;
          [|apply nth_error_None in Ej; lia].
        destruct (proj1 (Hlong j) (nth_error_In _ _ Ej)) as (s & Es & Hsm).
        rewrite (Hscore n j s Ej Es) in En. injection En as <-.
        apply Hnum; [eapply nth_error_In; eauto|].
        intros s' Hs'. rewrite Hsm. auto. }
      destruct (first_minimum A HA scores) as
        (ms & min_score & rest & c & Hms & Hw & Hrange & Ec & Hleast & Hfirst); auto.
      { intros E. rewrite E in Hslen. destruct longest; [congruence | discriminate]. }
      rewrite Hms. cbn [bind]. unfold Np.where_first. rewrite Hw.
      cbn [Np.getitem nth_error of_option bind].
      assert (Hlt : (min_score < length longest)%nat).
      { rewrite <- Hslen. apply Hrange. left. reflexivity. }
      destruct (getitem_lt longest min_score Hlt) as (l & Gl & El).
      rewrite Gl. cbn [bind].
      destruct (proj1 (Hlong l) (nth_error_In _ _ El)) as (lseq & Es & Hs).
      assert (Hc : c = Fp.mean_chisq A lseq).
      { rewrite (Hscore min_score l lseq El Es) in Ec. congruence. }
      subst c.
      exists l, lseq. split; [apply getitem_Ok; auto|]. split; [exact Es|].
      split; [intros s Hin; rewrite Hs; auto|].
      split.
      { intros s Hin Hlen. apply In_nth_error in Hin. destruct Hin as (j & Ej).
        assert (Hj : In j longest) by (apply Hlong; exists s; split; auto; congruence).
        apply In_nth_error in Hj. destruct Hj as (n & En).
        apply (Hleast n). apply (Hscore n j s); auto. }
      intros k s Hk Ek Hlen.
      assert (Hj : In k longest) by (apply Hlong; exists s; split; auto; congruence).
      apply In_nth_error in Hj. destruct Hj as (n & En).
      apply (Hfirst n).
      * destruct (Nat.lt_trichotomy n min_score) as [H | [H | H]]; auto.
        -- subst n. assert (k = l) by congruence. lia.
        -- pose proof (where_from_increasing _ _ _ _ _ _ _ H El En). lia.
      * apply (Hscore n k s); auto.
Qed.

Lemma longest_run_lowest_mean_witness :
  (forall j s, nth_error Rounded.sequences j = Some s ->
     (forall k s', nth_error Rounded.sequences k = Some s' ->
                   (length s' <= length s)%nat /\ (length s' = length s -> k = j)) ->
     Fp.select_lseq binary64 Rounded.sequences = Ok s) /\
  exists i lseq,
    Fp.select_lseq binary64 Rounded.sequences = Ok lseq /\
    nth_error Rounded.sequences i = Some lseq /\
    (forall s, In s Rounded.sequences -> (length s <= length lseq)%nat) /\
    (forall s, In s Rounded.sequences -> length s = length lseq ->
       Fp.ltb binary64
         (Fp.div binary64 (Fp.sum binary64 (map (Fp.po_chisq binary64) s))
                          (Fp.of_len binary64 (length s)))
         (Fp.div binary64 (Fp.sum binary64 (map (Fp.po_chisq binary64) lseq))
                          (Fp.of_len binary64 (length lseq)))
       = false) /\
    (forall k s, (k < i)%nat -> nth_error Rounded.sequences k = Some s ->
       length s = length lseq ->
       Fp.ltb binary64
         (Fp.div binary64 (Fp.sum binary64 (map (Fp.po_chisq binary64) lseq))
                          (Fp.of_len binary64 (length lseq)))
         (Fp.div binary64 (Fp.sum binary64 (map (Fp.po_chisq binary64) s))
                          (Fp.of_len binary64 (length s)))
       = true).
Proof.
  destruct (longest_run_lowest_mean binary64 Rounded.sequences binary64_comparisons)
    as (Hone & Htie); [discriminate|].
  split; [exact Hone|]. apply Htie.
  intros s [<- | [<- | []]] _; reflexivity.
Defined.

(** The two runs have the computed mean [0.25]; the first is selected. *)
Lemma rounded_tie_first_run :
  map (Fp.mean_chisq binary64) Rounded.sequences = [0.25; 0.25]%float /\
  Fp.select_lseq binary64 Rounded.sequences = Ok (Rounded.run (-9) 0.1 0.4).
Proof. split; vm_compute; reflexivity. Qed.

(** ** The theoretical value closest to the value to build from *)

(** X2.  When the value to build from is observed, there is a theoretical
    value and no computed distance [abs(TheoIn - Obs_to_build_from)] is NaN,
    the series has one entry per observed value.  [nth_obs] being the lowest
    index of the value to build from in [Obs] and [index] the lowest index
    of a theoretical value whose computed distance no computed distance is
    below, entry [i] is the theoretical value at [index - nth_obs + i], and
    [-1] where that index is below 0 or not below the number of theoretical
    values. *)
Theorem puls_series_window (A : Fp.arith) (TheoIn Obs : list A)
  (Obs_to_build_from : A) :
  Fp.ieee_comparisons A ->
  (exists y, In y Obs /\ Fp.eqb A y Obs_to_build_from = true) ->
  TheoIn <> [] ->
  Forall (fun t => Fp.is_number A (Fp.absolute A (Fp.sub A t Obs_to_build_from)))
         TheoIn ->
  exists Theo_sequence nth_obs index closest,
    Fp.puls_series_from_given_puls A TheoIn Obs Obs_to_build_from = Ok Theo_sequence /\
    first_index (fun x => Fp.eqb A x Obs_to_build_from = true) Obs nth_obs /\
    nth_error TheoIn index = Some closest /\
    (forall k tk, nth_error TheoIn k = Some tk ->
       Fp.ltb A (Fp.absolute A (Fp.sub A tk Obs_to_build_from))
                (Fp.absolute A (Fp.sub A closest Obs_to_build_from)) = false) /\
    (forall k tk, (k < index)%nat -> nth_error TheoIn k = Some tk ->
       Fp.ltb A (Fp.absolute A (Fp.sub A closest Obs_to_build_from))
                (Fp.absolute A (Fp.sub A tk Obs_to_build_from)) = true) /\
    length Theo_sequence = length Obs /\
    forall i, (i < length Obs)%nat ->
      let k := (Z.of_nat index - Z.of_nat nth_obs + Z.of_nat i)%Z in
      ((0 <= k < Z.of_nat (length TheoIn))%Z ->
       nth_error Theo_sequence i = nth_error TheoIn (Z.to_nat k)) /\
      ((k < 0 \/ Z.of_nat (length TheoIn) <= k)%Z ->
       nth_error Theo_sequence i = Some (Fp.minus_one A)).
Proof.
  intros HA (y & Hy & Ey) Hne Hnum.
  set (a := Obs_to_build_from) in *.
  destruct (where_first_exists (fun x => Fp.eqb A x a) Obs y Hy Ey) as (nth_obs & Hobs).
  set (diff := map (fun t => Fp.absolute A (Fp.sub A t a)) TheoIn).
  destruct (first_minimum A HA diff) as
    (m & index & rest & d & Hm & Hw & Hrange & Ed & Hleast & Hfirst).
  { unfold diff. destruct TheoIn; [congruence | discriminate]. }
  { unfold diff. apply Forall_map. exact Hnum. }
  assert (Hidx : Np.where_first (fun d => Fp.eqb A d m) diff = Ok index).
  { unfold Np.where_first. rewrite Hw. reflexivity. }
  assert (Hres : Fp.puls_series_from_given_puls A TheoIn Obs a
                 = Ok ((if (index <? nth_obs)%nat
                        then repeat (Fp.minus_one A) (nth_obs - index)
                             ++ Np.slice 0 (index + (length Obs - nth_obs)) TheoIn
                        else Np.slice (index - nth_obs)
                                      (index + (length Obs - nth_obs)) TheoIn)
                       ++ (if (length TheoIn <? index + (length Obs - nth_obs))%nat
                           then repeat (Fp.minus_one A)
                                  (index + (length Obs - nth_obs) - length TheoIn)
                           else []))).
  { unfold Fp.puls_series_from_given_puls. rewrite Hobs. cbn [bind]. cbv zeta.
    fold diff. rewrite Hm. cbn [bind]. rewrite Hidx. reflexivity. }
  apply where_first_Ok in Hobs.
  unfold diff in Ed. rewrite nth_error_map in Ed.
  destruct (nth_error TheoIn index) as [t|] eqn:Et; [|discriminate].
  cbn [option_map] in Ed.
  assert (Hd : d = Fp.absolute A (Fp.sub A t a)) by congruence. subst d. clear Ed.
  assert (Hn : (nth_obs < length Obs)%nat).
  { destruct Hobs as ((x & Ex & _) & _). apply nth_error_Some. congruence. }
  assert (Hi : (index < length TheoIn)%nat) by (apply nth_error_Some; congruence).
  eexists _, nth_obs, index, t. split; [exact Hres|].
  split; [exact Hobs|]. split; [exact Et|].
  split.
  { intros k tk Ek. apply (Hleast k). unfold diff.
    apply (map_nth_error (fun t => Fp.absolute A (Fp.sub A t a))); auto. }
  split.
  { intros k tk Hk Ek. apply (Hfirst k); auto. unfold diff.
    apply (map_nth_error (fun t => Fp.absolute A (Fp.sub A t a))); auto. }
  split.
  { apply (window_nth (Fp.minus_one A) TheoIn (length Obs) nth_obs index 0); auto. lia. }
  intros i Hlt.
  apply (window_nth (Fp.minus_one A) TheoIn (length Obs) nth_obs index i Hn Hi Hlt).
Qed.

Lemma puls_series_window_witness :
  exists Theo_sequence nth_obs index closest,
    Fp.puls_series_from_given_puls binary64 Rounded.TheoIn Rounded.Obs 0.14%float
      = Ok Theo_sequence /\
    first_index (fun x => Fp.eqb binary64 x 0.14%float = true) Rounded.Obs nth_obs /\
    nth_error Rounded.TheoIn index = Some closest /\
    (forall k tk, nth_error Rounded.TheoIn k = Some tk ->
       Fp.ltb binary64 (Fp.absolute binary64 (Fp.sub binary64 tk 0.14%float))
                       (Fp.absolute binary64 (Fp.sub binary64 closest 0.14%float))
       = false) /\
    (forall k tk, (k < index)%nat -> nth_error Rounded.TheoIn k = Some tk ->
       Fp.ltb binary64 (Fp.absolute binary64 (Fp.sub binary64 closest 0.14%float))
                       (Fp.absolute binary64 (Fp.sub binary64 tk 0.14%float))
       = true) /\
    length Theo_sequence = length Rounded.Obs /\
    forall i, (i < length Rounded.Obs)%nat ->
      let k := (Z.of_nat index - Z.of_nat nth_obs + Z.of_nat i)%Z in
      ((0 <= k < Z.of_nat (length Rounded.TheoIn))%Z ->
       nth_error Theo_sequence i = nth_error Rounded.TheoIn (Z.to_nat k)) /\
      ((k < 0 \/ Z.of_nat (length Rounded.TheoIn) <= k)%Z ->
       nth_error Theo_sequence i = Some (Fp.minus_one binary64)).
Proof.
  apply (puls_series_window binary64 Rounded.TheoIn Rounded.Obs 0.14%float).
  - exact binary64_comparisons.
  - exists 0.14%float. split; [simpl; tauto | reflexivity].
  - discriminate.
  - repeat constructor.
Defined.

(** The two computed distances are equal: the series is built from the
    theoretical value of index 0. *)
Lemma rounded_closest_first :
  Fp.puls_series_from_given_puls binary64 Rounded.TheoIn Rounded.Obs 0.14%float
  = Ok [(-1)%float; 0.01%float; 0.27%float].
Proof. vm_compute. reflexivity. Qed.

(** ** Over the rationals, the functions are those of the first part *)

Lemma exact_min (l : list Q) : Fp.min exact l = Np.min l.
Proof.
  destruct l as [|x l]; [reflexivity|]. cbn [Fp.min Np.min]. f_equal.
  revert x. induction l as [|y l IH]; intros x; [reflexivity|].
  cbn [Fp.min_from Np.min_from Fp.ltb exact]. rewrite <- IH.
  destruct (Qle_bool x y); reflexivity.
Qed.

Lemma exact_puls_series (TheoIn Obs : list Q) (Obs_to_build_from : Q) :
  Fp.puls_series_from_given_puls exact TheoIn Obs Obs_to_build_from
  = puls_series_from_given_puls TheoIn Obs Obs_to_build_from.
Proof.
  unfold Fp.puls_series_from_given_puls, puls_series_from_given_puls.
  rewrite exact_min. reflexivity.
Qed.

Lemma exact_best_match (tperiods : list Q) (orders : list Z) (period err : Q) :
  best_match tperiods orders period err
  = (row <- Fp.best_match exact tperiods orders period err ;; Ok (to_pair row)).
Proof.
  unfold Fp.best_match, best_match. rewrite exact_min.
  change (Fp.chisq_of exact period err) with (chisq_of period err).
  cbn [Fp.num Fp.eqb exact].
  destruct (Np.min (map (chisq_of period err) tperiods)) as [m|e]; [|reflexivity].
  cbn [bind].
  destruct (Np.take tperiods _) as [ts|e]; [|reflexivity]. cbn [bind].
  destruct (Np.getitem ts 0) as [t|e]; [|reflexivity]. cbn [bind].
  destruct (Np.take orders _) as [os|e]; [|reflexivity]. cbn [bind].
  destruct (Np.getitem os 0) as [o|e]; [|reflexivity]. cbn [bind].
  destruct (Np.take (map (chisq_of period err) tperiods) _) as [cs|e]; [|reflexivity].
  cbn [bind].
  destruct (Np.getitem cs 0) as [c|e]; reflexivity.
Qed.

Lemma getitem_map {T U : Type} (f : T -> U) (l : list T) (i : nat) :
  Np.getitem (map f l) i = (x <- Np.getitem l i ;; Ok (f x)).
Proof.
  unfold Np.getitem. rewrite nth_error_map.
  destruct (nth_error l i); reflexivity.
Qed.

Lemma mapM_ext {T U : Type} (f g : T -> result U) (l : list T) :
  (forall x, f x = g x) -> mapM f l = mapM g l.
Proof.
  intros H. induction l as [|x l IH]; [reflexivity|].
  cbn [mapM]. rewrite H, IH. reflexivity.
Qed.

Lemma exact_mean_chisq (s : list (Fp.pair_order exact)) :
  mean_chisq (map to_pair s) = Fp.mean_chisq exact s.
Proof.
  unfold mean_chisq, Fp.mean_chisq. rewrite map_map, length_map. reflexivity.
Qed.

Lemma exact_select_lseq (sequences : list (list (Fp.pair_order exact))) :
  select_lseq (map (map to_pair) sequences)
  = (lseq <- Fp.select_lseq exact sequences ;; Ok (map to_pair lseq)).
Proof.
  unfold select_lseq, Fp.select_lseq.
  assert (Hlen : map (@length pair_order) (map (map to_pair) sequences)
                 = map (@length (Fp.pair_order exact)) sequences).
  { rewrite map_map. apply map_ext. intros s. apply length_map. }
  rewrite Hlen.
  destruct (Np.max_nat (map (@length (Fp.pair_order exact)) sequences)) as [m|e];
    [|reflexivity].
  cbn [bind].
  set (longest := Np.where_ (fun n => (n =? m)%nat)
                            (map (@length (Fp.pair_order exact)) sequences)).
  destruct (length longest =? 1)%nat.
  - destruct (Np.getitem longest 0) as [l0|e]; [|reflexivity]. cbn [bind].
    apply getitem_map.
  - rewrite (mapM_ext _ (fun ii => s <- Np.getitem sequences ii ;;
                                   Ok (Fp.mean_chisq exact s))).
    2:{ intros ii. rewrite getitem_map.
        destruct (Np.getitem sequences ii); cbn [bind]; [|reflexivity].
        rewrite exact_mean_chisq. reflexivity. }
    destruct (mapM _ longest) as [scores|e]; [|reflexivity]. cbn [bind].
    rewrite exact_min.
    destruct (Np.min scores) as [ms|e]; [|reflexivity]. cbn [bind].
    cbn [Fp.num Fp.eqb exact] in *.
    destruct (Np.where_first (fun s => Qeq_bool s ms) scores) as [min_score|e];
      [|reflexivity].
    cbn [bind].
    destruct (Np.getitem longest min_score) as [l|e]; [|reflexivity]. cbn [bind].
    apply getitem_map.
Qed.
